(** * computational_essays: a shallow embedding of the two data-processing
      packages

    [packages/qgr_data_processing.py] (text cleaning, document loading,
    ingestion into the vector index, grouping of search hits) and
    [packages/youtube_data_processing.py] (the resumable harvest loop over
    the YouTube Data API) are translated function by function.  Python
    strings are lists of code points, dictionaries read with [.get] are
    records of optional fields, exceptions are a [Raise] result, and the
    files and the remote API of the harvest loop are an explicit world that
    every step threads. *)

From Stdlib Require Import NArith ZArith List Bool Lia String Ascii.
From Stdlib Require Import Floats.PrimFloat.
From stdpp Require Import base option list gmap strings.
Import ListNotations.

Set Warnings "-register-all".
Local Open Scope N_scope.

(** ** Python values shared by the two packages *)

(** A Python [str] is a sequence of Unicode code points. *)
Definition char := N.
Definition pystr := list char.

(** [u "text"] is the Python string with the code points of an ASCII
    literal. *)
Definition u (s : string) : pystr :=
  map N_of_ascii (list_ascii_of_string s).

(** The exceptions the modelled code raises. *)
Inductive exn :=
| TypeError
| KeyError
| ValueError
| FileNotFoundError
| Exception (msg : string).

Inductive result (A : Type) :=
| Ok (a : A)
| Raise (e : exn).
Arguments Ok {A} a.
Arguments Raise {A} e.

(** ** The part of [re] that the cleaning functions use *)

Module Re.

(** The character tables of the Unicode database that [\d] and [\s] consult
    beyond ASCII.  They belong to the interpreter, not to the repository,
    and are taken as a parameter of the embedding. *)
Class UnicodeDB := {
  uni_decimal : char -> bool;
  uni_space : char -> bool
}.

(** A database with no decimal digit and no white space beyond ASCII; on
    ASCII text every database gives the same answers. *)
Definition ascii_db : UnicodeDB :=
  {| uni_decimal := fun _ => false; uni_space := fun _ => false |}.

Definition in_range (lo hi c : N) : bool := (lo <=? c) && (c <=? hi).

Section Classes.
Context {U : UnicodeDB}.

(** [\d] on a [str] pattern: [0-9] and every other decimal digit. *)
Definition is_digit (c : char) : bool :=
  if c <? 128 then in_range 48 57 c else uni_decimal c.

(** [\s] on a [str] pattern: tab, newline, vertical tab, form feed, carriage
    return, the four separators 0x1c-0x1f, space, and the Unicode spaces. *)
Definition is_space (c : char) : bool :=
  if c <? 128 then in_range 9 13 c || in_range 28 31 c || (c =? 32)
  else uni_space c.

(** [\S] *)
Definition non_space (c : char) : bool := negb (is_space c).

End Classes.

(** [.] without DOTALL: anything but a newline. *)
Definition any_char (c : char) : bool := negb (c =? 10).

(** The patterns of the module are built from literals, character classes,
    greedy repetitions [p{n,}] of a class ([p+] is [p{1,}]), concatenation
    and ordered alternation. *)
Inductive regex :=
| Lit (l : pystr)
| Cls (p : char -> bool)
| Rep (n : nat) (p : char -> bool)
| Cat (r1 r2 : regex)
| Alt (r1 r2 : regex).

(** Backtracking matcher in continuation-passing style: [k] receives the
    text left after the part matched so far and answers with the text left
    after the whole match. *)
Fixpoint lit (l s : pystr) : option pystr :=
  match l, s with
  | [], _ => Some s
  | a :: l', b :: s' => if a =? b then lit l' s' else None
  | _ :: _, [] => None
  end.

(** [p*], greedy: take as many characters as possible, give them back one
    by one while the continuation fails. *)
Fixpoint many (p : char -> bool) (s : pystr)
    (k : pystr -> option pystr) : option pystr :=
  match s with
  | c :: s' =>
      if p c then
        match many p s' k with
        | Some r => Some r
        | None => k s
        end
      else k s
  | [] => k []
  end.

Fixpoint at_least (n : nat) (p : char -> bool) (s : pystr)
    (k : pystr -> option pystr) : option pystr :=
  match n with
  | O => many p s k
  | S n' =>
      match s with
      | c :: s' => if p c then at_least n' p s' k else None
      | [] => None
      end
  end.

Fixpoint run (r : regex) (s : pystr)
    (k : pystr -> option pystr) : option pystr :=
  match r with
  | Lit l => match lit l s with Some s' => k s' | None => None end
  | Cls p =>
      match s with
      | c :: s' => if p c then k s' else None
      | [] => None
      end
  | Rep n p => at_least n p s k
  | Cat r1 r2 => run r1 s (fun s' => run r2 s' k)
  | Alt r1 r2 =>
      match run r1 s k with
      | Some rest => Some rest
      | None => run r2 s k
      end
  end.

(** [pattern.match(s)]: the length of the match that starts at the head of
    [s], if there is one. *)
Definition match_at (r : regex) (s : pystr) : option nat :=
  match run r s Some with
  | Some rest => Some (length s - length rest)%nat
  | None => None
  end.

(** [re.search(r, s) is not None]: some position of [s] starts a match. *)
Fixpoint search (r : regex) (s : pystr) : bool :=
  match match_at r s with
  | Some _ => true
  | None =>
      match s with
      | [] => false
      | _ :: s' => search r s'
      end
  end.

(** [re.sub(r, repl, s)] for a literal replacement: scan left to right, at
    each position replace the match that starts there and resume behind it,
    otherwise copy the character.  [skip] counts the characters of the
    current match still to be dropped.  No pattern of the module matches the
    empty string, so an empty match is treated as no match. *)
Fixpoint sub_from (r : regex) (repl : pystr) (skip : nat)
    (s : pystr) : pystr :=
  match s with
  | [] => []
  | c :: s' =>
      match skip with
      | S k => sub_from r repl k s'
      | O =>
          match match_at r s with
          | Some (S k) => repl ++ sub_from r repl k s'
          | _ => c :: sub_from r repl O s'
          end
      end
  end.

Definition sub (r : regex) (repl s : pystr) : pystr := sub_from r repl O s.

End Re.

(** ** packages/qgr_data_processing.py *)

Module QGR.
Import Re.

Section Cleaning.
Context {U : UnicodeDB}.

(** [r'http\S+|www.\S+'] *)
Definition url_re : regex :=
  Alt (Cat (Lit (u "http")) (Rep 1 non_space))
      (Cat (Lit (u "www")) (Cat (Cls any_char) (Rep 1 non_space))).

(** [r'\d+:\d+:\d+|\d+:\d+'] *)
Definition timestamp_re : regex :=
  Alt (Cat (Rep 1 is_digit) (Cat (Lit (u ":")) (Cat (Rep 1 is_digit)
         (Cat (Lit (u ":")) (Rep 1 is_digit)))))
      (Cat (Rep 1 is_digit) (Cat (Lit (u ":")) (Rep 1 is_digit))).

(** [r'\S{30,}'] *)
Definition long_run_re : regex := Rep 30 non_space.

(** The characters that [r'[^a-zA-Z0-9 \n\.]'] does not match. *)
Definition kept_char (c : char) : bool :=
  in_range 97 122 c || in_range 65 90 c || in_range 48 57 c
  || (c =? 32) || (c =? 10) || (c =? 46).

Definition special_re : regex := Cls (fun c => negb (kept_char c)).

(** [r'\n+'] and [r' +'] *)
Definition newlines_re : regex := Rep 1 (fun c => c =? 10).
Definition spaces_re : regex := Rep 1 (fun c => c =? 32).

(** [clean_description]; [None] is a value for which [pd.isnull] holds. *)
Definition clean_description (description : option pystr) : pystr :=
  match description with
  | None => []
  | Some description =>
      let description := sub url_re [] description in
      let description := sub timestamp_re [] description in
      let description := sub long_run_re [] description in
      let description := sub special_re [] description in
      let description := sub newlines_re (u (String "010" "")) description in
      let description := sub spaces_re (u " ") description in
      description
  end.

(** [r'[\u2022-\u5424]'] and [r'[^\x00-\x7F]+'] *)
Definition bullet_re : regex := Cls (in_range 8226 21540).
Definition non_ascii_re : regex := Rep 1 (fun c => negb (in_range 0 127 c)).

(** [clean_latex] has no test for a missing value: [re.sub] is called at
    once and raises [TypeError] when its text argument is [None]. *)
Definition clean_latex (latex_content : option pystr) : result pystr :=
  match latex_content with
  | None => Raise TypeError
  | Some latex_content =>
      let cleaned_content := sub bullet_re [] latex_content in
      let cleaned_content := sub non_ascii_re [] cleaned_content in
      let cleaned_content := sub spaces_re (u " ") cleaned_content in
      Ok cleaned_content
  end.

End Cleaning.

(** *** Ingestion: [process_and_insert_documents] *)

(** The dictionary [entry], as [process_file_from_folder] builds it from a
    document whose values are strings or [null]: a metadata field is [None]
    when the key is absent or its value is [None] (both give the same
    result through [entry.get(key, "") or "Unknown"]), and the key
    ["content"] is present, with a string or [None].  A dictionary
    without the key ["content"] (a [KeyError] at [entry["content"]]) and
    values that are not strings (a [TypeError] at [len]) are outside this
    record: what is proved below about a call is proved for these entries,
    and nothing is claimed about the exceptions of others. *)
Record entry := {
  e_title : option pystr;
  e_date : option pystr;
  e_authors : option pystr;
  e_abstract : option pystr;
  e_keywords : option pystr;
  e_category : option pystr;
  e_content : option pystr
}.

(** One row handed to [collection.insert]. *)
Record index_record (vector : Type) := {
  r_documentId : pystr;
  r_title : pystr;
  r_date : pystr;
  r_authors : pystr;
  r_abstract : pystr;
  r_keywords : pystr;
  r_category : pystr;
  r_content : pystr;
  r_content_vector : vector
}.
Arguments r_documentId {vector} _.
Arguments r_title {vector} _.
Arguments r_date {vector} _.
Arguments r_authors {vector} _.
Arguments r_abstract {vector} _.
Arguments r_keywords {vector} _.
Arguments r_category {vector} _.
Arguments r_content {vector} _.
Arguments r_content_vector {vector} _.

Section Ingestion.
Context {U : UnicodeDB}.

(** The collaborators outside the repository: the sentence-embedding model
    followed by the division by the norm, the text splitter of langchain
    (chunk size, overlap, text) and [hashlib.sha256(..).hexdigest()]. *)
Context {vector : Type}.
Variable encode_normalized : pystr -> vector.
Variable splitter : nat -> nat -> pystr -> list pystr.
Variable sha256_hexdigest : pystr -> pystr.

(** [convertToVector(sentence, model, length)] *)
Definition convertToVector (sentence : pystr) (length : nat) : vector :=
  let sentence := take length sentence in
  encode_normalized sentence.

(** [splitText(content, splitter, length, overlap=20)] *)
Definition splitText (content : pystr) (length : nat) : list pystr :=
  splitter length 20%nat content.

(** [generate_document_id]: the digest of [f"{title}-{authors}-{date}"]. *)
Definition generate_document_id (title authors date : pystr) : pystr :=
  sha256_hexdigest (title ++ u "-" ++ authors ++ u "-" ++ date).

(** The stanza the function repeats for each metadata key:
    [value = entry.get(key, "") or "Unknown"], cleaned when longer than
    [threshold], then sliced to [value[:bound]]. *)
Definition field_value (raw : option pystr) (threshold bound : nat)
    : pystr :=
  let value :=
    match raw with
    | Some (c :: s) => c :: s
    | _ => u "Unknown"
    end in
  let value :=
    if (threshold <? length value)%nat then clean_description (Some value)
    else value in
  take bound value.

(** [process_and_insert_documents]: the rows passed to
    [collection.insert], in order. *)
Definition process_and_insert_documents (entry : entry)
    (partition_name : pystr) : result (list (index_record vector)) :=
  let date_value := field_value (e_date entry) 1000 250 in
  let keywords_value := field_value (e_keywords entry) 1000 1004 in
  let author_value := field_value (e_authors entry) 1000 1000 in
  let title_value := field_value (e_title entry) 1000 900 in
  let abstract_value := field_value (e_abstract entry) 4000 4000 in
  let category_value := field_value (e_category entry) 1000 250 in
  let content := e_content entry in
  let cleaned :=
    if bool_decide (partition_name = u "notes")
    then Ok (clean_description content)
    else clean_latex content in
  match cleaned with
  | Raise e => Raise e
  | Ok content =>
      let docslatex := splitText content 512 in
      let documentId_value :=
        generate_document_id title_value author_value date_value in
      Ok (map (fun page_content =>
                 let embeddingElement :=
                   if (512 <? length page_content)%nat
                   then clean_description (Some page_content)
                   else page_content in
                 let content_vector_element :=
                   convertToVector embeddingElement 512 in
                 {| r_documentId := documentId_value;
                    r_title := title_value;
                    r_date := date_value;
                    r_authors := author_value;
                    r_abstract := abstract_value;
                    r_keywords := keywords_value;
                    r_category := category_value;
                    r_content := embeddingElement;
                    r_content_vector := content_vector_element |})
              docslatex)
  end.

End Ingestion.

(** *** Loading a document: [process_file_from_folder] *)

(** The value under ["authors"] in a document file. *)
Inductive authors_value :=
| AuthorsMissing
| AuthorsNull
| AuthorsList (names : list pystr).

(** The object [json.load] returns, with the keys the loader reads; a text
    field is [None] when the key is absent or null. *)
Record json_data := {
  j_title : option pystr;
  j_date : option pystr;
  j_authors : authors_value;
  j_abstract : option pystr;
  j_latex_doc : option pystr
}.

(** A folder: its files in listing order, each with the object it decodes
    to ([None] when [json.load] fails on it), and its sub-folders. *)
Inductive folder :=
| Folder (files : list (pystr * option json_data))
         (dirs : list (pystr * folder)).

Definition slash : char := 47.

(** [os.path.join(a, b)] (POSIX) *)
Definition path_join (a b : pystr) : pystr :=
  match b with
  | c :: _ => if c =? slash then b
              else match last a with
                   | None => b
                   | Some d => if d =? slash then a ++ b
                               else a ++ slash :: b
                   end
  | [] => match last a with
          | None => b
          | Some d => if d =? slash then a ++ b else a ++ slash :: b
          end
  end.

(** [os.path.basename(p)]: what follows the last separator. *)
Definition basename (p : pystr) : pystr :=
  fold_left (fun acc c => if c =? slash then [] else acc ++ [c]) p [].

(** [sep.join(parts)] *)
Fixpoint str_join (sep : pystr) (parts : list pystr) : pystr :=
  match parts with
  | [] => []
  | [p] => p
  | p :: rest => p ++ sep ++ str_join sep rest
  end.

(** [s.endswith(suffix)] *)
Definition endswith (s suffix : pystr) : bool :=
  bool_decide (drop (length s - length suffix) s = suffix).

(** [os.path.relpath(root, folder_path)] for a [root] that [os.walk] built
    by joining the names [rel] to [folder_path]. *)
Definition relpath (rel : list pystr) : pystr :=
  match rel with
  | [] => u "."
  | _ => str_join [slash] rel
  end.

(** [os.walk(folder_path)], top-down: every folder with its path, the names
    that lead to it from the top and its files. *)
Fixpoint walk (root : pystr) (rel : list pystr) (t : folder)
    : list (pystr * list pystr * list (pystr * option json_data)) :=
  match t with
  | Folder files dirs =>
      (root, rel, files)
      :: flat_map (fun nd =>
                     match nd with
                     | (name, d) => walk (path_join root name)
                                         (rel ++ [name]) d
                     end) dirs
  end.

(** The category of the folder at [root]. *)
Definition category_of (root : pystr) (rel : list pystr) : pystr :=
  let rel_path := relpath rel in
  let category :=
    map (fun c => if c =? slash then 95 else c) rel_path in
  if bool_decide (category = u ".") then basename root else category.

(** The body of [with open(file_path) as json_file]. *)
Definition load_entry (category : pystr) (content : option json_data)
    : result entry :=
  match content with
  | None => Raise ValueError
  | Some data =>
      match j_authors data with
      | AuthorsNull => Raise TypeError
      | a =>
          let names :=
            match a with AuthorsList l => l | _ => [] end in
          Ok {| e_title := j_title data;
                e_date := j_date data;
                e_authors := Some (str_join (u ", ") names);
                e_abstract := j_abstract data;
                e_keywords := None;
                e_category := Some category;
                e_content := j_latex_doc data |}
      end
  end.

(** [for file in files]: the first name ending in [.json] ends the call. *)
Fixpoint scan_files (root category : pystr)
    (files : list (pystr * option json_data))
    : option (result (entry * pystr)) :=
  match files with
  | [] => None
  | (file, content) :: files' =>
      if endswith file (u ".json") then
        let file_path := path_join root file in
        Some match load_entry category content with
             | Ok entry => Ok (entry, file_path)
             | Raise e => Raise e
             end
      else scan_files root category files'
  end.

Fixpoint scan_folders
    (w : list (pystr * list pystr * list (pystr * option json_data)))
    : result (option (entry * pystr)) :=
  match w with
  | [] => Ok None
  | (root, rel, files) :: w' =>
      match scan_files root (category_of root rel) files with
      | Some (Ok found) => Ok (Some found)
      | Some (Raise e) => Raise e
      | None => scan_folders w'
      end
  end.

(** [process_file_from_folder(folder_path)]; [Ok None] is the pair
    [(None, None)]. *)
Definition process_file_from_folder (folder_path : pystr) (t : folder)
    : result (option (entry * pystr)) :=
  scan_folders (walk folder_path [] t).

(** *** Grouping search hits: [group_by_document_id] *)

(** [hit.entity.get(name)] for the output fields, and [hit.score]. *)
Record hit := {
  h_documentId : option pystr;
  h_title : option pystr;
  h_date : option pystr;
  h_authors : option pystr;
  h_abstract : option pystr;
  h_keywords : option pystr;
  h_category : option pystr;
  h_content : option pystr;
  h_score : float
}.

Record group := {
  g_title : option pystr;
  g_date : option pystr;
  g_authors : option pystr;
  g_abstract : option pystr;
  g_keywords : option pystr;
  g_category : option pystr;
  g_contents : list (option pystr);
  g_score : float
}.

(** [grouped_results] is a dictionary in insertion order. *)
Definition groups := list (option pystr * group).

Fixpoint dict_get (k : option pystr) (d : groups) : option group :=
  match d with
  | [] => None
  | (k', g) :: d' => if bool_decide (k' = k) then Some g else dict_get k d'
  end.

(** [grouped_results[document_id]['contents'].append(content)] *)
Fixpoint append_content (k : option pystr) (content : option pystr)
    (d : groups) : groups :=
  match d with
  | [] => []
  | (k', g) :: d' =>
      if bool_decide (k' = k) then
        (k', {| g_title := g_title g; g_date := g_date g;
                g_authors := g_authors g; g_abstract := g_abstract g;
                g_keywords := g_keywords g; g_category := g_category g;
                g_contents := g_contents g ++ [content];
                g_score := g_score g |}) :: d'
      else (k', g) :: append_content k content d'
  end.

(** The body of [for hit in results]. *)
Definition add_hit (grouped_results : groups) (hit : hit) : groups :=
  let document_id := h_documentId hit in
  match dict_get document_id grouped_results with
  | None =>
      grouped_results ++
      [(document_id,
        {| g_title := h_title hit; g_date := h_date hit;
           g_authors := h_authors hit; g_abstract := h_abstract hit;
           g_keywords := h_keywords hit; g_category := h_category hit;
           g_contents := [h_content hit];
           g_score := h_score hit |})]
  | Some _ => append_content document_id (h_content hit) grouped_results
  end.

Definition group_by_document_id (results : list hit) : groups :=
  fold_left add_hit results [].

End QGR.


(** ** packages/youtube_data_processing.py *)

Module Harvest.

(** *** The remote API *)

(** [data['error']]: the keys the code reads. *)
Record api_error := {
  err_code : Z;
  err_message : string
}.

(** One element of [data['items']] of the search endpoint:
    [video['id']['kind']] and [video['id']['videoId']]. *)
Record search_item := {
  item_kind : string;
  item_videoId : string
}.

(** The decoded JSON object of a response: the three keys the harvest code
    looks at, each absent or present, and the rest of the payload. *)
Record response := {
  resp_error : option api_error;
  resp_items : option (list search_item);
  resp_nextPageToken : option string;
  resp_payload : string
}.

(** The three read endpoints. *)
Inductive request :=
| GetChannel (channel_id : string)
| SearchVideos (channel_id : string) (pageToken : option string)
| GetVideo (video_id : string).

(** *** The persisted state *)

(** An element of the roster file. *)
Record channel_record := {
  channelID : string;
  fetched_videos : bool;
  fetched_statistics : bool
}.

(** An element of a channel's video list file. *)
Record video_record := {
  VideoID : string;
  fetched_video : bool
}.

(** The cell [{'yt_api': {'videos': [...], 'statistics': ...}}] of the
    data frame; an element of [videos] is whatever [get_channel_video]
    returned. *)
Record yt_api := {
  videos : list (option response);
  statistics : response
}.

(** The data frame has one row and one column per channel id. *)
Abbreviation dataset := (gmap string yt_api).

(** The files and the requests sent so far, oldest first.
    [api_data_file] is [None] while the file does not exist; a video list
    file holds a JSON list or [null]. *)
Record world := {
  api_data_file : option dataset;
  channels_file_json : list channel_record;
  video_list_files : gmap string (option (list video_record));
  requests : list request
}.

(** *** Computations over the world *)

Inductive outcome (A : Type) :=
| Returned (a : A)
| Raised (e : exn)
| Diverged.
Arguments Returned {A} a.
Arguments Raised {A} e.
Arguments Diverged {A}.

Definition M (A : Type) : Type := world -> outcome A * world.

Definition ret {A} (a : A) : M A := fun w => (Returned a, w).

Definition bind {A B} (m : M A) (k : A -> M B) : M B :=
  fun w =>
    match m w with
    | (Returned a, w') => k a w'
    | (Raised e, w') => (Raised e, w')
    | (Diverged, w') => (Diverged, w')
    end.

Definition raise {A} (e : exn) : M A := fun w => (Raised e, w).
Definition diverge {A} : M A := fun w => (Diverged, w).

Notation "'let*' x ':=' m 'in' k" := (bind m (fun x => k))
  (at level 10, x pattern, m at level 100, k at level 200).

(** [df.to_json(api_data_file, lines=True, orient='records')] *)
Definition write_api_data (df : dataset) : M unit :=
  fun w =>
    (Returned tt,
     {| api_data_file := Some df;
        channels_file_json := channels_file_json w;
        video_list_files := video_list_files w;
        requests := requests w |}).

(** [json.dump(ranked_channels, f)] on the roster file *)
Definition write_channels (ranked_channels : list channel_record) : M unit :=
  fun w =>
    (Returned tt,
     {| api_data_file := api_data_file w;
        channels_file_json := ranked_channels;
        video_list_files := video_list_files w;
        requests := requests w |}).

(** Writing [f"{channel_id}.json"] *)
Definition write_video_list (channel_id : string)
    (content : option (list video_record)) : M unit :=
  fun w =>
    (Returned tt,
     {| api_data_file := api_data_file w;
        channels_file_json := channels_file_json w;
        video_list_files := <[channel_id := content]> (video_list_files w);
        requests := requests w |}).

(** [os.path.exists(f"{channel_id}.json")] *)
Definition video_list_exists (channel_id : string) : M bool :=
  fun w =>
    (Returned (bool_decide (is_Some (video_list_files w !! channel_id))), w).

(** [json.load] of [f"{channel_id}.json"] *)
Definition read_video_list (channel_id : string)
    : M (option (list video_record)) :=
  fun w =>
    match video_list_files w !! channel_id with
    | Some content => (Returned content, w)
    | None => (Raised FileNotFoundError, w)
    end.

(** [needle in haystack] on strings *)
Fixpoint str_contains (needle haystack : string) : bool :=
  if String.prefix needle haystack then true
  else match haystack with
       | EmptyString => false
       | String _ rest => str_contains needle rest
       end.

(** The test both guarded endpoints make:
    ['error' in data], code 403 and ['quota'] in the message. *)
Definition quota_exceeded (data : response) : bool :=
  match resp_error data with
  | Some e => (err_code e =? 403)%Z && str_contains "quota" (err_message e)
  | None => false
  end.

(** [df.empty] *)
Definition df_empty (df : dataset) : bool :=
  match map_to_list df with
  | [] => true
  | _ => false
  end.

Definition set_fetched_statistics (c : channel_record) : channel_record :=
  {| channelID := channelID c;
     fetched_videos := fetched_videos c;
     fetched_statistics := true |}.

Definition set_fetched_videos (c : channel_record) : channel_record :=
  {| channelID := channelID c;
     fetched_videos := true;
     fetched_statistics := fetched_statistics c |}.

Definition set_fetched_video (v : video_record) : video_record :=
  {| VideoID := VideoID v; fetched_video := true |}.

(** [channel_data['yt_api']['videos'].append(video_data)] *)
Definition append_video (channel_data : yt_api)
    (video_data : option response) : yt_api :=
  {| videos := videos channel_data ++ [video_data];
     statistics := statistics channel_data |}.

(** [channel_ids_csv_to_json]: [channel_ids] is the column
    [df['channel_id'].tolist()] that [pd.read_csv] returned, and the file
    written is the roster file that the two loops below read. *)
Definition channel_ids_csv_to_json (channel_ids : list string) : M unit :=
  let formatted_data :=
    map (fun channel_id =>
           {| channelID := channel_id;
              fetched_videos := false;
              fetched_statistics := false |})
        channel_ids in
  write_channels formatted_data.

Section Loop.

(** The remote service: the answer to the [n]-th request of the run
    (counting from 0).  The API key is constant and left out. *)
Variable api : nat -> request -> response.

(** A bound on the number of pages one channel's search may take; the
    [while True] of [get_channel_videos_list] diverges beyond it. *)
Variable max_pages : nat.

(** [requests.get(...)] followed by the decoding of the body *)
Definition send (req : request) : M response :=
  fun w =>
    (Returned (api (length (requests w)) req),
     {| api_data_file := api_data_file w;
        channels_file_json := channels_file_json w;
        video_list_files := video_list_files w;
        requests := requests w ++ [req] |}).

(** [get_channel_statistics]: the decoded answer, whatever it is. *)
Definition get_channel_statistics (channel_id : string) : M response :=
  send (GetChannel channel_id).

(** [write_channel_video_list_to_file]: the list comprehension iterates
    over [video_ids] before the file is opened. *)
Definition write_channel_video_list_to_file (channel_id : string)
    (video_ids : option (list string)) : M unit :=
  match video_ids with
  | None => raise TypeError
  | Some video_ids =>
      let video_list :=
        map (fun video_id =>
               {| VideoID := video_id; fetched_video := false |})
            video_ids in
      write_video_list channel_id (Some video_list)
  end.

(** The [while True] loop of [get_channel_videos_list]. *)
Fixpoint get_pages (fuel : nat) (channel_id : string)
    (pageToken : option string) (video_ids : list string)
    : M (option (list string)) :=
  match fuel with
  | O => diverge
  | S fuel' =>
      let* data := send (SearchVideos channel_id pageToken) in
      if quota_exceeded data then
        raise (Exception
          "Quota exceeded get channel list. Please try again later.")
      else
        match resp_items data with
        | Some items =>
            let video_ids :=
              video_ids ++
              map item_videoId
                (List.filter
                   (fun video =>
                      String.eqb (item_kind video) "youtube#video")
                   items) in
            match resp_nextPageToken data with
            | Some next_page_token =>
                get_pages fuel' channel_id (Some next_page_token) video_ids
            | None => ret (Some video_ids)
            end
        | None => ret None
        end
  end.

Definition get_channel_videos_list (channel_id : string)
    : M (option (list string)) :=
  get_pages max_pages channel_id None [].

(** [get_channel_video] *)
Definition get_channel_video (video_id : string) : M (option response) :=
  let* data := send (GetVideo video_id) in
  if quota_exceeded data then
    raise (Exception
      "Quota exceeded get channel video. Please try again later.")
  else ret (Some data).

(** The start of both loops: the data frame is read, or created empty and
    saved when the file does not exist. *)
Definition load_api_data : M dataset :=
  fun w =>
    match api_data_file w with
    | None => bind (write_api_data ∅) (fun _ => ret ∅) w
    | Some df => (Returned df, w)
    end.

Definition load_channels : M (list channel_record) :=
  fun w => (Returned (channels_file_json w), w).

(** The block under [if not fetched_statistics], the same in both loops.
    The roster being iterated is kept as the elements already visited
    ([before]), the current one and those to come ([after]): the update of
    the current dictionary is an update of the list that is dumped. *)
Definition fetch_statistics (before after : list channel_record)
    (channel_info : channel_record) (df : dataset)
    : M (dataset * channel_record) :=
  let channel_id := channelID channel_info in
  let* channel_statistics := get_channel_statistics channel_id in
  let new_cell := {| videos := []; statistics := channel_statistics |} in
  let df :=
    if df_empty df then {[ channel_id := new_cell ]}
    else <[ channel_id := new_cell ]> df in
  let channel_info := set_fetched_statistics channel_info in
  let* _ := write_api_data df in
  let* _ := write_channels (before ++ channel_info :: after) in
  ret (df, channel_info).

(** The block that makes sure the channel's video list file exists and
    loads it, the same in both loops. *)
Definition load_channel_videos (channel_id : string)
    : M (option (list video_record)) :=
  let* present := video_list_exists channel_id in
  let* _ :=
    if negb present then
      let* channel_videos := get_channel_videos_list channel_id in
      write_channel_video_list_to_file channel_id channel_videos
    else ret tt in
  read_video_list channel_id.

(** Storing one fetched video: the data frame is saved, then the flag of
    the video is set and the list file is rewritten. *)
Definition store_video (channel_id : string) (done todo : list video_record)
    (video : video_record) (video_data : option response) (df : dataset)
    : M (dataset * video_record) :=
  match df !! channel_id with
  | None => raise KeyError
  | Some channel_data =>
      let channel_data := append_video channel_data video_data in
      let df := <[ channel_id := channel_data ]> df in
      let* _ := write_api_data df in
      let video := set_fetched_video video in
      let* _ := write_video_list channel_id (Some (done ++ video :: todo)) in
      ret (df, video)
  end.

(** [for video in channel_videos] of [process_channels]. *)
Fixpoint videos_loop_pc (channel_id : string) (done todo : list video_record)
    (df : dataset) (all_videos_feched : bool)
    : M (dataset * list video_record * bool) :=
  match todo with
  | [] => ret (df, done, all_videos_feched)
  | video :: todo' =>
      if negb (fetched_video video) then
        let* video_data := get_channel_video (VideoID video) in
        match video_data with
        | Some _ =>
            let* (df, video) :=
              store_video channel_id done todo' video video_data df in
            videos_loop_pc channel_id (done ++ [video]) todo' df
              all_videos_feched
        | None =>
            videos_loop_pc channel_id (done ++ [video]) todo' df false
        end
      else
        videos_loop_pc channel_id (done ++ [video]) todo' df
          all_videos_feched
  end.

(** [for video in channel_videos] of [fetch_youtube_data]: the inner test
    repeats [not fetched_video]. *)
Fixpoint videos_loop_fy (channel_id : string) (done todo : list video_record)
    (df : dataset) (all_videos_feched : bool)
    : M (dataset * list video_record * bool) :=
  match todo with
  | [] => ret (df, done, all_videos_feched)
  | video :: todo' =>
      if negb (fetched_video video) then
        let* video_data := get_channel_video (VideoID video) in
        if negb (fetched_video video) then
          let* (df, video) :=
            store_video channel_id done todo' video video_data df in
          videos_loop_fy channel_id (done ++ [video]) todo' df
            all_videos_feched
        else
          videos_loop_fy channel_id (done ++ [video]) todo' df false
      else
        videos_loop_fy channel_id (done ++ [video]) todo' df
          all_videos_feched
  end.

(** The block under [if all_videos_feched]. *)
Definition finish_videos (before after : list channel_record)
    (channel_info : channel_record) (all_videos_feched : bool)
    : M channel_record :=
  if all_videos_feched then
    let channel_info := set_fetched_videos channel_info in
    let* _ := write_channels (before ++ channel_info :: after) in
    ret channel_info
  else ret channel_info.

(** One iteration of [process_channels] past the [break] test.  The
    boolean tells whether the end of the body, [channels_processed += 1],
    was reached ([continue] skips it). *)
Definition visit_pc (before after : list channel_record)
    (channel_info : channel_record) (df : dataset)
    : M (dataset * channel_record * bool) :=
  let channel_id := channelID channel_info in
  let fetched_videos := fetched_videos channel_info in
  let fetched_statistics := fetched_statistics channel_info in
  let* (df, channel_info) :=
    if negb fetched_statistics
    then fetch_statistics before after channel_info df
    else ret (df, channel_info) in
  if negb fetched_videos then
    let* channel_videos := load_channel_videos channel_id in
    match channel_videos with
    | None => ret (df, channel_info, false)
    | Some channel_videos =>
        let* (df, _, all_videos_feched) :=
          videos_loop_pc channel_id [] channel_videos df true in
        let* channel_info :=
          finish_videos before after channel_info all_videos_feched in
        ret (df, channel_info, true)
    end
  else ret (df, channel_info, true).

Fixpoint loop_pc (max_channels : Z) (before todo : list channel_record)
    (df : dataset) (channels_processed : Z) : M Z :=
  match todo with
  | [] => ret channels_processed
  | channel_info :: after =>
      if (max_channels <=? channels_processed)%Z then
        ret channels_processed
      else
        let* (df, channel_info, counted) :=
          visit_pc before after channel_info df in
        loop_pc max_channels (before ++ [channel_info]) after df
          (if counted then channels_processed + 1 else channels_processed)%Z
  end.

(** [process_channels]; the result is the printed counter. *)
Definition process_channels (max_channels : Z) : M Z :=
  let* df := load_api_data in
  let* ranked_channels := load_channels in
  loop_pc max_channels [] ranked_channels df 0%Z.

(** One iteration of [fetch_youtube_data] past the [break] test.  The
    booleans tell whether [channelsProcessed] and [channelsLoaded] were
    incremented. *)
Definition visit_fy (processVideo : bool) (before after : list channel_record)
    (channel_info : channel_record) (df : dataset)
    : M (dataset * channel_record * bool * bool) :=
  let channel_id := channelID channel_info in
  let fetched_videos := fetched_videos channel_info in
  let fetched_statistics := fetched_statistics channel_info in
  let* (df, channel_info) :=
    if negb fetched_statistics
    then fetch_statistics before after channel_info df
    else ret (df, channel_info) in
  if negb processVideo then ret (df, channel_info, false, true)
  else if negb fetched_videos then
    let* channel_videos := load_channel_videos channel_id in
    match channel_videos with
    | None => ret (df, channel_info, false, false)
    | Some channel_videos =>
        let* (df, _, all_videos_feched) :=
          videos_loop_fy channel_id [] channel_videos df true in
        let* channel_info :=
          finish_videos before after channel_info all_videos_feched in
        ret (df, channel_info, true, true)
    end
  else ret (df, channel_info, false, true).

Fixpoint loop_fy (maxChannels : Z) (processVideo : bool)
    (before todo : list channel_record) (df : dataset)
    (channelsProcessed channelsLoaded : Z) : M (Z * Z) :=
  match todo with
  | [] => ret (channelsProcessed, channelsLoaded)
  | channel_info :: after =>
      if (maxChannels <=? channelsProcessed)%Z then
        ret (channelsProcessed, channelsLoaded)
      else
        let* (df, channel_info, processed, loaded) :=
          visit_fy processVideo before after channel_info df in
        loop_fy maxChannels processVideo (before ++ [channel_info]) after df
          (if processed then channelsProcessed + 1 else channelsProcessed)%Z
          (if loaded then channelsLoaded + 1 else channelsLoaded)%Z
  end.

(** [fetch_youtube_data]; the result is the two printed counters. *)
Definition fetch_youtube_data (maxChannels : Z) (processVideo : bool)
    : M (Z * Z) :=
  let* df := load_api_data in
  let* ranked_channels := load_channels in
  loop_fy maxChannels processVideo [] ranked_channels df 0%Z 0%Z.

End Loop.

End Harvest.

(** * Statements

    The properties below are stated with these predicates and sample
    inputs. *)

Import Re QGR.

Definition colon : char := 58.

Definition colon_free (s : pystr) : Prop := Forall (fun c => c <> colon) s.

(** What plain-mode cleaning is expected to guarantee about its output: no
    URL token, no timestamp, no run of 30 characters without white space,
    and only the characters of [[A-Za-z0-9 \n.]]. *)
Definition plain_output_clean {U : UnicodeDB} (s : pystr) : Prop :=
  let out := clean_description (Some s) in
  search url_re out = false /\
  search timestamp_re out = false /\
  search long_run_re out = false /\
  Forall (fun c => kept_char c = true) out.

(** The number of leading characters of a text that are in a class. *)
Fixpoint span (p : char -> bool) (s : pystr) : nat :=
  match s with
  | c :: s' => if p c then S (span p s') else O
  | [] => O
  end.

(** The first five characters of a text start a URL token: [http] or
    [www] and any character, then a character that is not white space. *)
Definition url_start {U : UnicodeDB} (s : pystr) : bool :=
  match s with
  | c1 :: c2 :: c3 :: c4 :: c5 :: _ =>
      ((104 =? c1) && (116 =? c2) && (116 =? c3) && (112 =? c4)
       && non_space c5)
      || ((119 =? c1) && (119 =? c2) && (119 =? c3) && any_char c4
          && non_space c5)
  | _ => false
  end.

(** Twenty letters, a tab, twenty letters. *)
Definition two_runs : pystr :=
  replicate 20 97 ++ [9] ++ replicate 20 97.

(** The declared bounds of an index row, with the bound of the keywords
    left open. *)
Definition within_bounds {vector : Type} (keywords_bound : nat)
    (r : index_record vector) : Prop :=
  (length (r_title r) <= 900)%nat /\
  (length (r_date r) <= 250)%nat /\
  (length (r_authors r) <= 1000)%nat /\
  (length (r_abstract r) <= 4000)%nat /\
  (length (r_keywords r) <= keywords_bound)%nat /\
  (length (r_category r) <= 250)%nat.

(** A document whose keywords are 251 times ["abc "], 1004 characters that
    cleaning leaves as they are. *)
Definition entry_long_keywords : entry :=
  {| e_title := Some (u "T");
     e_date := Some (u "2023-01-01");
     e_authors := Some (u "A, B");
     e_abstract := None;
     e_keywords := Some (concat (replicate 251 (u "abc ")));
     e_category := Some (u "papers");
     e_content := Some (u "body") |}.

(** A splitter that returns the text as one chunk. *)
Definition one_chunk (chunk_size overlap : nat) (content : pystr)
    : list pystr := [content].

(** The files ending in [.json] in the order of the walk, each with the
    folder it is in. *)
Definition json_files
    (w : list (pystr * list pystr * list (pystr * option json_data)))
    : list (pystr * list pystr * pystr * option json_data) :=
  flat_map
    (fun d =>
       match d with
       | (root, rel, files) =>
           map (fun fc => (root, rel, fst fc, snd fc))
               (List.filter (fun fc => endswith (fst fc) (u ".json")) files)
       end) w.

(** The hits of a result list that carry a given document id. *)
Definition hits_of (d : option pystr) (results : list hit) : list hit :=
  List.filter (fun h => bool_decide (h_documentId h = d)) results.

(** The group of [d] that a run over [results] leaves when it starts from
    the dictionary entry [g0]. *)
Definition extend_group (g0 : option group) (same : list hit)
    : option group :=
  match g0 with
  | Some g =>
      Some {| g_title := g_title g; g_date := g_date g;
              g_authors := g_authors g; g_abstract := g_abstract g;
              g_keywords := g_keywords g; g_category := g_category g;
              g_contents := g_contents g ++ map h_content same;
              g_score := g_score g |}
  | None =>
      match same with
      | [] => None
      | first :: _ =>
          Some {| g_title := h_title first; g_date := h_date first;
                  g_authors := h_authors first;
                  g_abstract := h_abstract first;
                  g_keywords := h_keywords first;
                  g_category := h_category first;
                  g_contents := map h_content same;
                  g_score := h_score first |}
      end
  end.

(** A group with one more content. *)
Definition with_content (g : group) (content : option pystr) : group :=
  {| g_title := g_title g; g_date := g_date g;
     g_authors := g_authors g; g_abstract := g_abstract g;
     g_keywords := g_keywords g; g_category := g_category g;
     g_contents := g_contents g ++ [content];
     g_score := g_score g |}.

(** A folder with a text file on top and a document two levels down. *)
Definition sample_folder : folder :=
  Folder [(u "readme.txt", None)]
    [(u "qg",
      Folder []
        [(u "e8",
          Folder [(u "a.json",
                   Some {| j_title := Some (u "T");
                           j_date := Some (u "2023-01-01");
                           j_authors := AuthorsList [u "A"; u "B"];
                           j_abstract := None;
                           j_latex_doc := Some (u "x") |});
                  (u "b.json", None)] [])])].

(** ** Harvest scenarios *)

Import Harvest.

(** An answer without error and without items. *)
Definition plain_response (payload : string) : response :=
  {| resp_error := None; resp_items := None;
     resp_nextPageToken := None; resp_payload := payload |}.

(** The error envelope of an exhausted quota. *)
Definition quota_response : response :=
  {| resp_error :=
       Some {| err_code := 403;
               err_message :=
                 "The request cannot be completed because you have exceeded your quota." |};
     resp_items := None;
     resp_nextPageToken := None;
     resp_payload := "" |}.

(** A last page of search results with the given videos. *)
Definition last_page (video_ids : list string) : response :=
  {| resp_error := None;
     resp_items :=
       Some (map (fun v => {| item_kind := "youtube#video";
                              item_videoId := v |}) video_ids);
     resp_nextPageToken := None;
     resp_payload := "" |}.

Definition channel (channel_id : string) (videos statistics : bool)
    : channel_record :=
  {| channelID := channel_id;
     fetched_videos := videos;
     fetched_statistics := statistics |}.

(** A first run: nothing on disk but the roster. *)
Definition fresh_world (roster : list channel_record) : world :=
  {| api_data_file := None;
     channels_file_json := roster;
     video_list_files := ∅;
     requests := [] |}.

(** A service that answers every request, with one video per channel. *)
Definition healthy (n : nat) (req : request) : response :=
  match req with
  | GetChannel c => plain_response c
  | SearchVideos c _ => last_page [String.append c "-v1"]
  | GetVideo v => plain_response v
  end.

(** A service whose quota is used up by the first [k] requests: from the
    request number [k] on, every endpoint answers with the quota error. *)
Definition quota_from (k : nat) (n : nat) (req : request) : response :=
  if (k <=? n)%nat then quota_response else healthy n req.

(** A service that reports no videos for channel A: the answer of the
    search endpoint has no [items]. *)
Definition no_videos_for_A (n : nat) (req : request) : response :=
  match req with
  | GetChannel c => plain_response c
  | SearchVideos c _ =>
      if String.eqb c "A" then plain_response "" 
      else last_page [String.append c "-v1"]
  | GetVideo v => plain_response v
  end.

(** The same with an empty [items] list for channel A. *)
Definition empty_items_for_A (n : nat) (req : request) : response :=
  match req with
  | GetChannel c => plain_response c
  | SearchVideos c _ =>
      if String.eqb c "A" then last_page []
      else last_page [String.append c "-v1"]
  | GetVideo v => plain_response v
  end.

(** Channel A has its statistics, channel B is untouched. *)
Definition world_A_statistics : world :=
  {| api_data_file :=
       Some {[ "A" := {| videos := [];
                         statistics := plain_response "A" |} ]};
     channels_file_json := [channel "A" false true; channel "B" false false];
     video_list_files := ∅;
     requests := [] |}.

(** What is left observable of a run: the outcome, the roster file, the
    cell of a channel in the data file, a video list file and the requests
    sent. *)
Definition observe {A : Type} (channel_id : string)
    (run : outcome A * world)
    : outcome A * list channel_record * option yt_api *
      option (option (list video_record)) * list request :=
  (fst run,
   channels_file_json (snd run),
   api_data_file (snd run) ≫= (fun df => df !! channel_id),
   video_list_files (snd run) !! channel_id,
   requests (snd run)).

(** The ids of the videos of a list that are still to be fetched. *)
Definition unfetched (channel_videos : list video_record) : list string :=
  map VideoID (List.filter (fun v => negb (fetched_video v)) channel_videos).

(** A request that concerns one of the given channels, or a video. *)
Definition about (channel_ids : list string) (req : request) : Prop :=
  match req with
  | GetChannel c => In c channel_ids
  | SearchVideos c _ => In c channel_ids
  | GetVideo _ => True
  end.

(** A channel with nothing left to fetch. *)
Definition complete (c : channel_record) : Prop :=
  fetched_videos c = true /\ fetched_statistics c = true.

(** A computation only appends requests that satisfy [P]. *)
Definition emits {A : Type} (P : request -> Prop) (m : M A) : Prop :=
  forall w, exists l,
    requests (snd (m w)) = requests w ++ l /\ Forall P l.

(** A resumed run: channel A has its statistics and a list of three videos
    of which the first is fetched. *)
Definition world_resumed : world :=
  {| api_data_file :=
       Some {[ "A" := {| videos := [Some (plain_response "v1")];
                         statistics := plain_response "A" |} ]};
     channels_file_json := [channel "A" false true];
     video_list_files :=
       {[ "A" := Some [ {| VideoID := "v1"; fetched_video := true |};
                        {| VideoID := "v2"; fetched_video := false |};
                        {| VideoID := "v3"; fetched_video := false |} ] ]};
     requests := [] |}.

(** The same behind a complete channel: channel Z is done, the run that
    harvested it was cut off after the first video of A. *)
Definition world_resumed_behind : world :=
  {| api_data_file :=
       Some {[ "Z" := {| videos := [Some (plain_response "Z-v1")];
                         statistics := plain_response "Z" |};
               "A" := {| videos := [Some (plain_response "v1")];
                         statistics := plain_response "A" |} ]};
     channels_file_json := [channel "Z" true true; channel "A" false true];
     video_list_files :=
       {[ "Z" := Some [ {| VideoID := "Z-v1"; fetched_video := true |} ];
          "A" := Some [ {| VideoID := "v1"; fetched_video := true |};
                        {| VideoID := "v2"; fetched_video := false |};
                        {| VideoID := "v3"; fetched_video := false |} ] ]};
     requests := [] |}.

(** ** Further statements *)

(** Two neighbours equal to [c]. *)
Fixpoint doubled (c : char) (s : pystr) : bool :=
  match s with
  | a :: t =>
      match t with
      | b :: _ => (a =? c) && (b =? c) || doubled c t
      | [] => false
      end
  | [] => false
  end.

(** The text of a field, [[]] when the key is absent. *)
Definition given (raw : option pystr) : pystr :=
  match raw with
  | Some v => v
  | None => []
  end.

(** A field that is present, not empty and within its cleaning
    threshold. *)
Definition below_threshold (raw : option pystr) (threshold : nat) : Prop :=
  given raw <> [] /\ (length (given raw) <= threshold)%nat.

(** The text that is split, when the call does not raise. *)
Definition cleaned_body {U : UnicodeDB} (content : option pystr)
    (partition_name : pystr) : result pystr :=
  if bool_decide (partition_name = u "notes")
  then Ok (clean_description content)
  else clean_latex content.

(** What is stored for a chunk. *)
Definition stored_chunk {U : UnicodeDB} (page_content : pystr) : pystr :=
  if (512 <? length page_content)%nat
  then clean_description (Some page_content)
  else page_content.

(** The number of chunk texts held by the groups. *)
Definition total_contents (d : groups) : nat :=
  list_sum (map (fun kg => length (g_contents (snd kg))) d).

(** ** What a run of the harvest may change *)

(** The same channel, with no flag taken back. *)
Definition flag_le (c c' : channel_record) : Prop :=
  channelID c' = channelID c /\
  (fetched_statistics c = true -> fetched_statistics c' = true) /\
  (fetched_videos c = true -> fetched_videos c' = true).

(** The same video, with its flag not taken back. *)
Definition video_le (v v' : video_record) : Prop :=
  VideoID v' = VideoID v /\
  (fetched_video v = true -> fetched_video v' = true).

(** The content of a list file and a later content of it. *)
Definition content_le (x x' : option (list video_record)) : Prop :=
  match x, x' with
  | Some l, Some l' => Forall2 video_le l l'
  | None, None => True
  | _, _ => False
  end.

(** The data file exists and has a column for the channel. *)
Definition has_column (w : world) (channel_id : string) : Prop :=
  exists df, api_data_file w = Some df /\ is_Some (df !! channel_id).

(** Every channel whose statistics flag is set has a column. *)
Definition consistent (w : world) : Prop :=
  forall c, In c (channels_file_json w) ->
    fetched_statistics c = true -> has_column w (channelID c).

(** No list file holds [null]. *)
Definition no_null_list (w : world) : Prop :=
  forall channel_id, video_list_files w !! channel_id <> Some None.

(** A search request for a channel that has no list file in [w]. *)
Definition searches_missing_list (w : world) (r : request) : Prop :=
  forall channel_id token,
    r = SearchVideos channel_id token ->
    video_list_files w !! channel_id = None.

(** A later state of the files [w]. *)
Record evolves (w w' : world) : Prop := {
  roster_le :
    Forall2 flag_le (channels_file_json w) (channels_file_json w');
  lists_le :
    forall channel_id x,
      video_list_files w !! channel_id = Some x ->
      exists x',
        video_list_files w' !! channel_id = Some x' /\ content_le x x';
  columns_le :
    forall channel_id, has_column w channel_id -> has_column w' channel_id;
  searches_le :
    exists sent,
      requests w' = requests w ++ sent /\
      Forall (searches_missing_list w) sent;
  consistent_le : consistent w -> consistent w';
  no_null_le : no_null_list w -> no_null_list w'
}.

(** From a state where [P] holds, [m] leaves a later state of the files,
    however it ends, and [Q] holds when it returns. *)
Definition triple {A : Type} (P : world -> Prop) (m : M A)
    (Q : A -> world -> Prop) : Prop :=
  forall w, P w ->
    evolves w (snd (m w)) /\
    forall a, fst (m w) = Returned a -> Q a (snd (m w)).

(** The in-memory frame and roster are what the files hold. *)
Definition in_step (df : dataset) (roster : list channel_record)
    (w : world) : Prop :=
  api_data_file w = Some df /\ channels_file_json w = roster.

(** The same, and no list file holds [null] in case [N]. *)
Definition in_visit (N : Prop) (df : dataset) (roster : list channel_record)
    (w : world) : Prop :=
  in_step df roster w /\ (N -> no_null_list w).

(** The list being walked is what the channel's list file holds. *)
Definition in_videos (df : dataset) (roster : list channel_record)
    (channel_id : string) (channel_videos : list video_record)
    (w : world) : Prop :=
  in_step df roster w /\
  video_list_files w !! channel_id = Some (Some channel_videos).

(** ** A service that lists and serves a channel *)

(** The video ids the listing takes from one page of results. *)
Definition video_ids_of (items : list search_item) : list string :=
  map item_videoId
    (List.filter
       (fun video => String.eqb (item_kind video) "youtube#video")
       items).

(** From the request number [n] on, the search endpoint answers the request
    for the page [token] of the channel with [items], and the requests for
    the following pages as [more] tells: each page carries the token of the
    next, the last carries none, and none reports an exhausted quota. *)
Fixpoint serves (api : nat -> request -> response) (channel_id : string)
    (n : nat) (token : option string) (items : list search_item)
    (more : list (string * list search_item)) {struct more} : Prop :=
  let data := api n (SearchVideos channel_id token) in
  quota_exceeded data = false /\
  resp_items data = Some items /\
  match more with
  | [] => resp_nextPageToken data = None
  | (next, items') :: more' =>
      resp_nextPageToken data = Some next /\
      serves api channel_id (S n) (Some next) items' more'
  end.

(** The video ids of all the pages, in order. *)
Definition listed_ids (items : list search_item)
    (more : list (string * list search_item)) : list string :=
  video_ids_of items ++
  concat (map (fun page => video_ids_of (snd page)) more).

(** The search requests that read all the pages. *)
Definition listing_requests (channel_id : string) (token : option string)
    (more : list (string * list search_item)) : list request :=
  SearchVideos channel_id token ::
  map (fun page => SearchVideos channel_id (Some (fst page))) more.

(** A list file as it is first written, and with every video fetched. *)
Definition listed (fetched : bool) (video_ids : list string)
    : list video_record :=
  map (fun video_id => {| VideoID := video_id; fetched_video := fetched |})
    video_ids.

(** The answers to the requests for the given videos, the first of which
    is the request number [n]. *)
Definition video_answers (api : nat -> request -> response) (n : nat)
    (video_ids : list string) : list (option response) :=
  imap (fun i video_id => Some (api (n + i)%nat (GetVideo video_id)))
    video_ids.

(** What a video loop returns and leaves against a service that never
    reports an exhausted quota for a video: every unfetched video is
    requested, stored in the cell and flagged. *)
Definition videos_loop_result (api : nat -> request -> response)
    (channel_id : string)
    (done todo : list video_record) (df : dataset) (cell : yt_api)
    (all_videos_feched : bool) (w : world)
    : outcome (dataset * list video_record * bool) * world :=
  let df' :=
    <[ channel_id :=
         {| videos :=
              videos cell ++
              video_answers api (length (requests w)) (unfetched todo);
            statistics := statistics cell |} ]> df in
  (Returned (df', done ++ map set_fetched_video todo, all_videos_feched),
   {| api_data_file := Some df';
      channels_file_json := channels_file_json w;
      video_list_files :=
        <[ channel_id := Some (done ++ map set_fetched_video todo) ]>
          (video_list_files w);
      requests := requests w ++ map GetVideo (unfetched todo) |}).

(** The files and requests after the visit of a channel that had nothing
    fetched, when the service lists it with the given pages and answers
    for every video. *)
Definition harvested (api : nat -> request -> response)
    (before after : list channel_record)
    (channel_id : string) (df : dataset) (items : list search_item)
    (more : list (string * list search_item)) (w : world) : world :=
  let n := length (requests w) in
  let video_ids := listed_ids items more in
  {| api_data_file :=
       Some (<[ channel_id :=
                  {| videos :=
                       video_answers api (n + 1 + S (length more))
                         video_ids;
                     statistics := api n (GetChannel channel_id) |} ]> df);
     channels_file_json := before ++ channel channel_id true true :: after;
     video_list_files :=
       <[ channel_id := Some (listed true video_ids) ]> (video_list_files w);
     requests :=
       requests w ++
       GetChannel channel_id ::
       listing_requests channel_id None more ++ map GetVideo video_ids |}.

(** The data frame after the statistics of the channels of [todo] that
    lack them were fetched, the first with the request number [n]. *)
Fixpoint with_statistics (api : nat -> request -> response) (n : nat)
    (todo : list channel_record) (df : dataset) : dataset :=
  match todo with
  | [] => df
  | c :: after =>
      if fetched_statistics c then with_statistics api n after df
      else
        with_statistics api (S n) after
          (<[ channelID c :=
                {| videos := [];
                   statistics := api n (GetChannel (channelID c)) |} ]> df)
  end.

(** The channel has a list file in which every video is flagged. *)
Definition fully_listed (w : world) (channel_id : string) : Prop :=
  exists channel_videos,
    video_list_files w !! channel_id = Some (Some channel_videos) /\
    Forall (fun video => fetched_video video = true) channel_videos.

(** A roster entry without flags, for a channel whose list file is fully
    flagged. *)
Definition regenerated (w : world) (c : channel_record) : Prop :=
  fetched_statistics c = false /\ fetched_videos c = false /\
  fully_listed w (channelID c).

(** The data frame and the files after the visit of a channel that had its
    statistics and a list file, when every video request is answered. *)
Definition resumed_frame (api : nat -> request -> response)
    (channel_id : string) (df : dataset) (cell : yt_api)
    (channel_videos : list video_record) (w : world) : dataset :=
  <[ channel_id :=
       {| videos :=
            videos cell ++
            video_answers api (length (requests w))
              (unfetched channel_videos);
          statistics := statistics cell |} ]> df.

Definition resumed (api : nat -> request -> response)
    (before after : list channel_record) (A : channel_record)
    (df : dataset) (cell : yt_api) (channel_videos : list video_record)
    (w : world) : world :=
  {| api_data_file :=
       Some (resumed_frame api (channelID A) df cell channel_videos w);
     channels_file_json := before ++ set_fetched_videos A :: after;
     video_list_files :=
       <[ channelID A := Some (map set_fetched_video channel_videos) ]>
         (video_list_files w);
     requests :=
       requests w ++ map GetVideo (unfetched channel_videos) |}.

(** ** Further scenarios *)

(** A service that lists every channel in two pages: the first holds a
    video and an item that is not a video, and the token of the second. *)
Definition paged (n : nat) (req : request) : response :=
  match req with
  | SearchVideos c None =>
      {| resp_error := None;
         resp_items :=
           Some [ {| item_kind := "youtube#video";
                     item_videoId := String.append c "-v1" |};
                  {| item_kind := "youtube#channel"; item_videoId := c |} ];
         resp_nextPageToken := Some "p2";
         resp_payload := "" |}
  | SearchVideos c (Some _) => last_page [String.append c "-v2"]
  | _ => healthy n req
  end.

(** A finished harvest of two channels with one video each. *)
Definition world_done : world :=
  {| api_data_file :=
       Some {[ "A" := {| videos := [Some (plain_response "A-v1")];
                         statistics := plain_response "A" |};
               "B" := {| videos := [Some (plain_response "B-v1")];
                         statistics := plain_response "B" |} ]};
     channels_file_json := [channel "A" true true; channel "B" true true];
     video_list_files :=
       {[ "A" := Some [ {| VideoID := "A-v1"; fetched_video := true |} ];
          "B" := Some [ {| VideoID := "B-v1"; fetched_video := true |} ] ]};
     requests := [] |}.

(** ** Order of the groups, and the two loops side by side *)

(** The distinct elements of a list in the order of their first
    occurrence; [seen] holds the elements met before. *)
Fixpoint first_occurrences (seen l : list (option pystr))
    : list (option pystr) :=
  match l with
  | [] => []
  | x :: l' =>
      if bool_decide (x ∈ seen) then first_occurrences seen l'
      else x :: first_occurrences (seen ++ [x]) l'
  end.

(** What [process_channels] would have ended with, read off a run of
    [fetch_youtube_data]: the same end and files, and the count of the
    channels processed. *)
Definition processed_of (run : outcome (Z * Z) * world)
    : outcome Z * world :=
  match run with
  | (Returned (channelsProcessed, _), w) => (Returned channelsProcessed, w)
  | (Raised e, w) => (Raised e, w)
  | (Diverged, w) => (Diverged, w)
  end.

(** * Properties *)

(** ** The matcher and [re.sub] *)

Section ReFacts.

Lemma match_at_cls (p : char -> bool) (c : char) (s : pystr) :
  match_at (Cls p) (c :: s) = if p c then Some 1%nat else None.
Proof.
  unfold match_at. cbn [run]. destruct (p c); [|reflexivity].
  f_equal. cbn [length]. lia.
Qed.

(** [re.sub] only copies characters of the text and of the replacement. *)
Lemma sub_from_Forall (P : char -> Prop) (r : regex) (repl : pystr) :
  Forall P repl ->
  forall s skip, Forall P s -> Forall P (sub_from r repl skip s).
Proof.
  intros Hrepl s. induction s as [|c s IH]; intros skip Hs; cbn [sub_from].
  - constructor.
  - inversion Hs as [|? ? Hc Hs']; subst.
    destruct skip as [|k]; [|apply IH; assumption].
    destruct (match_at r (c :: s)) as [[|k]|].
    + constructor; [assumption | apply IH; assumption].
    + apply Forall_app; split; [assumption | apply IH; assumption].
    + constructor; [assumption | apply IH; assumption].
Qed.

Lemma sub_Forall (P : char -> Prop) (r : regex) (repl s : pystr) :
  Forall P repl -> Forall P s -> Forall P (sub r repl s).
Proof. intros Hr Hs. apply sub_from_Forall; assumption. Qed.

(** Removing a one-character class leaves no character of the class. *)
Lemma sub_from_cls_removes (p : char -> bool) :
  forall s skip,
    Forall (fun c => p c = false) (sub_from (Cls p) [] skip s).
Proof.
  induction s as [|c s IH]; intros skip; cbn [sub_from].
  - constructor.
  - destruct skip as [|k]; [|apply IH].
    rewrite match_at_cls. destruct (p c) eqn:Hp.
    + cbn [app]. apply IH.
    + constructor; [assumption | apply IH].
Qed.

(** A greedy repetition whose continuation fails on every text of a
    tail-closed family fails on that family. *)
Lemma many_fails (Q : pystr -> Prop) (p : char -> bool)
    (k : pystr -> option pystr) :
  (forall c s, Q (c :: s) -> Q s) ->
  (forall s, Q s -> k s = None) ->
  forall s, Q s -> many p s k = None.
Proof.
  intros Htail Hk s. induction s as [|c s IH]; intros HQ; cbn [many].
  - apply Hk; assumption.
  - destruct (p c); [|apply Hk; assumption].
    rewrite IH by (eapply Htail; eassumption). apply Hk; assumption.
Qed.

Lemma at_least_fails (Q : pystr -> Prop) (p : char -> bool)
    (k : pystr -> option pystr) :
  (forall c s, Q (c :: s) -> Q s) ->
  (forall s, Q s -> k s = None) ->
  forall n s, Q s -> at_least n p s k = None.
Proof.
  intros Htail Hk n. induction n as [|n IH]; intros s HQ; cbn [at_least].
  - eapply many_fails; eassumption.
  - destruct s as [|c s]; [reflexivity|].
    destruct (p c); [|reflexivity]. apply IH. eapply Htail; eassumption.
Qed.

(** A text in which no position starts a match has no match at all. *)
Lemma search_none (r : regex) (Q : pystr -> Prop) :
  (forall c s, Q (c :: s) -> Q s) ->
  (forall s, Q s -> match_at r s = None) ->
  forall s, Q s -> search r s = false.
Proof.
  intros Htail Hm s. induction s as [|c s IH]; intros HQ; cbn [search];
    rewrite (Hm _ HQ); [reflexivity|].
  apply IH. eapply Htail; eassumption.
Qed.

End ReFacts.

(** ** Text cleaning *)

Section CleaningFacts.
Context {U : UnicodeDB}.

Lemma colon_free_tail (c : char) (s : pystr) :
  colon_free (c :: s) -> colon_free s.
Proof. intros H. inversion H; assumption. Qed.

Lemma lit_colon_none (s : pystr) :
  colon_free s -> lit (u ":") s = None.
Proof.
  intros H. change (u ":") with [colon]. destruct s as [|c s]; [reflexivity|].
  cbn [lit]. inversion H as [|? ? Hc _]; subst.
  destruct (N.eqb_spec colon c) as [Heq|]; [congruence | reflexivity].
Qed.

(** Both alternatives of the timestamp pattern need a colon. *)
Lemma timestamp_needs_colon (s : pystr) :
  colon_free s -> match_at timestamp_re s = None.
Proof.
  intros H. unfold match_at, timestamp_re. cbn [run].
  rewrite (at_least_fails colon_free) by
    (try exact colon_free_tail; try assumption;
     intros t Ht; rewrite lit_colon_none by assumption; reflexivity).
  rewrite (at_least_fails colon_free) by
    (try exact colon_free_tail; try assumption;
     intros t Ht; rewrite lit_colon_none by assumption; reflexivity).
  reflexivity.
Qed.

Lemma kept_char_not_colon (c : char) : kept_char c = true -> c <> colon.
Proof. intros H Heq. subst c. vm_compute in H. discriminate. Qed.

Lemma kept_newline : Forall (fun c => kept_char c = true) (u (String "010" "")).
Proof. repeat constructor. Qed.

Lemma kept_space : Forall (fun c => kept_char c = true) (u " ").
Proof. repeat constructor. Qed.

(** After the fourth pass only letters, digits, space, newline and the full
    stop are left, and the last two passes keep it so. *)
Lemma clean_description_kept (description : option pystr) :
  Forall (fun c => kept_char c = true) (clean_description description).
Proof.
  destruct description as [s|]; cbn [clean_description]; [|constructor].
  apply sub_Forall; [exact kept_space|].
  apply sub_Forall; [exact kept_newline|].
  unfold sub, special_re.
  eapply Forall_impl; [apply sub_from_cls_removes|].
  cbn beta. intros c Hc. apply negb_false_iff in Hc. exact Hc.
Qed.

End CleaningFacts.

(** ** The passes of plain-mode cleaning *)

Section PassFacts.
Context {U : UnicodeDB}.

Lemma span_le_length (p : char -> bool) (s : pystr) :
  (span p s <= length s)%nat.
Proof.
  induction s as [|c s IH]; cbn [span length]; [lia|].
  destruct (p c); lia.
Qed.

(** What is left behind a maximal run does not start with the class. *)
Lemma span_drop (p : char -> bool) (s : pystr) :
  span p (drop (span p s) s) = O.
Proof.
  induction s as [|c s IH]; cbn [span]; [reflexivity|].
  destruct (p c) eqn:Hp; cbn [drop span]; [exact IH|].
  rewrite Hp. reflexivity.
Qed.

Lemma many_Some (p : char -> bool) (s : pystr) :
  many p s Some = Some (drop (span p s) s).
Proof.
  induction s as [|c s IH]; cbn [many span]; [reflexivity|].
  destruct (p c); [rewrite IH|]; reflexivity.
Qed.

Lemma at_least_Some (n : nat) (p : char -> bool) :
  forall s,
    at_least n p s Some =
    if (n <=? span p s)%nat then Some (drop (span p s) s) else None.
Proof.
  induction n as [|n IH]; intros s; cbn [at_least].
  - apply many_Some.
  - destruct s as [|c s]; cbn [span]; [reflexivity|].
    destruct (p c); [|reflexivity]. rewrite IH. reflexivity.
Qed.

Lemma match_at_rep (n : nat) (p : char -> bool) (s : pystr) :
  match_at (Rep n p) s =
  if (n <=? span p s)%nat then Some (span p s) else None.
Proof.
  unfold match_at. cbn [run]. rewrite at_least_Some.
  destruct (n <=? span p s)%nat; [|reflexivity].
  f_equal. rewrite length_drop. pose proof (span_le_length p s). lia.
Qed.

(** Dropping the rest of a match is resuming behind it. *)
Lemma sub_from_drop (r : regex) (repl : pystr) :
  forall s skip, sub_from r repl skip s = sub_from r repl O (drop skip s).
Proof.
  induction s as [|c s IH]; intros skip.
  - destruct skip; reflexivity.
  - destruct skip as [|k]; [reflexivity|]. cbn [sub_from drop]. apply IH.
Qed.

(** After the removal of the runs of at least [n] characters of a class no
    run of [n] is left: a removed run is maximal, so what comes before and
    what comes behind it are not joined. *)
Lemma sub_rep_spans (n : nat) (p : char -> bool) :
  (1 <= n)%nat ->
  forall m s,
    (length s <= m)%nat ->
    search (Rep n p) (sub_from (Rep n p) [] O s) = false /\
    ((span p s < n)%nat ->
     span p (sub_from (Rep n p) [] O s) = span p s).
Proof.
  intros Hn. induction m as [|m IH]; intros s Hlen.
  - destruct s; [|cbn [length] in Hlen; lia].
    cbn [sub_from search]. rewrite match_at_rep. cbn [span].
    destruct (Nat.leb_spec n 0); [lia|]. split; reflexivity.
  - destruct s as [|c s].
    { cbn [sub_from search]. rewrite match_at_rep. cbn [span].
      destruct (Nat.leb_spec n 0); [lia|]. split; reflexivity. }
    cbn [length] in Hlen. cbn [sub_from]. rewrite match_at_rep.
    destruct (Nat.leb_spec n (span p (c :: s))) as [Hrun|Hshort].
    + destruct (span p (c :: s)) as [|k] eqn:Hspan; [lia|].
      cbn [app]. rewrite sub_from_drop.
      change (drop k s) with (drop (S k) (c :: s)). rewrite <- Hspan.
      destruct (IH (drop (span p (c :: s)) (c :: s))) as [Hsearch _].
      { rewrite length_drop. cbn [length]. lia. }
      split; [exact Hsearch | lia].
    + destruct (IH s) as [Hsearch Hsame]; [lia|].
      assert (Hspan : span p (c :: sub_from (Rep n p) [] O s) =
                      span p (c :: s)).
      { cbn [span] in *. destruct (p c); [|reflexivity].
        rewrite Hsame by lia. reflexivity. }
      split; [|intros _; exact Hspan].
      cbn [search]. rewrite match_at_rep, Hspan.
      destruct (Nat.leb_spec n (span p (c :: s))); [lia|]. exact Hsearch.
Qed.

Lemma sub_rep_no_match (n : nat) (p : char -> bool) (s : pystr) :
  (1 <= n)%nat -> search (Rep n p) (sub (Rep n p) [] s) = false.
Proof.
  intros Hn. unfold sub.
  apply (sub_rep_spans n p Hn (length s) s). lia.
Qed.

(** The URL pattern matches where the first five characters start a URL
    token, and the match runs to the next white space. *)
Lemma match_at_url (s : pystr) :
  match_at url_re s =
  if url_start s then Some (4 + span non_space (drop 4 s))%nat else None.
Proof.
  unfold match_at, url_re.
  change (u "http") with [104; 116; 116; 112].
  change (u "www") with [119; 119; 119].
  destruct s as [|c1 [|c2 [|c3 [|c4 [|c5 s]]]]]; unfold url_start;
    cbn [run lit];
    repeat match goal with
      | |- context [N.eqb ?a ?b] =>
          destruct (N.eqb_spec a b); [subst|]; cbn [run lit andb orb]
      end; try reflexivity; try congruence.
  all: try rewrite !at_least_Some.
  all: cbn [span drop length].
  all: try destruct (any_char c4); try destruct (non_space c5);
    cbn [Nat.leb andb orb drop]; try reflexivity.
  all: f_equal; rewrite length_drop; pose proof (span_le_length non_space s);
    lia.
Qed.

Lemma url_start_inv (s : pystr) :
  url_start s = true ->
  exists c1 c2 c3 c4 c5 rest,
    s = c1 :: c2 :: c3 :: c4 :: c5 :: rest /\
    ((c1 = 104 /\ c2 = 116 /\ c3 = 116 /\ c4 = 112) \/
     (c1 = 119 /\ c2 = 119 /\ c3 = 119 /\ any_char c4 = true)) /\
    non_space c5 = true.
Proof.
  destruct s as [|c1 [|c2 [|c3 [|c4 [|c5 rest]]]]]; cbn [url_start];
    try discriminate.
  intros H. exists c1, c2, c3, c4, c5, rest. split; [reflexivity|].
  apply orb_true_iff in H as [H|H];
    repeat (apply andb_true_iff in H as [H ?]);
    repeat match goal with
      | E : N.eqb _ _ = true |- _ => apply N.eqb_eq in E; symmetry in E
      end; auto 10.
Qed.

(** White space is none of the letters a URL token starts with. *)
Lemma space_not_letter (w : char) :
  non_space w = false -> w <> 104 /\ w <> 116 /\ w <> 112 /\ w <> 119.
Proof.
  intros Hw. repeat split; intros ->; vm_compute in Hw; discriminate.
Qed.

Lemma url_start_space (w : char) (s : pystr) :
  non_space w = false -> url_start (w :: s) = false.
Proof.
  intros Hw. destruct (url_start (w :: s)) eqn:H; [|reflexivity].
  apply url_start_inv in H as (c1 & c2 & c3 & c4 & c5 & rest & E & Hc & _).
  injection E as -> _. apply space_not_letter in Hw.
  destruct Hc as [[-> _]|[-> _]]; tauto.
Qed.

(** What the URL pass leaves behind a removed token is empty or starts
    with white space. *)
Lemma after_url_match (s : pystr) :
  let t := drop (4 + span non_space (drop 4 s)) s in
  t = [] \/ exists w t', t = w :: t' /\ non_space w = false.
Proof.
  cbn zeta. rewrite <- drop_drop.
  pose proof (span_drop non_space (drop 4 s)) as H.
  destruct (drop (span non_space (drop 4 s)) (drop 4 s)) as [|w t'];
    [left; reflexivity|].
  right. exists w, t'. split; [reflexivity|].
  cbn [span] in H. destruct (non_space w); [discriminate | reflexivity].
Qed.

(** A URL token in the text after the pass, read from up to four
    characters before a position, was a URL token before the pass. *)
Lemma url_start_sub (m : nat) :
  forall s a,
    (length s <= m)%nat ->
    (length a <= 4)%nat ->
    url_start (a ++ sub_from url_re [] O s) = true ->
    url_start (a ++ s) = true.
Proof.
  induction m as [|m IH]; intros s a Hlen Ha H.
  { destruct s; [exact H | cbn [length] in Hlen; lia]. }
  destruct s as [|d s]; [exact H|]. cbn [length] in Hlen.
  cbn [sub_from] in H. rewrite match_at_url in H.
  destruct (url_start (d :: s)) eqn:Hd.
  - cbn [Nat.add app] in H. rewrite sub_from_drop in H.
    change (drop (S (S (S (span non_space (drop 4 (d :: s)))))) s)
      with (drop (4 + span non_space (drop 4 (d :: s))) (d :: s)) in H.
    destruct (after_url_match (d :: s)) as [Ht|(w & t' & Ht & Hw)];
      rewrite Ht in H.
    + cbn [sub_from] in H. rewrite app_nil_r in H.
      apply url_start_inv in H as (? & ? & ? & ? & ? & ? & E & _).
      subst a. cbn [length] in Ha. lia.
    + cbn [sub_from] in H. rewrite match_at_url in H.
      rewrite (url_start_space w t' Hw) in H.
      apply url_start_inv in H
        as (c1 & c2 & c3 & c4 & c5 & rest & E & Hc & H5).
      apply url_start_inv in Hd
        as (d1 & d2 & d3 & d4 & d5 & drest & Ed & Hdc & _).
      injection Ed as -> ->.
      apply space_not_letter in Hw as Hnot.
      destruct a as [|a1 [|a2 [|a3 [|a4 [|a5 a]]]]];
        cbn [length] in Ha; try lia; cbn [app] in E |- *;
        injection E; intros; subst.
      * destruct Hc as [[? _]|[? _]]; tauto.
      * destruct Hc as [(_ & ? & _)|(_ & ? & _)]; tauto.
      * destruct Hc as [(_ & _ & ? & _)|(_ & _ & ? & _)]; tauto.
      * destruct Hc as [(_ & _ & _ & ?)|(-> & -> & -> & _)]; [tauto|].
        destruct Hdc as [(-> & -> & _)|(-> & -> & _)]; reflexivity.
      * rewrite H5 in Hw. discriminate.
  - destruct (Nat.eq_dec (length a) 4%nat) as [H4|H4].
    + destruct a as [|a1 [|a2 [|a3 [|a4 [|a5 a]]]]];
        cbn [length] in H4; try lia. exact H.
    + rewrite cons_middle, app_assoc in H |- *.
      apply (IH s (a ++ [d])); [lia | rewrite length_app; cbn; lia | exact H].
Qed.

(** The text the URL pass hands on contains no URL token. *)
Lemma sub_url_no_match_upto (m : nat) :
  forall s,
    (length s <= m)%nat ->
    search url_re (sub_from url_re [] O s) = false.
Proof.
  induction m as [|m IH]; intros s Hlen.
  { destruct s; [|cbn [length] in Hlen; lia].
    cbn [sub_from search]. rewrite match_at_url. reflexivity. }
  destruct s as [|d s].
  { cbn [sub_from search]. rewrite match_at_url. reflexivity. }
  cbn [length] in Hlen. cbn [sub_from]. rewrite match_at_url.
  destruct (url_start (d :: s)) eqn:Hd.
  - cbn [Nat.add app]. rewrite sub_from_drop. apply IH.
    rewrite length_drop. lia.
  - cbn [search]. rewrite match_at_url.
    destruct (url_start (d :: sub_from url_re [] O s)) eqn:H2.
    + apply (url_start_sub (length s) s [d]) in H2;
        [|lia | cbn; lia].
      cbn [app] in H2. congruence.
    + apply IH. lia.
Qed.

Lemma sub_url_no_match (s : pystr) :
  search url_re (sub url_re [] s) = false.
Proof. apply (sub_url_no_match_upto (length s)). lia. Qed.

End PassFacts.

(** C8 (plain mode and markup mode on a missing text): [clean_description]
    answers the empty string, [clean_latex] has no such test and raises
    [TypeError]. *)
Theorem clean_latex_missing_text_raises (U : UnicodeDB) :
  clean_description None = [] /\ clean_latex None = Raise TypeError.
Proof. split; reflexivity. Qed.

(** C6, as stated, fails: the text [h!ttpx] has no URL token when the URL
    pass runs; the fourth pass deletes the exclamation mark and leaves
    [httpx], which the URL pattern matches. *)
Lemma plain_output_clean_fails :
  ~ (forall (U : UnicodeDB) (s : pystr), plain_output_clean s).
Proof.
  intros H. destruct (H ascii_db (u "h!ttpx")) as [Hurl _].
  vm_compute in Hurl. discriminate.
Qed.

(** In the same way the deletion of a tab joins two runs of twenty letters
    into one of forty. *)
Lemma long_run_survives (U : UnicodeDB) :
  clean_description (Some two_runs) = replicate 40 97 /\
  search long_run_re (clean_description (Some two_runs)) = true.
Proof. split; vm_compute; reflexivity. Qed.

(** C6, amended: for every text, plain-mode cleaning is the URL pass, the
    timestamp pass and the long-run pass followed by the three remaining
    passes; the text that its URL pass hands on contains no URL token, the
    text that its long-run pass hands on contains no run of 30 or more
    characters without white space, and its output contains no match of the
    timestamp pattern (H:MM:SS or MM:SS) and no character outside
    [[A-Za-z0-9 \n.]]. *)
Theorem clean_description_output (U : UnicodeDB) (s : pystr) :
  let no_urls := sub url_re [] s in
  let no_timestamps := sub timestamp_re [] no_urls in
  let no_long_runs := sub long_run_re [] no_timestamps in
  let out := clean_description (Some s) in
  out =
    sub spaces_re (u " ")
      (sub newlines_re (u (String "010" ""))
         (sub special_re [] no_long_runs)) /\
  search url_re no_urls = false /\
  search long_run_re no_long_runs = false /\
  search timestamp_re out = false /\
  Forall (fun c => kept_char c = true) out.
Proof.
  cbn zeta. pose proof (clean_description_kept (Some s)) as Hkept.
  split; [reflexivity|].
  split; [apply sub_url_no_match|].
  split; [apply sub_rep_no_match; lia|].
  split; [|exact Hkept].
  apply (search_none timestamp_re colon_free).
  - exact colon_free_tail.
  - exact timestamp_needs_colon.
  - eapply Forall_impl; [exact Hkept|]. exact kept_char_not_colon.
Qed.

(** ** Ingestion *)

Section IngestionFacts.
Context {U : UnicodeDB} {vector : Type}.
Variable encode_normalized : pystr -> vector.
Variable splitter : nat -> nat -> pystr -> list pystr.
Variable sha256_hexdigest : pystr -> pystr.

(** Whatever the optional cleaning does, the slice ends the stanza. *)
Lemma field_value_length (raw : option pystr) (threshold bound : nat) :
  (length (field_value raw threshold bound) <= bound)%nat.
Proof. unfold field_value. rewrite length_take. lia. Qed.

Lemma process_and_insert_documents_rows (entry : entry)
    (partition_name : pystr) (rows : list (index_record vector)) :
  process_and_insert_documents encode_normalized splitter sha256_hexdigest
    entry partition_name = Ok rows ->
  Forall (fun r =>
            r_title r = field_value (e_title entry) 1000 900 /\
            r_date r = field_value (e_date entry) 1000 250 /\
            r_authors r = field_value (e_authors entry) 1000 1000 /\
            r_abstract r = field_value (e_abstract entry) 4000 4000 /\
            r_keywords r = field_value (e_keywords entry) 1000 1004 /\
            r_category r = field_value (e_category entry) 1000 250) rows.
Proof.
  unfold process_and_insert_documents.
  destruct (if bool_decide (partition_name = u "notes")
            then Ok (clean_description (e_content entry))
            else clean_latex (e_content entry)) as [content|e];
    [|discriminate].
  intros [= <-]. apply List.Forall_forall. intros r Hr.
  apply in_map_iff in Hr as [chunk [<- _]]. cbn. repeat split.
Qed.

End IngestionFacts.

(** C2, as stated, fails: keywords of 1004 characters that cleaning leaves
    unchanged are stored whole, since the slice of the keywords is
    [[:1004]]. *)
Lemma keywords_bound_1000_fails :
  ~ (forall (U : UnicodeDB) (vector : Type) (encode : pystr -> vector)
       (splitter : nat -> nat -> pystr -> list pystr)
       (sha : pystr -> pystr) (entry : entry) (partition_name : pystr)
       (rows : list (index_record vector)),
       process_and_insert_documents encode splitter sha entry
         partition_name = Ok rows ->
       Forall (within_bounds 1000) rows).
Proof.
  intros H.
  pose proof (H ascii_db unit (fun _ => tt) one_chunk (fun s => s)
                entry_long_keywords (u "papers") _ eq_refl) as Hrows.
  apply Forall_inv in Hrows.
  destruct Hrows as (_ & _ & _ & _ & Hk & _).
  vm_compute in Hk. lia.
Qed.

(** C2, amended: every row that [process_and_insert_documents] hands to the
    index has a title of at most 900 characters, a date of at most 250,
    authors of at most 1000, an abstract of at most 4000, keywords of at
    most 1004 and a category of at most 250, for every document. *)
Theorem index_record_fields_bounded (U : UnicodeDB) (vector : Type)
    (encode_normalized : pystr -> vector)
    (splitter : nat -> nat -> pystr -> list pystr)
    (sha256_hexdigest : pystr -> pystr)
    (entry : entry) (partition_name : pystr)
    (rows : list (index_record vector)) :
  process_and_insert_documents encode_normalized splitter sha256_hexdigest
    entry partition_name = Ok rows ->
  Forall (within_bounds 1004) rows.
Proof.
  intros Hrun.
  eapply Forall_impl;
    [exact (process_and_insert_documents_rows _ _ _ _ _ _ Hrun)|].
  cbn beta. intros r (Ht & Hd & Ha & Hab & Hk & Hc).
  unfold within_bounds. rewrite Ht, Hd, Ha, Hab, Hk, Hc.
  repeat split; apply field_value_length.
Qed.

Lemma index_record_fields_bounded_witness :
  exists rows,
    process_and_insert_documents (U := ascii_db) (fun _ => tt) one_chunk
      (fun s => s) entry_long_keywords (u "papers") = Ok rows /\
    rows <> [] /\
    Forall (within_bounds 1004) rows.
Proof.
  eexists. split; [vm_compute; reflexivity|]. split; [discriminate|].
  apply (index_record_fields_bounded ascii_db unit (fun _ => tt) one_chunk
           (fun s => s) entry_long_keywords (u "papers")).
  vm_compute. reflexivity.
Defined.

(** ** Grouping of search hits *)

Section GroupingFacts.

Lemma dict_get_app_new (d k : option pystr) (g : group) (acc : groups) :
  dict_get d (acc ++ [(k, g)]) =
  match dict_get d acc with
  | Some g' => Some g'
  | None => if bool_decide (k = d) then Some g else None
  end.
Proof.
  induction acc as [|[k' g'] acc IH]; cbn [dict_get app].
  - reflexivity.
  - destruct (bool_decide (k' = d)); [reflexivity | exact IH].
Qed.

Lemma dict_get_append_content (d k : option pystr) (content : option pystr)
    (acc : groups) :
  dict_get d (append_content k content acc) =
  match dict_get d acc with
  | Some g => Some (if bool_decide (k = d) then with_content g content else g)
  | None => None
  end.
Proof.
  induction acc as [|[k' g'] acc IH]; cbn [dict_get append_content].
  - reflexivity.
  - destruct (bool_decide (k' = k)) eqn:Hk'; cbn [dict_get].
    + apply bool_decide_eq_true in Hk'. subst k'.
      destruct (bool_decide (k = d)); [reflexivity|].
      destruct (dict_get d acc); reflexivity.
    + destruct (bool_decide (k' = d)) eqn:Hd.
      * apply bool_decide_eq_true in Hd. subst k'.
        apply bool_decide_eq_false in Hk'.
        rewrite bool_decide_eq_false_2 by congruence. reflexivity.
      * exact IH.
Qed.

Lemma dict_get_add_hit (d : option pystr) (acc : groups) (h : hit) :
  dict_get d (add_hit acc h) =
  if bool_decide (h_documentId h = d)
  then extend_group (dict_get d acc) [h]
  else dict_get d acc.
Proof.
  unfold add_hit.
  destruct (dict_get (h_documentId h) acc) as [g|] eqn:Hget.
  - rewrite dict_get_append_content.
    destruct (bool_decide (h_documentId h = d)) eqn:Hd;
      [|destruct (dict_get d acc); reflexivity].
    apply bool_decide_eq_true in Hd. subst d. rewrite Hget. reflexivity.
  - rewrite dict_get_app_new.
    destruct (bool_decide (h_documentId h = d)) eqn:Hd.
    + apply bool_decide_eq_true in Hd. subst d. rewrite Hget. reflexivity.
    + destruct (dict_get d acc); reflexivity.
Qed.

Lemma extend_group_app (g0 : option group) (h : hit) (same : list hit) :
  extend_group (extend_group g0 [h]) same = extend_group g0 (h :: same).
Proof.
  destruct g0 as [g|]; cbn [extend_group map app g_title g_date g_authors
    g_abstract g_keywords g_category g_contents g_score].
  - rewrite <- app_assoc. reflexivity.
  - reflexivity.
Qed.

Lemma dict_get_fold (d : option pystr) (results : list hit) :
  forall acc,
    dict_get d (fold_left add_hit results acc) =
    extend_group (dict_get d acc) (hits_of d results).
Proof.
  induction results as [|h results IH]; intros acc; cbn [fold_left].
  - unfold hits_of. cbn [List.filter].
    destruct (dict_get d acc) as [g|]; cbn [extend_group map];
      [|reflexivity].
    rewrite app_nil_r. destruct g; reflexivity.
  - rewrite IH, dict_get_add_hit. unfold hits_of. cbn [List.filter].
    destruct (bool_decide (h_documentId h = d)); [|reflexivity].
    apply extend_group_app.
Qed.

End GroupingFacts.

(** C5: for every list of hits and every document id, the group that
    [group_by_document_id] returns for the id has the metadata and the
    score of the first hit with that id, and its contents are the contents
    of all the hits with that id, one per hit, in encounter order; an id
    that no hit carries has no group. *)
Theorem group_by_document_id_first_hit (results : list hit)
    (d : option pystr) :
  dict_get d (group_by_document_id results) =
  match hits_of d results with
  | [] => None
  | first :: _ =>
      Some {| g_title := h_title first; g_date := h_date first;
              g_authors := h_authors first; g_abstract := h_abstract first;
              g_keywords := h_keywords first;
              g_category := h_category first;
              g_contents := map h_content (hits_of d results);
              g_score := h_score first |}
  end.
Proof.
  unfold group_by_document_id. rewrite dict_get_fold. cbn [dict_get].
  unfold extend_group. destruct (hits_of d results); reflexivity.
Qed.

(** ** Loading a document *)

Section LoadingFacts.

Lemma scan_files_first (root category : pystr)
    (files : list (pystr * option json_data)) :
  scan_files root category files =
  match List.filter (fun fc => endswith (fst fc) (u ".json")) files with
  | [] => None
  | fc :: _ =>
      Some match load_entry category (snd fc) with
           | Ok entry => Ok (entry, path_join root (fst fc))
           | Raise e => Raise e
           end
  end.
Proof.
  induction files as [|[file content] files IH];
    cbn [scan_files List.filter fst snd]; [reflexivity|].
  destruct (endswith file (u ".json")); [reflexivity | exact IH].
Qed.

Lemma scan_folders_first
    (w : list (pystr * list pystr * list (pystr * option json_data))) :
  scan_folders w =
  match json_files w with
  | [] => Ok None
  | (root, rel, file, content) :: _ =>
      match load_entry (category_of root rel) content with
      | Ok entry => Ok (Some (entry, path_join root file))
      | Raise e => Raise e
      end
  end.
Proof.
  induction w as [|[[root rel] files] w IH];
    cbn [scan_folders json_files flat_map]; [reflexivity|].
  rewrite scan_files_first.
  destruct (List.filter (fun fc => endswith (fst fc) (u ".json")) files)
    as [|[file content] rest]; cbn [map app fst snd].
  - exact IH.
  - destruct (load_entry (category_of root rel) content); reflexivity.
Qed.

End LoadingFacts.

(** C10: for every folder, [process_file_from_folder] answers from one file
    only, the first one whose name ends in [.json] in the order of the
    walk: its parsed entry, with the category of its folder, and its path;
    it answers [(None, None)] when no name ends in [.json]; and the entry
    of a file with a list of authors has them joined by a comma and a
    space. *)
Theorem process_file_from_folder_first_json (folder_path : pystr)
    (t : folder) :
  process_file_from_folder folder_path t =
  match json_files (walk folder_path [] t) with
  | [] => Ok None
  | (root, rel, file, content) :: _ =>
      match load_entry (category_of root rel) content with
      | Ok entry => Ok (Some (entry, path_join root file))
      | Raise e => Raise e
      end
  end /\
  forall (category : pystr) (data : json_data) (names : list pystr),
    j_authors data = AuthorsList names ->
    load_entry category (Some data) =
    Ok {| e_title := j_title data;
          e_date := j_date data;
          e_authors := Some (str_join (u ", ") names);
          e_abstract := j_abstract data;
          e_keywords := None;
          e_category := Some category;
          e_content := j_latex_doc data |}.
Proof.
  split.
  - unfold process_file_from_folder. apply scan_folders_first.
  - intros category data names Ha. unfold load_entry. rewrite Ha.
    reflexivity.
Qed.

Lemma process_file_from_folder_first_json_witness :
  process_file_from_folder (u "docs/papers") sample_folder =
  Ok (Some ({| e_title := Some (u "T");
               e_date := Some (u "2023-01-01");
               e_authors := Some (u "A, B");
               e_abstract := None;
               e_keywords := None;
               e_category := Some (u "qg_e8");
               e_content := Some (u "x") |},
            u "docs/papers/qg/e8/a.json")) /\
  load_entry (u "qg_e8")
    (Some {| j_title := None; j_date := None;
             j_authors := AuthorsList [u "A"; u "B"];
             j_abstract := None; j_latex_doc := None |}) =
  Ok {| e_title := None; e_date := None;
        e_authors := Some (str_join (u ", ") [u "A"; u "B"]);
        e_abstract := None; e_keywords := None;
        e_category := Some (u "qg_e8"); e_content := None |}.
Proof.
  destruct (process_file_from_folder_first_json (u "docs/papers")
              sample_folder) as [Hrun Hload].
  split.
  - rewrite Hrun. vm_compute. reflexivity.
  - apply (Hload (u "qg_e8")
             {| j_title := None; j_date := None;
                j_authors := AuthorsList [u "A"; u "B"];
                j_abstract := None; j_latex_doc := None |}
             [u "A"; u "B"]).
    reflexivity.
Defined.

(** ** The harvest loop on the scenarios *)

(** C1 (quota exhaustion met by the statistics request): on a first run
    over channels A and B with a quota that lasts for three requests, the
    fourth request, the statistics of B, is answered with the quota error.
    [get_channel_statistics] does not look at the answer: both loops store
    the error envelope as the statistics of B, persist
    [fetched_statistics = true] for B and send a fifth request; only that
    one, on a guarded endpoint, ends the run. *)
Theorem quota_on_statistics_goes_unnoticed :
  observe "B"
    (process_channels (quota_from 3) 3 5
       (fresh_world [channel "A" false false; channel "B" false false])) =
  (Raised (Exception
     "Quota exceeded get channel list. Please try again later."),
   [channel "A" true true; channel "B" false true],
   Some {| videos := []; statistics := quota_response |},
   None,
   [GetChannel "A"; SearchVideos "A" None; GetVideo "A-v1";
    GetChannel "B"; SearchVideos "B" None]) /\
  observe "B"
    (fetch_youtube_data (quota_from 3) 3 5 true
       (fresh_world [channel "A" false false; channel "B" false false])) =
  (Raised (Exception
     "Quota exceeded get channel list. Please try again later."),
   [channel "A" true true; channel "B" false true],
   Some {| videos := []; statistics := quota_response |},
   None,
   [GetChannel "A"; SearchVideos "A" None; GetVideo "A-v1";
    GetChannel "B"; SearchVideos "B" None]).
Proof. split; vm_compute; reflexivity. Qed.

(** When the quota error meets a guarded endpoint, here the third request,
    the details of a video, the run ends there and what is on disk is what
    the first two requests brought: the statistics of A with its flag, and
    the video list of A with the flag of the video still unset. *)
Lemma quota_on_video_request_halts :
  observe "A"
    (process_channels (quota_from 2) 3 5
       (fresh_world [channel "A" false false; channel "B" false false])) =
  (Raised (Exception
     "Quota exceeded get channel video. Please try again later."),
   [channel "A" false true; channel "B" false false],
   Some {| videos := []; statistics := plain_response "A" |},
   Some (Some [ {| VideoID := "A-v1"; fetched_video := false |} ]),
   [GetChannel "A"; SearchVideos "A" None; GetVideo "A-v1"]).
Proof. vm_compute. reflexivity. Qed.

(** With video processing switched off, [fetch_youtube_data] sends
    statistics requests only, and an exhausted quota never ends the run. *)
Lemma quota_without_video_processing :
  observe "B"
    (fetch_youtube_data (quota_from 1) 3 5 false
       (fresh_world [channel "A" false false; channel "B" false false])) =
  (Returned (0%Z, 2%Z),
   [channel "A" false true; channel "B" false true],
   Some {| videos := []; statistics := quota_response |},
   None,
   [GetChannel "A"; GetChannel "B"]).
Proof. vm_compute. reflexivity. Qed.

(** C3 (the cap of [process_channels]): a channel with both flags set
    reaches [channels_processed += 1], so with a cap of one the run stops
    before channel B and sends no request; [fetch_youtube_data] on the same
    input does not count channel A and harvests channel B. *)
Theorem process_channels_counts_complete_channels :
  observe "B"
    (process_channels healthy 3 1
       (fresh_world [channel "A" true true; channel "B" false false])) =
  (Returned 1%Z,
   [channel "A" true true; channel "B" false false],
   None, None, []) /\
  observe "B"
    (fetch_youtube_data healthy 3 1 true
       (fresh_world [channel "A" true true; channel "B" false false])) =
  (Returned (1%Z, 2%Z),
   [channel "A" true true; channel "B" true true],
   Some {| videos := [Some (plain_response "B-v1")];
           statistics := plain_response "B" |},
   Some (Some [ {| VideoID := "B-v1"; fetched_video := true |} ]),
   [GetChannel "B"; SearchVideos "B" None; GetVideo "B-v1"]).
Proof. split; vm_compute; reflexivity. Qed.

(** C7 (a channel for which the service reports no videos):
    [get_channel_videos_list] returns [None], and
    [write_channel_video_list_to_file] iterates over it before the test
    [channel_videos is None] is reached: both loops end with [TypeError]
    after the search request, and channel B is never visited. *)
Theorem no_videos_raises_type_error :
  observe "B" (process_channels no_videos_for_A 3 5 world_A_statistics) =
  (Raised TypeError,
   [channel "A" false true; channel "B" false false],
   None, None, [SearchVideos "A" None]) /\
  observe "B"
    (fetch_youtube_data no_videos_for_A 3 5 true world_A_statistics) =
  (Raised TypeError,
   [channel "A" false true; channel "B" false false],
   None, None, [SearchVideos "A" None]).
Proof. split; vm_compute; reflexivity. Qed.

(** When the answer carries an empty [items] list instead, the channel is
    given an empty video list and marked as done. *)
Lemma empty_items_marks_channel_done :
  observe "A" (process_channels empty_items_for_A 3 1 world_A_statistics) =
  (Returned 1%Z,
   [channel "A" true true; channel "B" false false],
   Some {| videos := []; statistics := plain_response "A" |},
   Some (Some []),
   [SearchVideos "A" None]).
Proof. vm_compute. reflexivity. Qed.

(** ** The requests a computation sends *)

Create HintDb emits.

Section RequestFacts.
Variable api : nat -> request -> response.
Variable max_pages : nat.

Lemma emits_ret {A : Type} (P : request -> Prop) (a : A) : emits P (ret a).
Proof. intros w. exists []. rewrite app_nil_r. split; [reflexivity | constructor]. Qed.

Lemma emits_raise {A : Type} (P : request -> Prop) (e : exn) :
  emits P (@raise A e).
Proof. intros w. exists []. rewrite app_nil_r. split; [reflexivity | constructor]. Qed.

Lemma emits_diverge {A : Type} (P : request -> Prop) : emits P (@diverge A).
Proof. intros w. exists []. rewrite app_nil_r. split; [reflexivity | constructor]. Qed.

Lemma emits_bind {A B : Type} (P : request -> Prop) (m : M A)
    (k : A -> M B) :
  emits P m -> (forall a, emits P (k a)) -> emits P (bind m k).
Proof.
  intros Hm Hk w. unfold bind. destruct (Hm w) as [l [Hl HP]].
  destruct (m w) as [[a|e|] w1]; cbn [snd] in *.
  - destruct (Hk a w1) as [l2 [Hl2 HP2]]. exists (l ++ l2).
    rewrite Hl2, Hl, app_assoc. split; [reflexivity|].
    apply Forall_app; split; assumption.
  - exists l. split; assumption.
  - exists l. split; assumption.
Qed.

Lemma emits_mono {A : Type} (P Q : request -> Prop) (m : M A) :
  (forall r, P r -> Q r) -> emits P m -> emits Q m.
Proof.
  intros HPQ Hm w. destruct (Hm w) as [l [Hl HP]]. exists l.
  split; [assumption|]. eapply Forall_impl; eassumption.
Qed.

Lemma emits_send (P : request -> Prop) (req : request) :
  P req -> emits P (send api req).
Proof.
  intros HP w. exists [req]. cbn. split; [reflexivity|].
  constructor; [assumption | constructor].
Qed.

Lemma emits_write_api_data (P : request -> Prop) (df : dataset) :
  emits P (write_api_data df).
Proof. intros w. exists []. cbn. rewrite app_nil_r. split; [reflexivity | constructor]. Qed.

Lemma emits_write_channels (P : request -> Prop)
    (roster : list channel_record) :
  emits P (write_channels roster).
Proof. intros w. exists []. cbn. rewrite app_nil_r. split; [reflexivity | constructor]. Qed.

Lemma emits_write_video_list (P : request -> Prop) (channel_id : string)
    (content : option (list video_record)) :
  emits P (write_video_list channel_id content).
Proof. intros w. exists []. cbn. rewrite app_nil_r. split; [reflexivity | constructor]. Qed.

Lemma emits_video_list_exists (P : request -> Prop) (channel_id : string) :
  emits P (video_list_exists channel_id).
Proof. intros w. exists []. cbn. rewrite app_nil_r. split; [reflexivity | constructor]. Qed.

Lemma emits_read_video_list (P : request -> Prop) (channel_id : string) :
  emits P (read_video_list channel_id).
Proof.
  intros w. exists []. unfold read_video_list.
  destruct (video_list_files w !! channel_id); cbn; rewrite app_nil_r;
    (split; [reflexivity | constructor]).
Qed.

Lemma emits_load_api_data (P : request -> Prop) : emits P load_api_data.
Proof.
  intros w. exists []. unfold load_api_data.
  destruct (api_data_file w); cbn; rewrite app_nil_r;
    (split; [reflexivity | constructor]).
Qed.

Lemma emits_load_channels (P : request -> Prop) : emits P load_channels.
Proof. intros w. exists []. cbn. rewrite app_nil_r. split; [reflexivity | constructor]. Qed.

#[local] Hint Resolve emits_ret emits_raise emits_diverge emits_write_api_data
  emits_write_channels emits_write_video_list emits_video_list_exists
  emits_read_video_list emits_load_api_data emits_load_channels : emits.

Lemma emits_get_pages (P : request -> Prop) (channel_id : string)
    (fuel : nat) :
  (forall t, P (SearchVideos channel_id t)) ->
  forall pageToken video_ids,
    emits P (get_pages api fuel channel_id pageToken video_ids).
Proof.
  intros HP.
  induction fuel as [|fuel IH]; intros pageToken video_ids; cbn [get_pages].
  - apply emits_diverge.
  - apply emits_bind; [apply emits_send; apply HP|].
    intros data. destruct (quota_exceeded data); [apply emits_raise|].
    destruct (resp_items data) as [items|]; [|apply emits_ret].
    destruct (resp_nextPageToken data); [apply IH | apply emits_ret].
Qed.

Lemma emits_get_channel_video (P : request -> Prop) (video_id : string) :
  P (GetVideo video_id) -> emits P (get_channel_video api video_id).
Proof.
  intros HP. unfold get_channel_video.
  apply emits_bind; [apply emits_send; assumption|].
  intros data. destruct (quota_exceeded data); auto with emits.
Qed.

Lemma emits_store_video (P : request -> Prop) (channel_id : string)
    (done todo : list video_record) (video : video_record)
    (video_data : option response) (df : dataset) :
  emits P (store_video channel_id done todo video video_data df).
Proof.
  unfold store_video. destruct (df !! channel_id); [|apply emits_raise].
  apply emits_bind; [apply emits_write_api_data|]. intros _.
  apply emits_bind; [apply emits_write_video_list|]. intros _.
  apply emits_ret.
Qed.

Lemma emits_videos_loop_pc (P : request -> Prop) (channel_id : string)
    (todo : list video_record) :
  (forall v, P (GetVideo v)) ->
  forall done df all,
    emits P (videos_loop_pc api channel_id done todo df all).
Proof.
  intros HP. induction todo as [|video todo IH]; intros done df all;
    cbn [videos_loop_pc]; [apply emits_ret|].
  destruct (negb (fetched_video video)); [|apply IH].
  apply emits_bind; [apply emits_get_channel_video; apply HP|].
  intros [data|]; [|apply IH].
  apply emits_bind; [apply emits_store_video|]. intros [df' video']. apply IH.
Qed.

Lemma emits_videos_loop_fy (P : request -> Prop) (channel_id : string)
    (todo : list video_record) :
  (forall v, P (GetVideo v)) ->
  forall done df all,
    emits P (videos_loop_fy api channel_id done todo df all).
Proof.
  intros HP. induction todo as [|video todo IH]; intros done df all;
    cbn [videos_loop_fy]; [apply emits_ret|].
  destruct (negb (fetched_video video)); [|apply IH].
  apply emits_bind; [apply emits_get_channel_video; apply HP|].
  intros video_data.
  apply emits_bind; [apply emits_store_video|]. intros [df' video']. apply IH.
Qed.

Lemma emits_fetch_statistics (before after : list channel_record)
    (c : channel_record) (df : dataset) :
  emits (about [channelID c]) (fetch_statistics api before after c df).
Proof.
  unfold fetch_statistics, get_channel_statistics.
  apply emits_bind; [apply emits_send; cbn; left; reflexivity|]. intros st.
  apply emits_bind; [apply emits_write_api_data|]. intros _.
  apply emits_bind; [apply emits_write_channels|]. intros _.
  apply emits_ret.
Qed.

Lemma emits_load_channel_videos (P : request -> Prop)
    (channel_id : string) :
  (forall t, P (SearchVideos channel_id t)) ->
  emits P (load_channel_videos api max_pages channel_id).
Proof.
  intros HP. unfold load_channel_videos.
  apply emits_bind; [apply emits_video_list_exists|]. intros present.
  apply emits_bind; [|intros _; apply emits_read_video_list].
  destruct (negb present); [|apply emits_ret].
  apply emits_bind; [apply emits_get_pages; exact HP|].
  intros [ids|]; cbn [write_channel_video_list_to_file];
    [apply emits_write_video_list | apply emits_raise].
Qed.

Lemma about_search (channel_id : string) (t : option string) :
  about [channel_id] (SearchVideos channel_id t).
Proof. cbn. left. reflexivity. Qed.

Lemma emits_finish_videos (P : request -> Prop)
    (before after : list channel_record) (c : channel_record) (all : bool) :
  emits P (finish_videos before after c all).
Proof.
  unfold finish_videos. destruct all; [|apply emits_ret].
  apply emits_bind; [apply emits_write_channels|]. intros _. apply emits_ret.
Qed.

Lemma emits_visit_pc (before after : list channel_record)
    (c : channel_record) (df : dataset) :
  emits (about [channelID c]) (visit_pc api max_pages before after c df).
Proof.
  unfold visit_pc.
  apply emits_bind.
  { destruct (negb (fetched_statistics c));
      [apply emits_fetch_statistics | apply emits_ret]. }
  intros [df1 c1]. destruct (negb (fetched_videos c)); [|apply emits_ret].
  apply emits_bind; [apply emits_load_channel_videos; apply about_search|].
  intros [channel_videos|]; [|apply emits_ret].
  apply emits_bind; [apply emits_videos_loop_pc; intros v; exact I|].
  intros [[df2 vs] all].
  apply emits_bind; [apply emits_finish_videos|]. intros c2. apply emits_ret.
Qed.

Lemma emits_visit_fy (processVideo : bool)
    (before after : list channel_record) (c : channel_record)
    (df : dataset) :
  emits (about [channelID c])
    (visit_fy api max_pages processVideo before after c df).
Proof.
  unfold visit_fy.
  apply emits_bind.
  { destruct (negb (fetched_statistics c));
      [apply emits_fetch_statistics | apply emits_ret]. }
  intros [df1 c1]. destruct (negb processVideo); [apply emits_ret|].
  destruct (negb (fetched_videos c)); [|apply emits_ret].
  apply emits_bind; [apply emits_load_channel_videos; apply about_search|].
  intros [channel_videos|]; [|apply emits_ret].
  apply emits_bind; [apply emits_videos_loop_fy; intros v; exact I|].
  intros [[df2 vs] all].
  apply emits_bind; [apply emits_finish_videos|]. intros c2. apply emits_ret.
Qed.

Lemma about_head (c : string) (rest : list string) (r : request) :
  about [c] r -> about (c :: rest) r.
Proof. destruct r; cbn; tauto. Qed.

Lemma about_tail (c : string) (rest : list string) (r : request) :
  about rest r -> about (c :: rest) r.
Proof. destruct r; cbn; tauto. Qed.

(** Each loop only sends requests about the channels still to visit. *)
Lemma emits_loop_pc (max_channels : Z) (todo : list channel_record) :
  forall before df n,
    emits (about (map channelID todo))
      (loop_pc api max_pages max_channels before todo df n).
Proof.
  induction todo as [|c todo IH]; intros before df n; cbn [loop_pc map];
    [apply emits_ret|].
  destruct (max_channels <=? n)%Z; [apply emits_ret|].
  apply emits_bind.
  - eapply emits_mono; [apply about_head | apply emits_visit_pc].
  - intros [[df1 c1] counted].
    eapply emits_mono; [apply about_tail | apply IH].
Qed.

Lemma emits_loop_fy (maxChannels : Z) (processVideo : bool)
    (todo : list channel_record) :
  forall before df n l,
    emits (about (map channelID todo))
      (loop_fy api max_pages maxChannels processVideo before todo df n l).
Proof.
  induction todo as [|c todo IH]; intros before df n l; cbn [loop_fy map];
    [apply emits_ret|].
  destruct (maxChannels <=? n)%Z; [apply emits_ret|].
  apply emits_bind.
  - eapply emits_mono; [apply about_head | apply emits_visit_fy].
  - intros [[[df1 c1] processed] loaded].
    eapply emits_mono; [apply about_tail | apply IH].
Qed.

End RequestFacts.

(** ** Resuming a channel *)

Section ResumeFacts.
Variable api : nat -> request -> response.
Variable max_pages : nat.

(** What follows a computation only adds to the requests it sent. *)
Lemma bind_requests {A B : Type} (P : request -> Prop) (m : M A)
    (k : A -> M B) (w : world) :
  (forall a, emits P (k a)) ->
  exists l,
    requests (snd (bind m k w)) = requests (snd (m w)) ++ l /\ Forall P l.
Proof.
  intros Hk. unfold bind. destruct (m w) as [[a|e|] w1]; cbn [snd].
  - apply Hk.
  - exists []. rewrite app_nil_r. split; [reflexivity | constructor].
  - exists []. rewrite app_nil_r. split; [reflexivity | constructor].
Qed.

Lemma unfetched_cons (video : video_record) (todo : list video_record) :
  unfetched (video :: todo) =
  if fetched_video video then unfetched todo
  else VideoID video :: unfetched todo.
Proof. unfold unfetched. cbn [List.filter]. destruct (fetched_video video); reflexivity. Qed.

(** The video loop of [process_channels] asks for the unfetched videos of
    the list, in order, and for nothing else; it asks for all of them
    unless the service reports an exhausted quota. *)
Lemma videos_loop_pc_sent (channel_id : string) (todo : list video_record) :
  forall done df all w,
    is_Some (df !! channel_id) ->
    exists sent,
      requests (snd (videos_loop_pc api channel_id done todo df all w)) =
      requests w ++ sent /\
      sent `prefix_of` map GetVideo (unfetched todo) /\
      ((forall n v, quota_exceeded (api n (GetVideo v)) = false) ->
       sent = map GetVideo (unfetched todo)).
Proof.
  induction todo as [|video todo IH]; intros done df all w Hdf.
  - exists []. cbn. rewrite app_nil_r. repeat split. apply prefix_nil.
  - cbn [videos_loop_pc]. rewrite unfetched_cons.
    destruct (fetched_video video) eqn:Hflag; cbn [negb].
    + apply IH. assumption.
    + unfold bind at 1. unfold get_channel_video, bind, send. cbn [fst snd].
      destruct (quota_exceeded (api (length (requests w))
                                  (GetVideo (VideoID video)))) eqn:Hq.
      * exists [GetVideo (VideoID video)]. cbn. repeat split.
        -- eexists. reflexivity.
        -- intros Hno. rewrite Hno in Hq. discriminate.
      * cbn [ret]. unfold store_video. destruct Hdf as [cell Hcell].
        rewrite Hcell. unfold bind, write_api_data, write_video_list, ret.
        cbn [requests api_data_file channels_file_json video_list_files].
        match goal with
        | |- context [videos_loop_pc api channel_id ?d todo ?f all ?w1] =>
            destruct (IH d f all w1) as [sent [Hsent [Hpre Hall]]]
        end.
        { rewrite lookup_insert_eq. eexists. reflexivity. }
        exists (GetVideo (VideoID video) :: sent).
        rewrite Hsent. cbn [requests map]. rewrite <- app_assoc.
        repeat split.
        -- apply prefix_cons. assumption.
        -- intros Hno. rewrite (Hall Hno). reflexivity.
Qed.

(** The same for the video loop of [fetch_youtube_data]. *)
Lemma videos_loop_fy_sent (channel_id : string) (todo : list video_record) :
  forall done df all w,
    is_Some (df !! channel_id) ->
    exists sent,
      requests (snd (videos_loop_fy api channel_id done todo df all w)) =
      requests w ++ sent /\
      sent `prefix_of` map GetVideo (unfetched todo) /\
      ((forall n v, quota_exceeded (api n (GetVideo v)) = false) ->
       sent = map GetVideo (unfetched todo)).
Proof.
  induction todo as [|video todo IH]; intros done df all w Hdf.
  - exists []. cbn. rewrite app_nil_r. repeat split. apply prefix_nil.
  - cbn [videos_loop_fy]. rewrite unfetched_cons.
    destruct (fetched_video video) eqn:Hflag; cbn [negb].
    + apply IH. assumption.
    + unfold bind at 1. unfold get_channel_video, bind, send. cbn [fst snd].
      destruct (quota_exceeded (api (length (requests w))
                                  (GetVideo (VideoID video)))) eqn:Hq.
      * exists [GetVideo (VideoID video)]. cbn. repeat split.
        -- eexists. reflexivity.
        -- intros Hno. rewrite Hno in Hq. discriminate.
      * cbn [ret]. unfold store_video. destruct Hdf as [cell Hcell].
        rewrite Hcell. unfold bind, write_api_data, write_video_list, ret.
        cbn [requests api_data_file channels_file_json video_list_files].
        match goal with
        | |- context [videos_loop_fy api channel_id ?d todo ?f all ?w1] =>
            destruct (IH d f all w1) as [sent [Hsent [Hpre Hall]]]
        end.
        { rewrite lookup_insert_eq. eexists. reflexivity. }
        exists (GetVideo (VideoID video) :: sent).
        rewrite Hsent. cbn [requests map]. rewrite <- app_assoc.
        repeat split.
        -- apply prefix_cons. assumption.
        -- intros Hno. rewrite (Hall Hno). reflexivity.
Qed.

(** A channel whose list file exists is loaded without a request. *)
Lemma load_channel_videos_present (channel_id : string)
    (content : option (list video_record)) (w : world) :
  video_list_files w !! channel_id = Some content ->
  load_channel_videos api max_pages channel_id w = (Returned content, w).
Proof.
  intros Hfile. unfold load_channel_videos, bind, video_list_exists.
  rewrite bool_decide_eq_true_2 by (rewrite Hfile; eexists; reflexivity).
  cbn [negb ret]. unfold read_video_list. rewrite Hfile. reflexivity.
Qed.

(** The visit of a channel that has its statistics and a list file:
    [process_channels]. *)
Lemma visit_pc_resume (before after : list channel_record)
    (c : channel_record) (df : dataset) (channel_videos : list video_record)
    (w : world) :
  fetched_statistics c = true ->
  fetched_videos c = false ->
  is_Some (df !! channelID c) ->
  video_list_files w !! channelID c = Some (Some channel_videos) ->
  exists sent,
    requests (snd (visit_pc api max_pages before after c df w)) =
    requests w ++ sent /\
    sent `prefix_of` map GetVideo (unfetched channel_videos) /\
    ((forall n v, quota_exceeded (api n (GetVideo v)) = false) ->
     sent = map GetVideo (unfetched channel_videos)).
Proof.
  intros Hs Hv Hdf Hfile. unfold visit_pc. rewrite Hs, Hv. cbn [negb].
  unfold bind at 1. cbn [ret]. unfold bind at 1.
  rewrite (load_channel_videos_present _ _ _ Hfile).
  destruct (videos_loop_pc_sent (channelID c) channel_videos [] df true w
              Hdf) as [sent [Hsent [Hpre Hall]]].
  destruct (bind_requests (fun _ => False)
              (videos_loop_pc api (channelID c) [] channel_videos df true)
              (fun r : dataset * list video_record * bool =>
                 let (p, all_videos_feched) := r in
                 let (df0, _) := p in
                 bind (finish_videos before after c all_videos_feched)
                   (fun channel_info => ret (df0, channel_info, true))) w)
    as [l [Hl Hnone]].
  { intros [[df2 vs] all]. apply emits_bind; [apply emits_finish_videos|].
    intros c2. apply emits_ret. }
  destruct l as [|r l]; [|inversion Hnone; contradiction].
  exists sent. rewrite app_nil_r in Hl. rewrite Hl, Hsent.
  repeat split; assumption.
Qed.

(** The same visit in [fetch_youtube_data]. *)
Lemma visit_fy_resume (before after : list channel_record)
    (c : channel_record) (df : dataset) (channel_videos : list video_record)
    (w : world) :
  fetched_statistics c = true ->
  fetched_videos c = false ->
  is_Some (df !! channelID c) ->
  video_list_files w !! channelID c = Some (Some channel_videos) ->
  exists sent,
    requests (snd (visit_fy api max_pages true before after c df w)) =
    requests w ++ sent /\
    sent `prefix_of` map GetVideo (unfetched channel_videos) /\
    ((forall n v, quota_exceeded (api n (GetVideo v)) = false) ->
     sent = map GetVideo (unfetched channel_videos)).
Proof.
  intros Hs Hv Hdf Hfile. unfold visit_fy. rewrite Hs, Hv. cbn [negb].
  unfold bind at 1. cbn [ret]. unfold bind at 1.
  rewrite (load_channel_videos_present _ _ _ Hfile).
  destruct (videos_loop_fy_sent (channelID c) channel_videos [] df true w
              Hdf) as [sent [Hsent [Hpre Hall]]].
  destruct (bind_requests (fun _ => False)
              (videos_loop_fy api (channelID c) [] channel_videos df true)
              (fun r : dataset * list video_record * bool =>
                 let (p, all_videos_feched) := r in
                 let (df0, _) := p in
                 bind (finish_videos before after c all_videos_feched)
                   (fun channel_info => ret (df0, channel_info, true, true)))
              w)
    as [l [Hl Hnone]].
  { intros [[df2 vs] all]. apply emits_bind; [apply emits_finish_videos|].
    intros c2. apply emits_ret. }
  destruct l as [|r l]; [|inversion Hnone; contradiction].
  exists sent. rewrite app_nil_r in Hl. rewrite Hl, Hsent.
  repeat split; assumption.
Qed.

(** A channel with both flags set is passed without any effect; in
    [process_channels] it is counted. *)
Lemma visit_pc_complete (before after : list channel_record)
    (c : channel_record) (df : dataset) (w : world) :
  complete c ->
  visit_pc api max_pages before after c df w = (Returned (df, c, true), w).
Proof.
  intros [Hv Hs]. unfold visit_pc. rewrite Hv, Hs. reflexivity.
Qed.

(** In [fetch_youtube_data] it is loaded and not counted as processed. *)
Lemma visit_fy_complete (before after : list channel_record)
    (c : channel_record) (df : dataset) (w : world) :
  complete c ->
  visit_fy api max_pages true before after c df w =
  (Returned (df, c, false, true), w).
Proof.
  intros [Hv Hs]. unfold visit_fy. rewrite Hv, Hs. reflexivity.
Qed.

Lemma loop_pc_skip_complete (max_channels : Z)
    (done : list channel_record) :
  Forall complete done ->
  forall before rest df n w,
    (n + Z.of_nat (length done) <= max_channels)%Z ->
    loop_pc api max_pages max_channels before (done ++ rest) df n w =
    loop_pc api max_pages max_channels (before ++ done) rest df
      (n + Z.of_nat (length done))%Z w.
Proof.
  induction 1 as [|c done Hc Hdone IH]; intros before rest df n w Hcap.
  - cbn [app length Z.of_nat]. rewrite app_nil_r, Z.add_0_r. reflexivity.
  - cbn [app loop_pc]. cbn [length] in Hcap.
    destruct (Z.leb_spec max_channels n) as [Hle|Hlt]; [lia|].
    unfold bind at 1. rewrite (visit_pc_complete _ _ _ _ _ Hc).
    rewrite IH by lia. rewrite <- app_assoc. cbn [app length].
    f_equal. lia.
Qed.

Lemma loop_fy_skip_complete (maxChannels : Z)
    (done : list channel_record) :
  Forall complete done ->
  forall before rest df n l w,
    (n < maxChannels)%Z ->
    loop_fy api max_pages maxChannels true before (done ++ rest) df n l w =
    loop_fy api max_pages maxChannels true (before ++ done) rest df n
      (l + Z.of_nat (length done))%Z w.
Proof.
  induction 1 as [|c done Hc Hdone IH]; intros before rest df n l w Hcap.
  - cbn [app length Z.of_nat]. rewrite app_nil_r, Z.add_0_r. reflexivity.
  - cbn [app loop_fy].
    destruct (Z.leb_spec maxChannels n) as [Hle|Hlt]; [lia|].
    unfold bind at 1. rewrite (visit_fy_complete _ _ _ _ _ Hc).
    rewrite IH by lia. rewrite <- app_assoc. cbn [app length].
    f_equal. lia.
Qed.

End ResumeFacts.

(** Where the run reaches channel A (the channels before it are complete
    and the cap is larger than their number), A has its statistics fetched,
    its videos not all fetched and a video list file: the first requests of
    both loops are the details of the videos of A's list whose flag is
    false, in list order, all of them unless the service reports an
    exhausted quota, and the statistics and search requests that follow
    are for channels behind A. *)
Theorem resume_fetches_unfetched_videos
    (api : nat -> request -> response) (max_pages : nat) (max_channels : Z)
    (w : world) (before after : list channel_record) (A : channel_record)
    (df : dataset) (channel_videos : list video_record) :
  channels_file_json w = before ++ A :: after ->
  Forall complete before ->
  fetched_statistics A = true ->
  fetched_videos A = false ->
  api_data_file w = Some df ->
  is_Some (df !! channelID A) ->
  video_list_files w !! channelID A = Some (Some channel_videos) ->
  (Z.of_nat (length before) < max_channels)%Z ->
  (exists sent more,
     requests (snd (process_channels api max_pages max_channels w)) =
     requests w ++ sent ++ more /\
     sent `prefix_of` map GetVideo (unfetched channel_videos) /\
     Forall (about (map channelID after)) more /\
     ((forall n v, quota_exceeded (api n (GetVideo v)) = false) ->
      sent = map GetVideo (unfetched channel_videos))) /\
  (exists sent more,
     requests (snd (fetch_youtube_data api max_pages max_channels true w)) =
     requests w ++ sent ++ more /\
     sent `prefix_of` map GetVideo (unfetched channel_videos) /\
     Forall (about (map channelID after)) more /\
     ((forall n v, quota_exceeded (api n (GetVideo v)) = false) ->
      sent = map GetVideo (unfetched channel_videos))).
Proof.
  intros Hroster Hbefore Hs Hv Hfile Hdf Hlist Hcap. split.
  - unfold process_channels. unfold bind at 1. unfold load_api_data.
    rewrite Hfile. unfold bind at 1. unfold load_channels. rewrite Hroster.
    rewrite (loop_pc_skip_complete api max_pages max_channels before
               Hbefore) by lia.
    cbn [loop_pc app].
    destruct (Z.leb_spec max_channels (0 + Z.of_nat (length before)))
      as [Hle|Hlt]; [lia|].
    match goal with
    | |- context [bind ?m ?k w] =>
        destruct (bind_requests (about (map channelID after)) m k w)
          as [more [Hmore Habout]]
    end.
    { intros [[df1 c1] counted]. apply emits_loop_pc. }
    destruct (visit_pc_resume api max_pages before after A df
                channel_videos w Hs Hv Hdf Hlist)
      as [sent [Hsent [Hpre Hall]]].
    exists sent, more. rewrite Hmore, Hsent, <- app_assoc.
    repeat split; assumption.
  - unfold fetch_youtube_data. unfold bind at 1. unfold load_api_data.
    rewrite Hfile. unfold bind at 1. unfold load_channels. rewrite Hroster.
    rewrite (loop_fy_skip_complete api max_pages max_channels before
               Hbefore) by lia.
    cbn [loop_fy app].
    destruct (Z.leb_spec max_channels 0) as [Hle|Hlt]; [lia|].
    match goal with
    | |- context [bind ?m ?k w] =>
        destruct (bind_requests (about (map channelID after)) m k w)
          as [more [Hmore Habout]]
    end.
    { intros [[[df1 c1] processed] loaded]. apply emits_loop_fy. }
    destruct (visit_fy_resume api max_pages before after A df
                channel_videos w Hs Hv Hdf Hlist)
      as [sent [Hsent [Hpre Hall]]].
    exists sent, more. rewrite Hmore, Hsent, <- app_assoc.
    repeat split; assumption.
Qed.

Lemma resume_fetches_unfetched_videos_witness :
  (exists sent more,
     requests (snd (process_channels healthy 3 1 world_resumed)) =
     requests world_resumed ++ sent ++ more /\
     sent `prefix_of` [GetVideo "v2"; GetVideo "v3"] /\
     Forall (about []) more /\
     ((forall n v, quota_exceeded (healthy n (GetVideo v)) = false) ->
      sent = [GetVideo "v2"; GetVideo "v3"])) /\
  (exists sent more,
     requests (snd (fetch_youtube_data healthy 3 1 true world_resumed)) =
     requests world_resumed ++ sent ++ more /\
     sent `prefix_of` [GetVideo "v2"; GetVideo "v3"] /\
     Forall (about []) more /\
     ((forall n v, quota_exceeded (healthy n (GetVideo v)) = false) ->
      sent = [GetVideo "v2"; GetVideo "v3"])).
Proof.
  apply (resume_fetches_unfetched_videos healthy 3 1 world_resumed [] []
           (channel "A" false true)
           {[ "A" := {| videos := [Some (plain_response "v1")];
                        statistics := plain_response "A" |} ]}
           [ {| VideoID := "v1"; fetched_video := true |};
             {| VideoID := "v2"; fetched_video := false |};
             {| VideoID := "v3"; fetched_video := false |} ]).
  - reflexivity.
  - constructor.
  - reflexivity.
  - reflexivity.
  - reflexivity.
  - eexists. vm_compute. reflexivity.
  - vm_compute. reflexivity.
  - cbn. lia.
Defined.

(** The run of the scenario: the statistics of A and the video [v1] are
    left alone, [v2] and [v3] are fetched and stored, and A is marked as
    done. *)
Lemma resumed_run :
  observe "A" (process_channels healthy 3 1 world_resumed) =
  (Returned 1%Z,
   [channel "A" true true],
   Some {| videos := [Some (plain_response "v1");
                      Some (plain_response "v2");
                      Some (plain_response "v3")];
           statistics := plain_response "A" |},
   Some (Some [ {| VideoID := "v1"; fetched_video := true |};
                {| VideoID := "v2"; fetched_video := true |};
                {| VideoID := "v3"; fetched_video := true |} ]),
   [GetVideo "v2"; GetVideo "v3"]).
Proof. vm_compute. reflexivity. Qed.

(** C4 (resuming channel A behind a complete channel): with a cap of one,
    [process_channels] counts the complete channel Z, stops before A and
    requests nothing, so the videos [v2] and [v3] of A stay unfetched
    however often it is run again; [fetch_youtube_data] on the same files
    does not count Z, leaves the statistics of A and the video [v1] alone,
    fetches and stores [v2] and [v3] and marks A as done. *)
Theorem resume_blocked_by_complete_channel :
  observe "A" (process_channels healthy 3 1 world_resumed_behind) =
  (Returned 1%Z,
   [channel "Z" true true; channel "A" false true],
   Some {| videos := [Some (plain_response "v1")];
           statistics := plain_response "A" |},
   Some (Some [ {| VideoID := "v1"; fetched_video := true |};
                {| VideoID := "v2"; fetched_video := false |};
                {| VideoID := "v3"; fetched_video := false |} ]),
   []) /\
  snd (process_channels healthy 3 1 world_resumed_behind) =
    world_resumed_behind /\
  observe "A" (fetch_youtube_data healthy 3 1 true world_resumed_behind) =
  (Returned (1%Z, 2%Z),
   [channel "Z" true true; channel "A" true true],
   Some {| videos := [Some (plain_response "v1");
                      Some (plain_response "v2");
                      Some (plain_response "v3")];
           statistics := plain_response "A" |},
   Some (Some [ {| VideoID := "v1"; fetched_video := true |};
                {| VideoID := "v2"; fetched_video := true |};
                {| VideoID := "v3"; fetched_video := true |} ]),
   [GetVideo "v2"; GetVideo "v3"]).
Proof. repeat split; vm_compute; reflexivity. Qed.

(** ** The defects and the flag of the statistics, for every input *)

Section DefectFacts.
Variable api : nat -> request -> response.
Variable max_pages : nat.

(** X26: whatever the statistics endpoint answers, the quota error
    included, the answer is stored as the statistics of the channel and the flag is set
    and persisted; the block never raises. *)
Lemma fetch_statistics_stores_any_answer
    (before after : list channel_record) (c : channel_record)
    (df : dataset) (w : world) :
  exists df' w',
    fetch_statistics api before after c df w =
    (Returned (df', set_fetched_statistics c), w') /\
    df' !! channelID c =
    Some {| videos := [];
            statistics := api (length (requests w))
                              (GetChannel (channelID c)) |} /\
    api_data_file w' = Some df' /\
    channels_file_json w' = before ++ set_fetched_statistics c :: after /\
    requests w' = requests w ++ [GetChannel (channelID c)].
Proof.
  unfold fetch_statistics, get_channel_statistics, bind, send,
    write_api_data, write_channels, ret.
  cbn [requests api_data_file channels_file_json video_list_files].
  eexists. eexists. split; [reflexivity|].
  split; [|repeat split].
  destruct (df_empty df);
    [apply lookup_singleton_eq | apply lookup_insert_eq].
Qed.

(** X28: a search answer without [items] and without the quota error, for
    a channel that has no list file yet, ends the block that loads the
    channel's videos with [TypeError], and no list file is written. *)
Lemma load_channel_videos_without_items (channel_id : string) (w : world)
    (fuel : nat) :
  video_list_files w !! channel_id = None ->
  quota_exceeded
    (api (length (requests w)) (SearchVideos channel_id None)) = false ->
  resp_items
    (api (length (requests w)) (SearchVideos channel_id None)) = None ->
  fst (load_channel_videos api (S fuel) channel_id w) = Raised TypeError /\
  video_list_files (snd (load_channel_videos api (S fuel) channel_id w))
    !! channel_id = None.
Proof.
  intros Hfile Hquota Hitems.
  unfold load_channel_videos, bind, video_list_exists,
    get_channel_videos_list.
  rewrite bool_decide_eq_false_2
    by (rewrite Hfile; intros [x Hx]; discriminate).
  cbn [negb get_pages]. unfold bind, send. rewrite Hquota, Hitems.
  cbn. split; [reflexivity | exact Hfile].
Qed.

(** X27: [process_channels] never gets past complete channels that fill
    the cap: it sends no request and leaves every file as it is. *)
Lemma process_channels_stuck (max_channels : Z) (w : world) (df : dataset)
    (done rest : list channel_record) :
  Forall complete done ->
  max_channels = Z.of_nat (length done) ->
  api_data_file w = Some df ->
  channels_file_json w = done ++ rest ->
  process_channels api max_pages max_channels w =
  (Returned max_channels, w).
Proof.
  intros Hdone Hmax Hfile Hroster.
  unfold process_channels. unfold bind at 1. unfold load_api_data.
  rewrite Hfile. unfold bind at 1. unfold load_channels. rewrite Hroster.
  rewrite (loop_pc_skip_complete api max_pages max_channels done Hdone)
    by lia.
  rewrite Z.add_0_l, <- Hmax.
  destruct rest as [|c rest]; cbn [loop_pc]; [reflexivity|].
  rewrite Z.leb_refl. reflexivity.
Qed.

(** No run asks again for the statistics of a channel whose roster entries
    all carry [fetched_statistics = true]. *)
Lemma emits_visit_pc_no_statistics (channel_id : string)
    (before after : list channel_record) (c : channel_record)
    (df : dataset) :
  (channelID c = channel_id -> fetched_statistics c = true) ->
  emits (fun r => r <> GetChannel channel_id)
    (visit_pc api max_pages before after c df).
Proof.
  intros Hflag.
  destruct (String.eqb_spec (channelID c) channel_id) as [Heq|Hne].
  - unfold visit_pc. rewrite (Hflag Heq). cbn [negb].
    apply emits_bind; [apply emits_ret|]. intros [df1 c1].
    destruct (negb (fetched_videos c)); [|apply emits_ret].
    apply emits_bind;
      [apply emits_load_channel_videos; intros t; discriminate|].
    intros [channel_videos|]; [|apply emits_ret].
    apply emits_bind;
      [apply emits_videos_loop_pc; intros v; discriminate|].
    intros [[df2 vs] all].
    apply emits_bind; [apply emits_finish_videos|]. intros c2.
    apply emits_ret.
  - eapply emits_mono; [|apply emits_visit_pc].
    intros [x|x t|x] Hr; [|discriminate|discriminate].
    cbn in Hr. destruct Hr as [Hr|[]]. congruence.
Qed.

Lemma emits_visit_fy_no_statistics (channel_id : string)
    (processVideo : bool) (before after : list channel_record)
    (c : channel_record) (df : dataset) :
  (channelID c = channel_id -> fetched_statistics c = true) ->
  emits (fun r => r <> GetChannel channel_id)
    (visit_fy api max_pages processVideo before after c df).
Proof.
  intros Hflag.
  destruct (String.eqb_spec (channelID c) channel_id) as [Heq|Hne].
  - unfold visit_fy. rewrite (Hflag Heq). cbn [negb].
    apply emits_bind; [apply emits_ret|]. intros [df1 c1].
    destruct (negb processVideo); [apply emits_ret|].
    destruct (negb (fetched_videos c)); [|apply emits_ret].
    apply emits_bind;
      [apply emits_load_channel_videos; intros t; discriminate|].
    intros [channel_videos|]; [|apply emits_ret].
    apply emits_bind;
      [apply emits_videos_loop_fy; intros v; discriminate|].
    intros [[df2 vs] all].
    apply emits_bind; [apply emits_finish_videos|]. intros c2.
    apply emits_ret.
  - eapply emits_mono; [|apply emits_visit_fy].
    intros [x|x t|x] Hr; [|discriminate|discriminate].
    cbn in Hr. destruct Hr as [Hr|[]]. congruence.
Qed.

Lemma emits_loop_pc_no_statistics (channel_id : string) (max_channels : Z)
    (todo : list channel_record) :
  Forall (fun c => channelID c = channel_id -> fetched_statistics c = true)
    todo ->
  forall before df n,
    emits (fun r => r <> GetChannel channel_id)
      (loop_pc api max_pages max_channels before todo df n).
Proof.
  induction 1 as [|c todo Hc Htodo IH]; intros before df n; cbn [loop_pc];
    [apply emits_ret|].
  destruct (max_channels <=? n)%Z; [apply emits_ret|].
  apply emits_bind; [apply emits_visit_pc_no_statistics; exact Hc|].
  intros [[df1 c1] counted]. apply IH.
Qed.

Lemma emits_loop_fy_no_statistics (channel_id : string) (maxChannels : Z)
    (processVideo : bool) (todo : list channel_record) :
  Forall (fun c => channelID c = channel_id -> fetched_statistics c = true)
    todo ->
  forall before df n l,
    emits (fun r => r <> GetChannel channel_id)
      (loop_fy api max_pages maxChannels processVideo before todo df n l).
Proof.
  induction 1 as [|c todo Hc Htodo IH]; intros before df n l;
    cbn [loop_fy]; [apply emits_ret|].
  destruct (maxChannels <=? n)%Z; [apply emits_ret|].
  apply emits_bind; [apply emits_visit_fy_no_statistics; exact Hc|].
  intros [[[df1 c1] processed] loaded]. apply IH.
Qed.

(** The start of a run leaves the roster and the requests as they are. *)
Lemma load_api_data_frame (w : world) :
  exists df w',
    load_api_data w = (Returned df, w') /\
    channels_file_json w' = channels_file_json w /\
    requests w' = requests w.
Proof.
  unfold load_api_data. destruct (api_data_file w) as [df|].
  - exists df, w. repeat split.
  - eexists. eexists. split; [reflexivity|]. split; reflexivity.
Qed.

(** X25: no run of [process_channels] or [fetch_youtube_data] requests the
    statistics of a channel whose roster entries all carry
    [fetched_statistics = true], however the run ends. *)
Lemma statistics_never_fetched_again (channel_id : string)
    (max_channels : Z) (processVideo : bool) (w : world) :
  Forall (fun c => channelID c = channel_id -> fetched_statistics c = true)
    (channels_file_json w) ->
  (exists sent,
     requests (snd (process_channels api max_pages max_channels w)) =
     requests w ++ sent /\
     ~ In (GetChannel channel_id) sent) /\
  (exists sent,
     requests (snd (fetch_youtube_data api max_pages max_channels
                      processVideo w)) =
     requests w ++ sent /\
     ~ In (GetChannel channel_id) sent).
Proof.
  intros Hroster.
  destruct (load_api_data_frame w) as (df & w1 & Hload & Hr1 & Hq1).
  split.
  - unfold process_channels. unfold bind at 1. rewrite Hload.
    unfold bind at 1, load_channels. rewrite Hr1.
    destruct (emits_loop_pc_no_statistics channel_id max_channels _
                Hroster [] df 0%Z w1) as [sent [Hsent Hnot]].
    exists sent. rewrite Hsent, Hq1. split; [reflexivity|].
    intros Hin. rewrite List.Forall_forall in Hnot.
    exact (Hnot _ Hin eq_refl).
  - unfold fetch_youtube_data. unfold bind at 1. rewrite Hload.
    unfold bind at 1, load_channels. rewrite Hr1.
    destruct (emits_loop_fy_no_statistics channel_id max_channels
                processVideo _ Hroster [] df 0%Z 0%Z w1)
      as [sent [Hsent Hnot]].
    exists sent. rewrite Hsent, Hq1. split; [reflexivity|].
    intros Hin. rewrite List.Forall_forall in Hnot.
    exact (Hnot _ Hin eq_refl).
Qed.

End DefectFacts.

(** * Further properties *)

(** ** Cleaning only deletes *)

Section DeletionFacts.
Context {U : UnicodeDB}.

(** [re.sub] with an empty replacement, or with a one-character replacement
    that every match starts with, only deletes characters. *)
Lemma sub_from_sublist (r : regex) (repl : pystr) :
  (repl = [] \/
   exists c, repl = [c] /\
     forall s n, match_at r s = Some (S n) -> head s = Some c) ->
  forall s skip, sub_from r repl skip s `sublist_of` s.
Proof.
  intros Hrepl s. induction s as [|c s IH]; intros skip; cbn [sub_from].
  - constructor.
  - destruct skip as [|k]; [|apply sublist_cons, IH].
    destruct (match_at r (c :: s)) as [[|n]|] eqn:Hm.
    + apply sublist_skip, IH.
    + destruct Hrepl as [->|(c0 & -> & Hhead)].
      * cbn [app]. apply sublist_cons, IH.
      * apply Hhead in Hm. cbn [head] in Hm. injection Hm as ->.
        cbn [app]. apply sublist_skip, IH.
    + apply sublist_skip, IH.
Qed.

Lemma match_rep1_head (c : char) (s : pystr) (n : nat) :
  match_at (Rep 1 (fun x => x =? c)) s = Some (S n) -> head s = Some c.
Proof.
  rewrite match_at_rep. destruct s as [|x s]; cbn [span]; [discriminate|].
  destruct (N.eqb_spec x c) as [->|]; [reflexivity | discriminate].
Qed.

(** Removing the runs of a class, or the characters of a class, is
    filtering the class out. *)
Lemma sub_rep1_filter (p : char -> bool) :
  forall s skip,
    (skip <= span p s)%nat ->
    sub_from (Rep 1 p) [] skip s = List.filter (fun c => negb (p c)) s.
Proof.
  induction s as [|c s IH]; intros skip Hskip; cbn [sub_from List.filter];
    [reflexivity|].
  cbn [span] in Hskip. destruct skip as [|k].
  - rewrite match_at_rep. cbn [span].
    destruct (p c) eqn:Hp; cbn [Nat.leb negb app].
    + apply IH. lia.
    + f_equal. apply IH. lia.
  - destruct (p c) eqn:Hp; [|lia]. cbn [negb]. apply IH. lia.
Qed.

Lemma sub_cls_filter (p : char -> bool) :
  forall s, sub (Cls p) [] s = List.filter (fun c => negb (p c)) s.
Proof.
  unfold sub. induction s as [|c s IH]; cbn [sub_from List.filter];
    [reflexivity|].
  rewrite match_at_cls. destruct (p c); cbn [negb app]; [exact IH|].
  f_equal. exact IH.
Qed.

Lemma filter_filter_weaker (p q : char -> bool) (s : pystr) :
  (forall c, p c = true -> q c = true) ->
  List.filter p (List.filter q s) = List.filter p s.
Proof.
  intros Hpq. induction s as [|c s IH]; cbn [List.filter]; [reflexivity|].
  destruct (q c) eqn:Hq; cbn [List.filter].
  - rewrite IH. reflexivity.
  - destruct (p c) eqn:Hp; [|exact IH]. apply Hpq in Hp. congruence.
Qed.

End DeletionFacts.

(** X1: for every text, plain-mode cleaning only deletes characters: its
    output is a subsequence of the text, so it is never longer. *)
Theorem clean_description_only_deletes (U : UnicodeDB) (s : pystr) :
  clean_description (Some s) `sublist_of` s /\
  (length (clean_description (Some s)) <= length s)%nat.
Proof.
  assert (H : clean_description (Some s) `sublist_of` s).
  { cbn [clean_description]. unfold sub.
    etrans; [apply sub_from_sublist; right; exists 32; split;
             [reflexivity | apply match_rep1_head]|].
    etrans; [apply sub_from_sublist; right; exists 10; split;
             [reflexivity | apply match_rep1_head]|].
    etrans; [apply sub_from_sublist; left; reflexivity|].
    etrans; [apply sub_from_sublist; left; reflexivity|].
    etrans; [apply sub_from_sublist; left; reflexivity|].
    apply sub_from_sublist; left; reflexivity. }
  split; [exact H | apply sublist_length, H].
Qed.

(** X2: on every text [clean_latex] succeeds, and what it returns is the
    ASCII characters of the text, in order, with every run of spaces
    collapsed to one space; the pass over the range U+2022..U+5424 removes
    nothing that the non-ASCII pass would keep. *)
Theorem clean_latex_keeps_ascii (U : UnicodeDB) (s : pystr) :
  let out := sub spaces_re (u " ") (List.filter (fun c => c <=? 127) s) in
  clean_latex (Some s) = Ok out /\
  Forall (fun c => c <= 127) out /\
  out `sublist_of` s.
Proof.
  cbn zeta. split; [|split].
  - cbn [clean_latex]. do 2 f_equal. unfold bullet_re, non_ascii_re.
    rewrite sub_cls_filter. unfold sub. rewrite sub_rep1_filter by lia.
    rewrite filter_filter_weaker.
    + apply filter_ext. intros c. unfold in_range.
      rewrite negb_involutive. destruct c; reflexivity.
    + intros c Hc. rewrite negb_involutive in Hc. unfold in_range in *.
      apply andb_true_iff in Hc as [_ Hc]. apply N.leb_le in Hc.
      apply negb_true_iff, andb_false_iff. left. apply N.leb_gt. lia.
  - apply sub_Forall.
    + repeat constructor. vm_compute. discriminate.
    + apply List.Forall_forall. intros c Hc.
      apply filter_In in Hc as [_ Hc]. apply N.leb_le. exact Hc.
  - etrans; [apply sub_from_sublist; right; exists 32; split;
             [reflexivity | apply match_rep1_head]|].
    clear. induction s as [|c s IH]; cbn [List.filter]; [constructor|].
    destruct (c <=? 127); [apply sublist_skip | apply sublist_cons]; exact IH.
Qed.

Section CollapseFacts.

Lemma doubled_cons (c a : char) (s : pystr) :
  doubled c (a :: s) =
  match s with
  | b :: _ => (a =? c) && (b =? c) || doubled c s
  | [] => false
  end.
Proof. reflexivity. Qed.

(** Collapsing the runs of [c] to one [c] leaves no two neighbours [c];
    behind a collapsed run the text does not go on with [c]. *)
Lemma collapse_no_doubles (c : char) (m : nat) :
  forall s,
    (length s <= m)%nat ->
    let out := sub_from (Rep 1 (fun x => x =? c)) [c] O s in
    doubled c out = false /\
    (span (fun x => x =? c) s = O -> head out <> Some c).
Proof.
  induction m as [|m IH]; intros s Hlen; cbn zeta.
  { destruct s; [|cbn [length] in Hlen; lia]. cbn. split; [reflexivity|].
    intros _. discriminate. }
  destruct s as [|a s].
  { cbn. split; [reflexivity|]. intros _. discriminate. }
  cbn [length] in Hlen. cbn [sub_from]. rewrite match_at_rep. cbn [span].
  destruct (N.eqb_spec a c) as [->|Hne]; cbn [Nat.leb].
  - split; [|discriminate].
    cbn [app]. rewrite sub_from_drop.
    destruct (IH (drop (span (fun x => x =? c) s) s)) as [Hd Hh].
    { rewrite length_drop. lia. }
    specialize (Hh (span_drop _ s)). rewrite doubled_cons.
    destruct (sub_from (Rep 1 (fun x => x =? c)) [c] 0
                (drop (span (fun x => x =? c) s) s)) as [|b out] eqn:Hout;
      [reflexivity|].
    rewrite Hd. cbn [head] in Hh.
    destruct (N.eqb_spec b c) as [->|]; [congruence|].
    rewrite andb_false_r. reflexivity.
  - destruct (IH s) as [Hd _]; [lia|]. split.
    + rewrite doubled_cons.
      destruct (sub_from (Rep 1 (fun x => x =? c)) [c] 0 s) as [|b out];
        [reflexivity|].
      rewrite Hd. destruct (N.eqb_spec a c); [congruence | reflexivity].
    + intros _. cbn [head]. congruence.
Qed.

(** Collapsing the runs of another character [d] brings no two [c]
    together, since a run of [d] leaves one [d] behind. *)
Lemma collapse_keeps_apart (c d : char) (m : nat) :
  c <> d ->
  forall s,
    (length s <= m)%nat ->
    doubled c s = false ->
    let out := sub_from (Rep 1 (fun x => x =? d)) [d] O s in
    doubled c out = false /\
    (head out = Some c -> head s = Some c).
Proof.
  intros Hcd. induction m as [|m IH]; intros s Hlen Hs; cbn zeta.
  { destruct s; [|cbn [length] in Hlen; lia]. cbn. split; [reflexivity|].
    discriminate. }
  destruct s as [|a s].
  { cbn. split; [reflexivity | discriminate]. }
  cbn [length] in Hlen. cbn [sub_from]. rewrite match_at_rep. cbn [span].
  assert (Htail : doubled c s = false).
  { rewrite doubled_cons in Hs. destruct s; [reflexivity|].
    apply orb_false_iff in Hs as [_ Hs]. exact Hs. }
  destruct (N.eqb_spec a d) as [->|Hne]; cbn [Nat.leb].
  - cbn [app]. rewrite sub_from_drop.
    assert (Hdrop : forall k, doubled c (drop k s) = false).
    { clear -Htail. intros k. revert s Htail.
      induction k as [|k IHk]; intros s Htail; [exact Htail|].
      destruct s as [|b s]; [reflexivity|]. cbn [drop]. apply IHk.
      rewrite doubled_cons in Htail. destruct s; [reflexivity|].
      apply orb_false_iff in Htail as [_ Htail]. exact Htail. }
    destruct (IH (drop (span (fun x => x =? d) s) s)) as [Hd _].
    { rewrite length_drop. lia. }
    { apply Hdrop. }
    split.
    + rewrite doubled_cons.
      destruct (sub_from (Rep 1 (fun x => x =? d)) [d] 0
                  (drop (span (fun x => x =? d) s) s)) as [|b out];
        [reflexivity|].
      rewrite Hd. destruct (N.eqb_spec d c); [congruence | reflexivity].
    + cbn [head]. congruence.
  - destruct (IH s) as [Hd Hh]; [lia | exact Htail |]. split.
    + rewrite doubled_cons.
      destruct (sub_from (Rep 1 (fun x => x =? d)) [d] 0 s) as [|b out]
        eqn:Hout; [reflexivity|].
      rewrite Hd. cbn [head] in Hh.
      destruct (N.eqb_spec a c) as [->|]; [|reflexivity].
      destruct (N.eqb_spec b c) as [->|]; [|reflexivity].
      specialize (Hh eq_refl). rewrite doubled_cons in Hs.
      destruct s as [|b' s']; [discriminate|]. cbn [head] in Hh.
      injection Hh as ->. rewrite !N.eqb_refl in Hs. discriminate.
    + cbn [head]. intros H. exact H.
Qed.

End CollapseFacts.

(** X3: the output of plain-mode cleaning has no two neighbouring spaces
    and no two neighbouring newlines. *)
Theorem clean_description_collapses_runs (U : UnicodeDB) (s : pystr) :
  doubled 32 (clean_description (Some s)) = false /\
  doubled 10 (clean_description (Some s)) = false.
Proof.
  cbn [clean_description]. unfold sub, spaces_re, newlines_re.
  change (u " ") with [32]. change (u (String "010" "")) with [10].
  split.
  - eapply (collapse_no_doubles 32). reflexivity.
  - eapply (collapse_keeps_apart 10 32); [discriminate | reflexivity |].
    eapply (collapse_no_doubles 10). reflexivity.
Qed.

(** ** Rows of a document *)

Section RowFacts.
Context {U : UnicodeDB} {vector : Type}.
Variable encode_normalized : pystr -> vector.
Variable splitter : nat -> nat -> pystr -> list pystr.
Variable sha256_hexdigest : pystr -> pystr.

Lemma field_value_below_threshold (raw : option pystr)
    (threshold bound : nat) :
  below_threshold raw threshold ->
  field_value raw threshold bound = take bound (given raw).
Proof.
  intros [Hne Hlen]. unfold field_value.
  destruct raw as [[|c v]|]; cbn [given] in *; try congruence.
  destruct (Nat.ltb_spec threshold (length (c :: v))); [lia | reflexivity].
Qed.

Lemma field_value_missing (raw : option pystr) (threshold bound : nat) :
  given raw = [] ->
  (7 <= threshold)%nat ->
  (7 <= bound)%nat ->
  field_value raw threshold bound = u "Unknown".
Proof.
  intros Hraw Ht Hb. unfold field_value.
  destruct raw as [[|c v]|]; cbn [given] in Hraw; try discriminate.
  - change (length (u "Unknown")) with 7%nat.
    destruct (Nat.ltb_spec threshold 7); [lia|].
    apply take_ge. cbn. lia.
  - change (length (u "Unknown")) with 7%nat.
    destruct (Nat.ltb_spec threshold 7); [lia|].
    apply take_ge. cbn. lia.
Qed.

Lemma process_and_insert_documents_chunks (entry : entry)
    (partition_name : pystr) :
  process_and_insert_documents encode_normalized splitter sha256_hexdigest
    entry partition_name =
  match cleaned_body (e_content entry) partition_name with
  | Raise e => Raise e
  | Ok body =>
      Ok (map (fun chunk =>
                 {| r_documentId :=
                      generate_document_id sha256_hexdigest
                        (field_value (e_title entry) 1000 900)
                        (field_value (e_authors entry) 1000 1000)
                        (field_value (e_date entry) 1000 250);
                    r_title := field_value (e_title entry) 1000 900;
                    r_date := field_value (e_date entry) 1000 250;
                    r_authors := field_value (e_authors entry) 1000 1000;
                    r_abstract := field_value (e_abstract entry) 4000 4000;
                    r_keywords := field_value (e_keywords entry) 1000 1004;
                    r_category := field_value (e_category entry) 1000 250;
                    r_content := stored_chunk chunk;
                    r_content_vector :=
                      encode_normalized (take 512 (stored_chunk chunk)) |})
              (splitter 512%nat 20%nat body))
  end.
Proof. reflexivity. Qed.

End RowFacts.

(** X4: a metadata field that is present, not empty and no longer than its
    cleaning threshold (1000 characters, 4000 for the abstract) is stored
    as its first characters up to the bound of the field, without any
    cleaning. *)
Theorem short_fields_are_not_cleaned (U : UnicodeDB) (vector : Type)
    (encode_normalized : pystr -> vector)
    (splitter : nat -> nat -> pystr -> list pystr)
    (sha256_hexdigest : pystr -> pystr)
    (entry : entry) (partition_name : pystr)
    (rows : list (index_record vector)) :
  process_and_insert_documents encode_normalized splitter sha256_hexdigest
    entry partition_name = Ok rows ->
  Forall (fun r =>
    (below_threshold (e_title entry) 1000 ->
     r_title r = take 900 (given (e_title entry))) /\
    (below_threshold (e_date entry) 1000 ->
     r_date r = take 250 (given (e_date entry))) /\
    (below_threshold (e_authors entry) 1000 ->
     r_authors r = given (e_authors entry)) /\
    (below_threshold (e_abstract entry) 4000 ->
     r_abstract r = given (e_abstract entry)) /\
    (below_threshold (e_keywords entry) 1000 ->
     r_keywords r = given (e_keywords entry)) /\
    (below_threshold (e_category entry) 1000 ->
     r_category r = take 250 (given (e_category entry)))) rows.
Proof.
  intros Hrun.
  eapply Forall_impl;
    [exact (process_and_insert_documents_rows _ _ _ _ _ _ Hrun)|].
  cbn beta. intros r (Ht & Hd & Ha & Hab & Hk & Hc).
  rewrite Ht, Hd, Ha, Hab, Hk, Hc.
  repeat split; intros Hb;
    rewrite (field_value_below_threshold _ _ _ Hb);
    try reflexivity; apply take_ge; destruct Hb; lia.
Qed.

Lemma short_fields_are_not_cleaned_witness :
  exists rows,
    process_and_insert_documents (U := ascii_db) (fun _ => tt) one_chunk
      (fun s => s) entry_long_keywords (u "papers") = Ok rows /\
    rows <> [] /\
    Forall (fun r =>
      (below_threshold (e_title entry_long_keywords) 1000 ->
       r_title r = take 900 (given (e_title entry_long_keywords))) /\
      (below_threshold (e_date entry_long_keywords) 1000 ->
       r_date r = take 250 (given (e_date entry_long_keywords))) /\
      (below_threshold (e_authors entry_long_keywords) 1000 ->
       r_authors r = given (e_authors entry_long_keywords)) /\
      (below_threshold (e_abstract entry_long_keywords) 4000 ->
       r_abstract r = given (e_abstract entry_long_keywords)) /\
      (below_threshold (e_keywords entry_long_keywords) 1000 ->
       r_keywords r = given (e_keywords entry_long_keywords)) /\
      (below_threshold (e_category entry_long_keywords) 1000 ->
       r_category r = take 250 (given (e_category entry_long_keywords))))
      rows.
Proof.
  eexists. split; [vm_compute; reflexivity|]. split; [discriminate|].
  apply (short_fields_are_not_cleaned ascii_db unit (fun _ => tt) one_chunk
           (fun s => s) entry_long_keywords (u "papers")).
  vm_compute. reflexivity.
Defined.

(** X6: when the call succeeds there is one row per chunk of the splitter,
    called with chunk size 512 and overlap 20, in chunk order; every row
    carries the document id computed from its own title, authors and date,
    its vector is the embedding of the first 512 characters of its stored
    content, and its stored content is a subsequence of the chunk. *)
Theorem rows_follow_chunks (U : UnicodeDB) (vector : Type)
    (encode_normalized : pystr -> vector)
    (splitter : nat -> nat -> pystr -> list pystr)
    (sha256_hexdigest : pystr -> pystr)
    (entry : entry) (partition_name : pystr)
    (rows : list (index_record vector)) :
  process_and_insert_documents encode_normalized splitter sha256_hexdigest
    entry partition_name = Ok rows ->
  exists body,
    cleaned_body (e_content entry) partition_name = Ok body /\
    Forall2 (fun chunk r =>
               r_content r `sublist_of` chunk /\
               ((length chunk <= 512)%nat -> r_content r = chunk) /\
               r_content_vector r =
                 encode_normalized (take 512 (r_content r)) /\
               r_documentId r =
                 generate_document_id sha256_hexdigest
                   (r_title r) (r_authors r) (r_date r))
      (splitter 512%nat 20%nat body) rows.
Proof.
  rewrite process_and_insert_documents_chunks.
  destruct (cleaned_body (e_content entry) partition_name) as [body|e];
    [|discriminate].
  intros [= <-]. exists body. split; [reflexivity|].
  apply Forall2_fmap_r, Forall_Forall2_diag, List.Forall_forall.
  intros chunk _.
  cbn [r_content r_content_vector r_documentId r_title r_authors r_date].
  unfold stored_chunk. repeat split.
  - destruct (512 <? length chunk)%nat; [|reflexivity].
    cbn [clean_description]. unfold sub.
    etrans; [apply sub_from_sublist; right; exists 32; split;
             [reflexivity | apply match_rep1_head]|].
    etrans; [apply sub_from_sublist; right; exists 10; split;
             [reflexivity | apply match_rep1_head]|].
    etrans; [apply sub_from_sublist; left; reflexivity|].
    etrans; [apply sub_from_sublist; left; reflexivity|].
    etrans; [apply sub_from_sublist; left; reflexivity|].
    apply sub_from_sublist; left; reflexivity.
  - intros Hlen. destruct (Nat.ltb_spec 512 (length chunk));
      [lia | reflexivity].
Qed.

Lemma rows_follow_chunks_witness :
  exists rows,
    process_and_insert_documents (U := ascii_db) (fun _ => tt) one_chunk
      (fun s => s) entry_long_keywords (u "papers") = Ok rows /\
    exists body,
      cleaned_body (U := ascii_db) (e_content entry_long_keywords)
        (u "papers") = Ok body /\
      Forall2 (fun chunk r =>
                 r_content r `sublist_of` chunk /\
                 ((length chunk <= 512)%nat -> r_content r = chunk) /\
                 r_content_vector r = tt /\
                 r_documentId r =
                   generate_document_id (fun s => s)
                     (r_title r) (r_authors r) (r_date r))
        (one_chunk 512%nat 20%nat body) rows.
Proof.
  eexists. split; [vm_compute; reflexivity|].
  apply (rows_follow_chunks ascii_db unit (fun _ => tt) one_chunk
           (fun s => s) entry_long_keywords (u "papers")).
  vm_compute. reflexivity.
Defined.

(** X7: the document id is the digest of the three fields joined by
    hyphens, so two documents that differ only in where a hyphen separates
    title from authors get the same id, whatever the digest. *)
Theorem generate_document_id_hyphen (sha256_hexdigest : pystr -> pystr)
    (x y z date : pystr) :
  generate_document_id sha256_hexdigest (x ++ u "-" ++ y) z date =
  generate_document_id sha256_hexdigest x (y ++ u "-" ++ z) date.
Proof.
  unfold generate_document_id. f_equal. rewrite <- !app_assoc. reflexivity.
Qed.

(** ** The dictionary of groups *)

Section DictFacts.

Lemma dict_get_None_keys (k : option pystr) (d : groups) :
  dict_get k d = None -> ~ In k (map fst d).
Proof.
  induction d as [|[k' g] d IH]; cbn [dict_get map fst In]; [tauto|].
  destruct (bool_decide (k' = k)) eqn:Hk; [discriminate|].
  apply bool_decide_eq_false in Hk. intros Hd [H|H]; [congruence|].
  exact (IH Hd H).
Qed.

Lemma append_content_keys (k : option pystr) (content : option pystr)
    (d : groups) :
  map fst (append_content k content d) = map fst d.
Proof.
  induction d as [|[k' g] d IH]; cbn [append_content map fst];
    [reflexivity|].
  destruct (bool_decide (k' = k)); cbn [map fst]; [reflexivity|].
  rewrite IH. reflexivity.
Qed.

Lemma total_contents_cons (k : option pystr) (g : group) (d : groups) :
  total_contents ((k, g) :: d) =
  (length (g_contents g) + total_contents d)%nat.
Proof. reflexivity. Qed.

Lemma total_contents_app (d1 d2 : groups) :
  total_contents (d1 ++ d2) = (total_contents d1 + total_contents d2)%nat.
Proof.
  induction d1 as [|[k g] d1 IH]; [reflexivity|].
  cbn [app]. rewrite !total_contents_cons, IH. lia.
Qed.

Lemma append_content_total (k : option pystr) (content : option pystr)
    (d : groups) (g : group) :
  dict_get k d = Some g ->
  total_contents (append_content k content d) = S (total_contents d).
Proof.
  induction d as [|[k' g'] d IH]; cbn [dict_get append_content];
    [discriminate|].
  destruct (bool_decide (k' = k)); intros Hget;
    rewrite !total_contents_cons.
  - cbn [g_contents]. rewrite length_app. cbn [length]. lia.
  - rewrite (IH Hget). lia.
Qed.

Lemma add_hit_invariant (d : groups) (h : hit) :
  NoDup (map fst d) ->
  NoDup (map fst (add_hit d h)) /\
  total_contents (add_hit d h) = S (total_contents d) /\
  (length d <= length (add_hit d h) <= S (length d))%nat.
Proof.
  intros Hnd. unfold add_hit.
  destruct (dict_get (h_documentId h) d) as [g|] eqn:Hget.
  - rewrite append_content_keys. split; [exact Hnd|].
    split; [eapply append_content_total; eassumption|].
    rewrite <- (length_map fst (append_content _ _ _)), append_content_keys,
      length_map. lia.
  - rewrite map_app. cbn [map fst]. split; [|split].
    + apply NoDup_app. split; [exact Hnd|]. split.
      * intros x Hx Hin. apply list_elem_of_In in Hx, Hin.
        cbn [In] in Hin. destruct Hin as [<-|[]].
        exact (dict_get_None_keys _ _ Hget Hx).
      * apply NoDup_singleton.
    + rewrite total_contents_app, total_contents_cons.
      cbn [g_contents length total_contents map list_sum fold_right]. lia.
    + rewrite length_app. cbn [length]. lia.
Qed.

Lemma fold_add_hit_invariant (results : list hit) :
  forall d,
    NoDup (map fst d) ->
    NoDup (map fst (fold_left add_hit results d)) /\
    total_contents (fold_left add_hit results d) =
      (total_contents d + length results)%nat /\
    (length (fold_left add_hit results d) <=
     length d + length results)%nat.
Proof.
  induction results as [|h results IH]; intros d Hnd; cbn [fold_left length].
  - split; [exact Hnd|]. split; lia.
  - destruct (add_hit_invariant d h Hnd) as (Hnd' & Htot & Hlen).
    destruct (IH _ Hnd') as (H1 & H2 & H3).
    split; [exact H1|]. split; lia.
Qed.

End DictFacts.

(** X8: grouping loses no hit and splits no document: the groups have
    distinct document ids, together they hold exactly one content per hit,
    and there are at most as many groups as hits. *)
Theorem group_by_document_id_partitions (results : list hit) :
  NoDup (map fst (group_by_document_id results)) /\
  total_contents (group_by_document_id results) = length results /\
  (length (group_by_document_id results) <= length results)%nat.
Proof.
  unfold group_by_document_id.
  destruct (fold_add_hit_invariant results []) as (H1 & H2 & H3).
  { constructor. }
  split; [exact H1|]. split; [exact H2 | exact H3].
Qed.

(** ** Loaded documents *)

Section LoaderFacts.

Lemma endswith_app (a b suffix : pystr) :
  endswith b suffix = true -> endswith (a ++ b) suffix = true.
Proof.
  unfold endswith. intros H. apply bool_decide_eq_true in H.
  apply bool_decide_eq_true.
  assert (Hlen : (length suffix <= length b)%nat).
  { rewrite <- H at 1. rewrite length_drop. lia. }
  rewrite length_app.
  replace (length a + length b - length suffix)%nat
    with (length a + (length b - length suffix))%nat by lia.
  rewrite drop_app_add. exact H.
Qed.

Lemma path_join_endswith (root file suffix : pystr) :
  endswith file suffix = true ->
  endswith (path_join root file) suffix = true.
Proof.
  intros H. unfold path_join.
  destruct file as [|c file].
  - destruct (last root) as [d|]; [|exact H].
    destruct (d =? slash);
      [|change (root ++ [slash]) with (root ++ [slash] ++ [])];
      rewrite ?app_assoc; apply endswith_app, H.
  - destruct (c =? slash); [exact H|].
    destruct (last root) as [d|]; [|exact H].
    destruct (d =? slash);
      [|change (root ++ slash :: c :: file)
          with (root ++ [slash] ++ c :: file); rewrite app_assoc];
      apply endswith_app, H.
Qed.

Lemma load_entry_shape (category : pystr) (content : option json_data)
    (e : entry) :
  load_entry category content = Ok e ->
  e_keywords e = None /\ e_category e = Some category /\
  is_Some (e_authors e).
Proof.
  unfold load_entry. destruct content as [data|]; [|discriminate].
  destruct (j_authors data); intros [= <-]; cbn; repeat split; eexists;
    reflexivity.
Qed.

Lemma scan_files_shape (root category : pystr)
    (files : list (pystr * option json_data)) (e : entry)
    (file_path : pystr) :
  scan_files root category files = Some (Ok (e, file_path)) ->
  e_keywords e = None /\ e_category e = Some category /\
  endswith file_path (u ".json") = true.
Proof.
  induction files as [|[file content] files IH]; cbn [scan_files];
    [discriminate|].
  destruct (endswith file (u ".json")) eqn:Hjson; [|exact IH].
  destruct (load_entry category content) as [e'|err] eqn:Hload;
    [|discriminate].
  intros [= <- <-]. apply load_entry_shape in Hload as (Hk & Hc & _).
  repeat split; try assumption. apply path_join_endswith, Hjson.
Qed.

Lemma scan_folders_shape
    (w : list (pystr * list pystr * list (pystr * option json_data)))
    (e : entry) (file_path : pystr) :
  scan_folders w = Ok (Some (e, file_path)) ->
  e_keywords e = None /\ is_Some (e_category e) /\
  endswith file_path (u ".json") = true.
Proof.
  induction w as [|[[root rel] files] w IH]; cbn [scan_folders];
    [discriminate|].
  destruct (scan_files root (category_of root rel) files)
    as [[[e' p']|err]|] eqn:Hscan; [|discriminate|exact IH].
  intros [= <- <-]. apply scan_files_shape in Hscan as (Hk & Hc & Hp).
  repeat split; try assumption. eexists; eassumption.
Qed.

End LoaderFacts.

(** X9: a document that [process_file_from_folder] loads comes with a path
    that ends in [.json] and with no keywords, so every row that
    [process_and_insert_documents] makes of it carries the keywords
    ["Unknown"]. *)
Theorem loaded_documents_have_unknown_keywords (U : UnicodeDB)
    (vector : Type) (encode_normalized : pystr -> vector)
    (splitter : nat -> nat -> pystr -> list pystr)
    (sha256_hexdigest : pystr -> pystr)
    (folder_path : pystr) (t : folder) (e : entry) (file_path : pystr)
    (partition_name : pystr) (rows : list (index_record vector)) :
  process_file_from_folder folder_path t = Ok (Some (e, file_path)) ->
  process_and_insert_documents encode_normalized splitter sha256_hexdigest
    e partition_name = Ok rows ->
  endswith file_path (u ".json") = true /\
  Forall (fun r => r_keywords r = u "Unknown") rows.
Proof.
  intros Hload Hrun. unfold process_file_from_folder in Hload.
  apply scan_folders_shape in Hload as (Hk & _ & Hp).
  split; [exact Hp|].
  eapply Forall_impl;
    [exact (process_and_insert_documents_rows _ _ _ _ _ _ Hrun)|].
  cbn beta. intros r (_ & _ & _ & _ & Hkw & _). rewrite Hkw, Hk.
  reflexivity.
Qed.

Lemma loaded_documents_have_unknown_keywords_witness :
  exists e file_path rows,
    process_file_from_folder (u "docs/papers") sample_folder =
      Ok (Some (e, file_path)) /\
    process_and_insert_documents (U := ascii_db) (fun _ => tt) one_chunk
      (fun s => s) e (u "papers") = Ok rows /\
    rows <> [] /\
    endswith file_path (u ".json") = true /\
    Forall (fun r => r_keywords r = u "Unknown") rows.
Proof.
  eexists. eexists. eexists.
  split; [vm_compute; reflexivity|].
  split; [vm_compute; reflexivity|].
  split; [discriminate|].
  eapply (loaded_documents_have_unknown_keywords ascii_db unit (fun _ => tt)
            one_chunk (fun s => s) (u "docs/papers") sample_folder _ _
            (u "papers")).
  - vm_compute. reflexivity.
  - vm_compute. reflexivity.
Defined.

(** ** Categories *)

Section CategoryFacts.

Lemma basename_from (name acc : pystr) :
  Forall (fun c => c <> slash) name ->
  fold_left (fun acc c => if c =? slash then [] else acc ++ [c]) name acc =
  acc ++ name.
Proof.
  revert acc. induction name as [|c name IH]; intros acc Hname;
    cbn [fold_left]; [rewrite app_nil_r; reflexivity|].
  inversion Hname as [|? ? Hc Hrest]; subst.
  destruct (N.eqb_spec c slash); [contradiction|].
  rewrite IH by assumption. rewrite <- app_assoc. reflexivity.
Qed.

Lemma replace_slash_free (name : pystr) :
  Forall (fun c => c <> slash) name ->
  map (fun c : N => if c =? slash then 95 else c) name = name.
Proof.
  induction 1 as [|c name Hc Hname IH]; cbn [map]; [reflexivity|].
  destruct (N.eqb_spec c slash); [contradiction|]. rewrite IH. reflexivity.
Qed.

Lemma replace_str_join (rel : list pystr) :
  Forall (Forall (fun c => c <> slash)) rel ->
  map (fun c : N => if c =? slash then 95 else c) (str_join [slash] rel) =
  str_join [95] rel.
Proof.
  induction 1 as [|name rel Hname Hrel IH]; [reflexivity|].
  destruct rel as [|name2 rel].
  - cbn [str_join]. apply replace_slash_free, Hname.
  - change (str_join [slash] (name :: name2 :: rel))
      with (name ++ [slash] ++ str_join [slash] (name2 :: rel)).
    change (str_join [95] (name :: name2 :: rel))
      with (name ++ [95] ++ str_join [95] (name2 :: rel)).
    rewrite map_app. f_equal; [apply replace_slash_free, Hname|].
    cbn [app map]. rewrite N.eqb_refl. f_equal. exact IH.
Qed.

End CategoryFacts.

(** X10: the category of a document in the top folder is the last
    component of the folder path as it was given, empty when the path ends
    in a separator; the category of a document below is the names of the
    folders that lead to it, joined by underscores. *)
Theorem folder_categories (root : pystr) :
  category_of root [] = basename root /\
  (forall p, basename (p ++ [slash]) = []) /\
  (forall p name,
     Forall (fun c => c <> slash) name ->
     basename (p ++ slash :: name) = name) /\
  (forall rel,
     rel <> [] ->
     rel <> [u "."] ->
     Forall (Forall (fun c => c <> slash)) rel ->
     category_of root rel = str_join (u "_") rel).
Proof.
  split; [reflexivity|]. split; [|split].
  - intros p. unfold basename. rewrite fold_left_app. reflexivity.
  - intros p name Hname. unfold basename. rewrite fold_left_app.
    cbn [fold_left]. rewrite N.eqb_refl. apply (basename_from name []).
    exact Hname.
  - intros rel Hne Hdot Hrel. unfold category_of, relpath.
    destruct rel as [|name rel]; [contradiction|].
    rewrite (replace_str_join _ Hrel). change (u "_") with [95].
    rewrite bool_decide_eq_false_2; [reflexivity|].
    change (u ".") with [46]. intros Heq.
    destruct rel as [|name2 rel].
    + cbn [str_join] in Heq. subst name. apply Hdot. reflexivity.
    + change (str_join [95] (name :: name2 :: rel))
        with (name ++ [95] ++ str_join [95] (name2 :: rel)) in Heq.
      destruct name as [|c [|c2 name]]; cbn [app] in Heq;
        discriminate.
Qed.

Lemma folder_categories_witness :
  category_of (u "docs/papers") [] = u "papers" /\
  basename (u "docs/papers/") = [] /\
  category_of (u "docs/papers/qg/e8") [u "qg"; u "e8"] = u "qg_e8".
Proof.
  destruct (folder_categories (u "docs/papers/qg/e8"))
    as (_ & Hslash & _ & Hrel).
  split; [vm_compute; reflexivity|].
  split; [exact (Hslash (u "docs/papers"))|].
  rewrite (Hrel [u "qg"; u "e8"]).
  - vm_compute. reflexivity.
  - discriminate.
  - discriminate.
  - repeat constructor; discriminate.
Defined.

(** ** What every run of the harvest keeps *)

Section EvolutionFacts.

Lemma flag_le_refl (c : channel_record) : flag_le c c.
Proof. repeat split; auto. Qed.

Lemma flag_le_trans (c1 c2 c3 : channel_record) :
  flag_le c1 c2 -> flag_le c2 c3 -> flag_le c1 c3.
Proof.
  intros (H1 & H2 & H3) (H4 & H5 & H6).
  repeat split; [congruence | auto | auto].
Qed.

Lemma roster_le_refl (l : list channel_record) : Forall2 flag_le l l.
Proof. induction l; constructor; auto using flag_le_refl. Qed.

Lemma roster_le_trans (l1 l2 l3 : list channel_record) :
  Forall2 flag_le l1 l2 -> Forall2 flag_le l2 l3 -> Forall2 flag_le l1 l3.
Proof.
  intros H. revert l3.
  induction H; intros l3 H3; inversion H3; subst; constructor;
    eauto using flag_le_trans.
Qed.

Lemma roster_le_middle (before after : list channel_record)
    (c c' : channel_record) :
  flag_le c c' ->
  Forall2 flag_le (before ++ c :: after) (before ++ c' :: after).
Proof.
  intros H. apply Forall2_app; [apply roster_le_refl|].
  constructor; [exact H | apply roster_le_refl].
Qed.

Lemma video_le_refl (v : video_record) : video_le v v.
Proof. split; auto. Qed.

Lemma video_le_trans (v1 v2 v3 : video_record) :
  video_le v1 v2 -> video_le v2 v3 -> video_le v1 v3.
Proof. intros (H1 & H2) (H3 & H4). split; [congruence | auto]. Qed.

Lemma videos_le_refl (l : list video_record) : Forall2 video_le l l.
Proof. induction l; constructor; auto using video_le_refl. Qed.

Lemma videos_le_trans (l1 l2 l3 : list video_record) :
  Forall2 video_le l1 l2 -> Forall2 video_le l2 l3 -> Forall2 video_le l1 l3.
Proof.
  intros H. revert l3.
  induction H; intros l3 H3; inversion H3; subst; constructor;
    eauto using video_le_trans.
Qed.

Lemma content_le_refl (x : option (list video_record)) : content_le x x.
Proof. destruct x; cbn; [apply videos_le_refl | exact I]. Qed.

Lemma content_le_trans (x1 x2 x3 : option (list video_record)) :
  content_le x1 x2 -> content_le x2 x3 -> content_le x1 x3.
Proof.
  destruct x1, x2, x3; cbn; try tauto. apply videos_le_trans.
Qed.

Lemma evolves_refl (w : world) : evolves w w.
Proof.
  split.
  - apply roster_le_refl.
  - intros cid x Hx. exists x. split; [exact Hx | apply content_le_refl].
  - auto.
  - exists []. split; [symmetry; apply app_nil_r | constructor].
  - auto.
  - auto.
Qed.

Lemma evolves_trans (w1 w2 w3 : world) :
  evolves w1 w2 -> evolves w2 w3 -> evolves w1 w3.
Proof.
  intros [R1 L1 C1 (s1 & E1 & S1) K1 N1] [R2 L2 C2 (s2 & E2 & S2) K2 N2].
  split.
  - eapply roster_le_trans; eauto.
  - intros cid x Hx. destruct (L1 cid x Hx) as (x' & Hx' & Hle).
    destruct (L2 cid x' Hx') as (x'' & Hx'' & Hle').
    exists x''. split; [exact Hx'' | eapply content_le_trans; eauto].
  - auto.
  - exists (s1 ++ s2). split.
    + rewrite E2, E1. symmetry. apply app_assoc.
    + apply Forall_app. split; [exact S1|].
      eapply Forall_impl; [exact S2|].
      intros r Hr cid tok Heq.
      destruct (video_list_files w1 !! cid) as [x|] eqn:Hx; [|reflexivity].
      destruct (L1 cid x Hx) as (x' & Hx' & _).
      rewrite (Hr cid tok Heq) in Hx'. discriminate.
  - auto.
  - auto.
Qed.

Lemma triple_bind {A B : Type} (P : world -> Prop) (m : M A)
    (Q : A -> world -> Prop) (k : A -> M B) (R : B -> world -> Prop) :
  triple P m Q -> (forall a, triple (Q a) (k a) R) -> triple P (bind m k) R.
Proof.
  intros Hm Hk w HP. unfold bind. destruct (Hm w HP) as [He HQ].
  destruct (m w) as [[a|e|] w1]; cbn in *.
  - destruct (Hk a w1 (HQ a eq_refl)) as [He2 HR].
    split; [eapply evolves_trans; eauto | exact HR].
  - split; [exact He | discriminate].
  - split; [exact He | discriminate].
Qed.

Lemma triple_ret {A : Type} (P : world -> Prop) (a : A)
    (Q : A -> world -> Prop) :
  (forall w, P w -> Q a w) -> triple P (ret a) Q.
Proof.
  intros H w HP. split; [apply evolves_refl|].
  cbn. intros b Hb. injection Hb as <-. auto.
Qed.

Lemma triple_raise {A : Type} (P : world -> Prop) (e : exn)
    (Q : A -> world -> Prop) :
  triple P (raise e) Q.
Proof. intros w HP. split; [apply evolves_refl | discriminate]. Qed.

Lemma triple_diverge {A : Type} (P : world -> Prop)
    (Q : A -> world -> Prop) :
  triple P diverge Q.
Proof. intros w HP. split; [apply evolves_refl | discriminate]. Qed.

Lemma triple_pre {A : Type} (P P' : world -> Prop) (m : M A)
    (Q : A -> world -> Prop) :
  (forall w, P' w -> P w) -> triple P m Q -> triple P' m Q.
Proof. intros H Hm w HP. apply Hm. auto. Qed.

Lemma triple_post {A : Type} (P : world -> Prop) (m : M A)
    (Q Q' : A -> world -> Prop) :
  (forall a w, Q a w -> Q' a w) -> triple P m Q -> triple P m Q'.
Proof.
  intros H Hm w HP. destruct (Hm w HP) as [He HQ]. split; auto.
Qed.

End EvolutionFacts.

Section KeepFacts.
Variable api : nat -> request -> response.
Variable max_pages : nat.

Lemma triple_send (P : world -> Prop) (req : request)
    (Q : response -> world -> Prop) :
  (forall w, P w -> searches_missing_list w req) ->
  (forall w, P w ->
     Q (api (length (requests w)) req) (snd (send api req w))) ->
  triple P (send api req) Q.
Proof.
  intros Hs HQ w HP. split.
  - split; cbn.
    + apply roster_le_refl.
    + intros cid x Hx. exists x. split; [exact Hx | apply content_le_refl].
    + auto.
    + exists [req]. split; [reflexivity|]. constructor; [auto | constructor].
    + auto.
    + auto.
  - cbn. intros a Ha. injection Ha as <-. apply (HQ w HP).
Qed.

Lemma triple_write_api_data (P : world -> Prop) (df : dataset)
    (Q : unit -> world -> Prop) :
  (forall w channel_id, P w ->
     has_column w channel_id -> is_Some (df !! channel_id)) ->
  (forall w, P w -> Q tt (snd (write_api_data df w))) ->
  triple P (write_api_data df) Q.
Proof.
  intros Hc HQ w HP.
  assert (Hcol : forall cid, has_column w cid ->
                   has_column (snd (write_api_data df w)) cid).
  { intros cid H. exists df. split; [reflexivity | eauto]. }
  split.
  - split; cbn.
    + apply roster_le_refl.
    + intros cid x Hx. exists x. split; [exact Hx | apply content_le_refl].
    + exact Hcol.
    + exists []. split; [symmetry; apply app_nil_r | constructor].
    + intros Hk c Hin Hf. apply Hcol. apply Hk; assumption.
    + auto.
  - cbn. intros a Ha. injection Ha as <-. apply (HQ w HP).
Qed.

Lemma triple_write_channels (P : world -> Prop)
    (ranked_channels : list channel_record) (Q : unit -> world -> Prop) :
  (forall w, P w ->
     Forall2 flag_le (channels_file_json w) ranked_channels) ->
  (forall w c, P w -> consistent w -> In c ranked_channels ->
     fetched_statistics c = true -> has_column w (channelID c)) ->
  (forall w, P w -> Q tt (snd (write_channels ranked_channels w))) ->
  triple P (write_channels ranked_channels) Q.
Proof.
  intros Hr Hc HQ w HP. split.
  - split; cbn.
    + auto.
    + intros cid x Hx. exists x. split; [exact Hx | apply content_le_refl].
    + intros cid (df & Hdf & Hs). exists df. auto.
    + exists []. split; [symmetry; apply app_nil_r | constructor].
    + intros Hk c Hin Hf. destruct (Hc w c HP Hk Hin Hf) as (df & Hdf & Hs).
      exists df. auto.
    + auto.
  - cbn. intros a Ha. injection Ha as <-. apply (HQ w HP).
Qed.

Lemma triple_write_video_list (P : world -> Prop) (channel_id : string)
    (content : option (list video_record)) (Q : unit -> world -> Prop) :
  content <> None ->
  (forall w x, P w ->
     video_list_files w !! channel_id = Some x -> content_le x content) ->
  (forall w, P w -> Q tt (snd (write_video_list channel_id content w))) ->
  triple P (write_video_list channel_id content) Q.
Proof.
  intros Hsome Hl HQ w HP. split.
  - split; cbn.
    + apply roster_le_refl.
    + intros cid x Hx. destruct (decide (cid = channel_id)) as [->|Hne].
      * exists content. rewrite lookup_insert_eq. eauto.
      * exists x. rewrite lookup_insert_ne by congruence.
        split; [exact Hx | apply content_le_refl].
    + intros cid (df & Hdf & Hs). exists df. auto.
    + exists []. split; [symmetry; apply app_nil_r | constructor].
    + intros Hk c Hin Hf. destruct (Hk c Hin Hf) as (df & Hdf & Hs).
      exists df. auto.
    + intros Hn cid. cbn [video_list_files].
      destruct (decide (cid = channel_id)) as [->|Hne].
      * rewrite lookup_insert_eq. congruence.
      * rewrite lookup_insert_ne by congruence. apply Hn.
  - cbn. intros a Ha. injection Ha as <-. apply (HQ w HP).
Qed.

Lemma triple_get_pages (df : dataset) (roster : list channel_record)
    (channel_id : string) (fuel : nat) :
  forall pageToken video_ids,
    triple
      (fun w => in_step df roster w /\
                video_list_files w !! channel_id = None)
      (get_pages api fuel channel_id pageToken video_ids)
      (fun _ w => in_step df roster w /\
                  video_list_files w !! channel_id = None).
Proof.
  induction fuel as [|fuel IH]; intros pageToken video_ids; cbn [get_pages].
  - apply triple_diverge.
  - eapply triple_bind.
    + apply triple_send with
        (Q := fun _ w => in_step df roster w /\
                         video_list_files w !! channel_id = None).
      * intros w [_ Hn] cid tok Heq. congruence.
      * intros w H. exact H.
    + intros data. cbn beta.
      destruct (quota_exceeded data); [apply triple_raise|].
      destruct (resp_items data) as [items|]; [|apply triple_ret; auto].
      destruct (resp_nextPageToken data) as [next|];
        [apply IH | apply triple_ret; auto].
Qed.

Lemma triple_load_channel_videos (df : dataset)
    (roster : list channel_record) (channel_id : string) :
  triple (in_step df roster)
    (load_channel_videos api max_pages channel_id)
    (fun x w => in_step df roster w /\
                video_list_files w !! channel_id = Some x).
Proof.
  unfold load_channel_videos.
  eapply triple_bind with
    (Q := fun present w =>
            in_step df roster w /\
            (present = false -> video_list_files w !! channel_id = None)).
  { intros w HP. split; [apply evolves_refl|].
    cbn. intros a Ha. injection Ha as <-. split; [exact HP|].
    intros Hb. apply bool_decide_eq_false in Hb.
    apply eq_None_not_Some. exact Hb. }
  intros present.
  eapply triple_bind with (Q := fun _ w => in_step df roster w).
  - destruct present; cbn [negb].
    + apply triple_ret. tauto.
    + eapply triple_bind.
      * eapply triple_pre; [|apply triple_get_pages with (df := df)
                                    (roster := roster)].
        intros w [H1 H2]. auto.
      * intros [video_ids|]; cbn [write_channel_video_list_to_file];
          [|apply triple_raise].
        apply triple_write_video_list.
        -- discriminate.
        -- intros w x [_ Hn] Hx. congruence.
        -- intros w [H _]. exact H.
  - intros _ w HP. unfold read_video_list.
    destruct (video_list_files w !! channel_id) as [x|] eqn:Hx; cbn.
    + split; [apply evolves_refl|]. intros a Ha. injection Ha as <-. auto.
    + split; [apply evolves_refl | discriminate].
Qed.

Lemma triple_get_channel_video (P : world -> Prop) (video_id : string) :
  (forall w, P w -> P (snd (send api (GetVideo video_id) w))) ->
  triple P (get_channel_video api video_id)
    (fun video_data w => P w /\ video_data <> None).
Proof.
  intros HP. unfold get_channel_video. eapply triple_bind.
  - apply triple_send with (Q := fun _ w => P w).
    + intros w _ cid tok Heq. discriminate.
    + exact HP.
  - intros data. cbn beta. destruct (quota_exceeded data);
      [apply triple_raise | apply triple_ret].
    intros w Hw. split; [exact Hw | discriminate].
Qed.

Lemma insert_keeps_columns (df : dataset) (k : string) (cell : yt_api)
    (w : world) (channel_id : string) :
  api_data_file w = Some df ->
  has_column w channel_id -> is_Some (<[k := cell]> df !! channel_id).
Proof.
  intros Hdf (df' & Hdf' & Hs). rewrite Hdf in Hdf'. injection Hdf' as <-.
  destruct (decide (channel_id = k)) as [->|Hne].
  - rewrite lookup_insert_eq. eauto.
  - rewrite lookup_insert_ne by congruence. exact Hs.
Qed.

Lemma videos_le_middle (done todo : list video_record) (v : video_record) :
  Forall2 video_le (done ++ v :: todo) (done ++ set_fetched_video v :: todo).
Proof.
  apply Forall2_app; [apply videos_le_refl|].
  constructor; [|apply videos_le_refl].
  split; [reflexivity | auto].
Qed.

Lemma triple_store_video (df : dataset) (roster : list channel_record)
    (channel_id : string) (done todo : list video_record)
    (video : video_record) (video_data : option response) :
  triple (in_videos df roster channel_id (done ++ video :: todo))
    (store_video channel_id done todo video video_data df)
    (fun r w => in_videos (fst r) roster channel_id
                  (done ++ snd r :: todo) w).
Proof.
  unfold store_video.
  destruct (df !! channel_id) as [channel_data|]; [|apply triple_raise].
  eapply triple_bind with
    (Q := fun _ w =>
            in_videos (<[channel_id := append_video channel_data video_data]>
                         df)
              roster channel_id (done ++ video :: todo) w).
  - apply triple_write_api_data.
    + intros w cid [[Hdf _] _] Hc. eapply insert_keeps_columns; eauto.
    + intros w [[Hdf Hr] Hl]. repeat split; assumption.
  - intros _. eapply triple_bind with
      (Q := fun _ w =>
              in_videos (<[channel_id := append_video channel_data video_data]>
                           df)
                roster channel_id (done ++ set_fetched_video video :: todo) w).
    + apply triple_write_video_list.
      * discriminate.
      * intros w x [_ Hl] Hx. rewrite Hl in Hx. injection Hx as <-.
        cbn. apply videos_le_middle.
      * intros w [[Hdf Hr] Hl]. repeat split; cbn; try assumption.
        apply lookup_insert_eq.
    + intros _. apply triple_ret. auto.
Qed.

Lemma in_videos_next (df : dataset) (roster : list channel_record)
    (channel_id : string) (done todo : list video_record)
    (video : video_record) (w : world) :
  in_videos df roster channel_id (done ++ video :: todo) w ->
  in_videos df roster channel_id ((done ++ [video]) ++ todo) w.
Proof. rewrite <- app_assoc. auto. Qed.

Lemma triple_videos_loop_pc (roster : list channel_record)
    (channel_id : string) (todo : list video_record) :
  forall done df all_videos_feched,
    triple (in_videos df roster channel_id (done ++ todo))
      (videos_loop_pc api channel_id done todo df all_videos_feched)
      (fun r w => in_step (fst (fst r)) roster w /\
                  snd r = all_videos_feched).
Proof.
  induction todo as [|video todo IH]; intros done df all; cbn [videos_loop_pc].
  - apply triple_ret. intros w [H _]. split; [exact H | reflexivity].
  - destruct (fetched_video video); cbn [negb].
    + eapply triple_pre; [apply in_videos_next | apply IH].
    + eapply triple_bind.
      * apply triple_get_channel_video. intros w H. exact H.
      * intros [data|].
        -- eapply triple_bind.
           ++ eapply triple_pre; [|apply triple_store_video].
              intros w [H _]. exact H.
           ++ intros [df' video']. cbn [fst snd].
              eapply triple_pre; [apply in_videos_next | apply IH].
        -- intros w [_ Hnone]. congruence.
Qed.

Lemma triple_videos_loop_fy (roster : list channel_record)
    (channel_id : string) (todo : list video_record) :
  forall done df all_videos_feched,
    triple (in_videos df roster channel_id (done ++ todo))
      (videos_loop_fy api channel_id done todo df all_videos_feched)
      (fun r w => in_step (fst (fst r)) roster w /\
                  snd r = all_videos_feched).
Proof.
  induction todo as [|video todo IH]; intros done df all; cbn [videos_loop_fy].
  - apply triple_ret. intros w [H _]. split; [exact H | reflexivity].
  - destruct (fetched_video video); cbn [negb].
    + eapply triple_pre; [apply in_videos_next | apply IH].
    + eapply triple_bind.
      * apply triple_get_channel_video. intros w H. exact H.
      * intros video_data.
        eapply triple_bind.
        -- eapply triple_pre; [|apply triple_store_video].
           intros w [H _]. exact H.
        -- intros [df' video']. cbn [fst snd].
           eapply triple_pre; [apply in_videos_next | apply IH].
Qed.

Lemma df_empty_true (df : dataset) : df_empty df = true -> df = ∅.
Proof.
  unfold df_empty. intros H. apply map_to_list_empty_iff.
  destruct (map_to_list df); [reflexivity | discriminate].
Qed.

Lemma triple_fetch_statistics (before after : list channel_record)
    (channel_info : channel_record) (df : dataset) :
  triple (in_step df (before ++ channel_info :: after))
    (fetch_statistics api before after channel_info df)
    (fun r w => in_step (fst r) (before ++ snd r :: after) w /\
                snd r = set_fetched_statistics channel_info).
Proof.
  unfold fetch_statistics, get_channel_statistics.
  eapply triple_bind.
  - apply triple_send with
      (Q := fun _ w => in_step df (before ++ channel_info :: after) w).
    + intros w _ cid tok Heq. discriminate.
    + intros w H. exact H.
  - intros channel_statistics. cbn beta zeta.
    set (cell := {| videos := []; statistics := channel_statistics |}).
    set (df1 := if df_empty df
                then {[ channelID channel_info := cell ]}
                else <[ channelID channel_info := cell ]> df).
    assert (Hcell : is_Some (df1 !! channelID channel_info)).
    { subst df1. destruct (df_empty df).
      - rewrite lookup_singleton_eq. eauto.
      - rewrite lookup_insert_eq. eauto. }
    eapply triple_bind with
      (Q := fun _ w => in_step df1 (before ++ channel_info :: after) w).
    + apply triple_write_api_data.
      * intros w cid [Hdf _] Hc. subst df1.
        destruct (df_empty df) eqn:He.
        -- apply df_empty_true in He. subst df.
           destruct Hc as (df' & Hdf' & Hs). rewrite Hdf in Hdf'.
           injection Hdf' as <-. rewrite lookup_empty in Hs.
           destruct Hs; discriminate.
        -- eapply insert_keeps_columns; eauto.
      * intros w [Hdf Hr]. split; [reflexivity | exact Hr].
    + intros _. eapply triple_bind with
        (Q := fun _ w =>
                in_step df1
                  (before ++ set_fetched_statistics channel_info :: after) w).
      * apply triple_write_channels.
        -- intros w [_ Hr]. rewrite Hr. apply roster_le_middle.
           repeat split; auto.
        -- intros w c [Hdf Hr] Hk Hin Hf.
           apply in_app_iff in Hin. cbn [In] in Hin.
           destruct Hin as [Hin | [<- | Hin]].
           ++ apply Hk; [|exact Hf]. rewrite Hr. apply in_app_iff. auto.
           ++ exists df1. split; [exact Hdf | exact Hcell].
           ++ apply Hk; [|exact Hf]. rewrite Hr. apply in_app_iff.
              right. right. exact Hin.
        -- intros w [Hdf Hr]. split; [exact Hdf | reflexivity].
      * intros _. apply triple_ret. cbn [fst snd]. auto.
Qed.

Lemma triple_finish_videos (before after : list channel_record)
    (channel_info : channel_record) (df : dataset)
    (all_videos_feched : bool) :
  triple (in_step df (before ++ channel_info :: after))
    (finish_videos before after channel_info all_videos_feched)
    (fun c w =>
       in_step df (before ++ c :: after) w /\
       c = if all_videos_feched then set_fetched_videos channel_info
           else channel_info).
Proof.
  unfold finish_videos. destruct all_videos_feched;
    [|apply triple_ret; auto].
  eapply triple_bind with
    (Q := fun _ w =>
            in_step df (before ++ set_fetched_videos channel_info :: after)
              w).
  - apply triple_write_channels.
    + intros w [_ Hr]. rewrite Hr. apply roster_le_middle.
      repeat split; auto.
    + intros w c [Hdf Hr] Hk Hin Hf.
      apply in_app_iff in Hin. cbn [In] in Hin.
      destruct Hin as [Hin | [<- | Hin]].
      * apply Hk; [|exact Hf]. rewrite Hr. apply in_app_iff. auto.
      * apply (Hk channel_info); [|exact Hf]. rewrite Hr.
        apply in_app_iff. right. left. reflexivity.
      * apply Hk; [|exact Hf]. rewrite Hr. apply in_app_iff.
        right. right. exact Hin.
    + intros w [Hdf Hr]. split; [exact Hdf | reflexivity].
  - intros _. apply triple_ret. auto.
Qed.

(** A triple keeps the absence of [null] list files. *)
Lemma triple_keep {A : Type} (N : Prop) (P : world -> Prop) (m : M A)
    (Q : A -> world -> Prop) :
  triple P m Q ->
  triple (fun w => P w /\ (N -> no_null_list w)) m
    (fun a w => Q a w /\ (N -> no_null_list w)).
Proof.
  intros Hm w [HP HN]. destruct (Hm w HP) as [He HQ].
  split; [exact He|]. intros a Ha. split; [auto|].
  intros n. apply (no_null_le _ _ He). auto.
Qed.

Lemma triple_assume {A : Type} (F : Prop) (P : world -> Prop) (m : M A)
    (Q : A -> world -> Prop) :
  (F -> triple P m Q) -> triple (fun w => P w /\ F) m Q.
Proof. intros H w [HP HF]. apply H; assumption. Qed.

(** After the statistics block the channel has its statistics flag. *)
Lemma triple_statistics_step (N : Prop) (before after : list channel_record)
    (c : channel_record) (df : dataset) :
  triple (in_visit N df (before ++ c :: after))
    (if negb (fetched_statistics c)
     then fetch_statistics api before after c df
     else ret (df, c))
    (fun r w =>
       in_visit N (fst r) (before ++ snd r :: after) w /\
       (fetched_statistics (snd r) = true /\
        fetched_videos (snd r) = fetched_videos c)).
Proof.
  destruct (fetched_statistics c) eqn:Hs; cbn [negb].
  - apply triple_ret. cbn [fst snd]. auto.
  - eapply triple_post; [|apply triple_keep, triple_fetch_statistics].
    cbn beta. intros [df1 c1] w [[Hstep Hc1] Hn]. cbn [fst snd] in *.
    split; [split; [exact Hstep | exact Hn]|].
    rewrite Hc1. split; reflexivity.
Qed.

(** The end of a visit whose video loop returned: the channel is
    complete. *)
Lemma triple_finish_step (N : Prop) (before after : list channel_record)
    (c1 : channel_record) (df2 : dataset) (all_videos_feched : bool) :
  fetched_statistics c1 = true ->
  triple
    (fun w => (in_step df2 (before ++ c1 :: after) w /\
               all_videos_feched = true) /\ (N -> no_null_list w))
    (finish_videos before after c1 all_videos_feched)
    (fun c2 w =>
       in_visit N df2 (before ++ c2 :: after) w /\ complete c2).
Proof.
  intros Hs.
  eapply triple_pre with
    (P := fun w => (in_step df2 (before ++ c1 :: after) w /\
                    (N -> no_null_list w)) /\ all_videos_feched = true).
  { intros w [[H1 H2] H3]. auto. }
  apply triple_assume. intros ->.
  eapply triple_post; [|apply triple_keep, triple_finish_videos].
  cbn beta. intros c2 w [[Hstep ->] Hn]. split; [split; assumption|].
  split; [reflexivity | exact Hs].
Qed.

Lemma triple_visit_pc (N : Prop) (before after : list channel_record)
    (channel_info : channel_record) (df : dataset) :
  triple (in_visit N df (before ++ channel_info :: after))
    (visit_pc api max_pages before after channel_info df)
    (fun r w =>
       in_visit N (fst (fst r)) (before ++ snd (fst r) :: after) w /\
       (N -> complete (snd (fst r)))).
Proof.
  unfold visit_pc.
  eapply triple_bind; [apply triple_statistics_step|].
  intros [df1 c1]. cbn [fst snd].
  apply triple_assume. intros [Hs Hv].
  destruct (fetched_videos channel_info); cbn [negb].
  { apply triple_ret. cbn [fst snd]. intros w H. split; [exact H|].
    intros _. split; assumption. }
  eapply triple_bind; [apply triple_keep, triple_load_channel_videos|].
  intros [channel_videos|].
  - eapply triple_bind.
    + apply triple_keep.
      apply (triple_videos_loop_pc (before ++ c1 :: after)
               (channelID channel_info) channel_videos []).
    + intros [[df2 vs] all]. cbn [fst snd].
      eapply triple_bind; [apply (triple_finish_step N); exact Hs|].
      intros c2. apply triple_ret. cbn [fst snd]. tauto.
  - apply triple_ret. cbn [fst snd].
    intros w [[Hstep Hfile] Hn]. split; [split; assumption|].
    intros n. destruct (Hn n _ Hfile).
Qed.

(** [fetch_youtube_data]: the same when the videos are processed. *)
Lemma triple_visit_fy (N : Prop) (processVideo : bool)
    (before after : list channel_record)
    (channel_info : channel_record) (df : dataset) :
  triple (in_visit N df (before ++ channel_info :: after))
    (visit_fy api max_pages processVideo before after channel_info df)
    (fun r w =>
       in_visit N (fst (fst (fst r)))
         (before ++ snd (fst (fst r)) :: after) w /\
       (N /\ processVideo = true -> complete (snd (fst (fst r))))).
Proof.
  unfold visit_fy.
  eapply triple_bind; [apply triple_statistics_step|].
  intros [df1 c1]. cbn [fst snd].
  apply triple_assume. intros [Hs Hv].
  destruct processVideo; cbn [negb].
  2: { apply triple_ret. cbn [fst snd]. intros w H. split; [exact H|].
       intros [_ Hp]. discriminate. }
  destruct (fetched_videos channel_info); cbn [negb].
  { apply triple_ret. cbn [fst snd]. intros w H. split; [exact H|].
    intros _. split; assumption. }
  eapply triple_bind; [apply triple_keep, triple_load_channel_videos|].
  intros [channel_videos|].
  - eapply triple_bind.
    + apply triple_keep.
      apply (triple_videos_loop_fy (before ++ c1 :: after)
               (channelID channel_info) channel_videos []).
    + intros [[df2 vs] all]. cbn [fst snd].
      eapply triple_bind; [apply (triple_finish_step N); exact Hs|].
      intros c2. apply triple_ret. cbn [fst snd]. tauto.
  - apply triple_ret. cbn [fst snd].
    intros w [[Hstep Hfile] Hn]. split; [split; assumption|].
    intros [n _]. destruct (Hn n _ Hfile).
Qed.

Lemma in_visit_next (N : Prop) (df : dataset)
    (before after : list channel_record) (c : channel_record) (w : world) :
  in_visit N df (before ++ c :: after) w ->
  in_visit N df ((before ++ [c]) ++ after) w.
Proof. rewrite <- app_assoc. auto. Qed.

(** The roster behind [before] is complete. *)
Lemma complete_done_cons (before done : list channel_record)
    (c : channel_record) (w : world) :
  complete c ->
  (exists done',
     channels_file_json w = (before ++ [c]) ++ done' /\
     Forall complete done') ->
  exists done',
    channels_file_json w = before ++ done' /\ Forall complete done'.
Proof.
  intros Hc (done' & Hr & Hall). exists (c :: done').
  rewrite <- app_assoc in Hr. split; [exact Hr | constructor; assumption].
Qed.

Lemma triple_loop_pc (N : Prop) (max_channels : Z)
    (todo : list channel_record) :
  forall before df channels_processed,
    triple (in_visit N df (before ++ todo))
      (loop_pc api max_pages max_channels before todo df channels_processed)
      (fun r w =>
         N -> (r < max_channels)%Z ->
         exists done,
           channels_file_json w = before ++ done /\ Forall complete done).
Proof.
  induction todo as [|c after IH]; intros before df n; cbn [loop_pc].
  - apply triple_ret. intros w [[_ Hr] _] _ _. exists []. auto.
  - destruct (Z.leb_spec max_channels n) as [Hle|Hlt].
    { apply triple_ret. intros w _ _ Hn. lia. }
    eapply triple_bind; [apply triple_visit_pc|].
    intros [[df1 c1] counted]. cbn [fst snd].
    apply triple_assume. intros Hc.
    eapply triple_post;
      [|eapply triple_pre; [apply in_visit_next | apply IH]].
    cbn beta. intros r w H n' Hr.
    eapply complete_done_cons; [exact [] | auto | auto].
Qed.

Lemma triple_loop_fy (N : Prop) (maxChannels : Z) (processVideo : bool)
    (todo : list channel_record) :
  forall before df channelsProcessed channelsLoaded,
    triple (in_visit N df (before ++ todo))
      (loop_fy api max_pages maxChannels processVideo before todo df
         channelsProcessed channelsLoaded)
      (fun r w =>
         N /\ processVideo = true -> (fst r < maxChannels)%Z ->
         exists done,
           channels_file_json w = before ++ done /\ Forall complete done).
Proof.
  induction todo as [|c after IH]; intros before df n l; cbn [loop_fy].
  - apply triple_ret. intros w [[_ Hr] _] _ _. exists []. auto.
  - destruct (Z.leb_spec maxChannels n) as [Hle|Hlt].
    { apply triple_ret. cbn [fst]. intros w _ _ Hn. lia. }
    eapply triple_bind; [apply triple_visit_fy|].
    intros [[[df1 c1] processed] loaded]. cbn [fst snd].
    apply triple_assume. intros Hc.
    eapply triple_post;
      [|eapply triple_pre; [apply in_visit_next | apply IH]].
    cbn beta. intros r w H n' Hr.
    eapply complete_done_cons; [exact [] | auto | auto].
Qed.

Lemma triple_load_api_data :
  triple (fun _ => True) load_api_data
    (fun df w => api_data_file w = Some df).
Proof.
  intros w _. unfold load_api_data.
  destruct (api_data_file w) as [df|] eqn:Hdf; cbn.
  - split; [apply evolves_refl|]. intros a Ha. injection Ha as <-. exact Hdf.
  - assert (Hno : forall cid, ~ has_column w cid).
    { intros cid (df & Hdf' & _). congruence. }
    split.
    + split; cbn.
      * apply roster_le_refl.
      * intros cid x Hx. exists x.
        split; [exact Hx | apply content_le_refl].
      * intros cid Hc. destruct (Hno cid Hc).
      * exists []. split; [symmetry; apply app_nil_r | constructor].
      * intros Hk c Hin Hf. destruct (Hno _ (Hk c Hin Hf)).
      * auto.
    + intros a Ha. injection Ha as <-. reflexivity.
Qed.

Lemma triple_load_channels (N : Prop) (df : dataset) :
  triple (fun w => api_data_file w = Some df /\ (N -> no_null_list w))
    load_channels
    (fun roster w => in_visit N df ([] ++ roster) w).
Proof.
  intros w [Hdf Hn]. split; [apply evolves_refl|].
  cbn. intros a Ha. injection Ha as <-.
  split; [split; [exact Hdf | reflexivity] | exact Hn].
Qed.

Lemma triple_process_channels (N : Prop) (max_channels : Z) :
  triple (fun w => N -> no_null_list w)
    (process_channels api max_pages max_channels)
    (fun r w =>
       N -> (r < max_channels)%Z -> Forall complete (channels_file_json w)).
Proof.
  unfold process_channels.
  eapply triple_bind.
  { eapply triple_pre; [|apply (triple_keep N), triple_load_api_data].
    cbn beta. auto. }
  intros df. eapply triple_bind; [apply triple_load_channels|].
  intros roster. eapply triple_post; [|apply triple_loop_pc].
  cbn beta. intros r w H n Hr. destruct (H n Hr) as (done & -> & Hall).
  exact Hall.
Qed.

Lemma triple_fetch_youtube_data (N : Prop) (maxChannels : Z)
    (processVideo : bool) :
  triple (fun w => N -> no_null_list w)
    (fetch_youtube_data api max_pages maxChannels processVideo)
    (fun r w =>
       N /\ processVideo = true -> (fst r < maxChannels)%Z ->
       Forall complete (channels_file_json w)).
Proof.
  unfold fetch_youtube_data.
  eapply triple_bind.
  { eapply triple_pre; [|apply (triple_keep N), triple_load_api_data].
    cbn beta. auto. }
  intros df. eapply triple_bind; [apply triple_load_channels|].
  intros roster. eapply triple_post; [|apply triple_loop_fy].
  cbn beta. intros r w H n Hr. destruct (H n Hr) as (done & -> & Hall).
  exact Hall.
Qed.

(** Every run leaves a later state of the files. *)
Lemma process_channels_evolves (max_channels : Z) (w : world) :
  evolves w (snd (process_channels api max_pages max_channels w)).
Proof.
  apply (triple_process_channels False max_channels w).
  intros [].
Qed.

Lemma fetch_youtube_data_evolves (maxChannels : Z) (processVideo : bool)
    (w : world) :
  evolves w
    (snd (fetch_youtube_data api max_pages maxChannels processVideo w)).
Proof.
  apply (triple_fetch_youtube_data False maxChannels processVideo w).
  intros [].
Qed.

End KeepFacts.

(** X11: whatever the service answers and however the run ends, the roster
    file of [process_channels] and of [fetch_youtube_data] keeps the same
    channels in the same order, and no flag that was set is taken back. *)
Theorem roster_flags_never_reset (api : nat -> request -> response)
    (max_pages : nat) (max_channels : Z) (processVideo : bool) (w : world) :
  Forall2 flag_le (channels_file_json w)
    (channels_file_json (snd (process_channels api max_pages max_channels w)))
  /\
  Forall2 flag_le (channels_file_json w)
    (channels_file_json
       (snd (fetch_youtube_data api max_pages max_channels processVideo w))).
Proof.
  split.
  - apply roster_le.
    apply process_channels_evolves.
  - apply roster_le.
    apply fetch_youtube_data_evolves.
Qed.

(** X12: a video list file that exists before a run exists after it,
    however the run ends, with the same videos in the same order and no
    [fetched_video] flag taken back. *)
Theorem video_lists_never_lose_progress (api : nat -> request -> response)
    (max_pages : nat) (max_channels : Z) (processVideo : bool) (w : world)
    (channel_id : string) (x : option (list video_record)) :
  video_list_files w !! channel_id = Some x ->
  (exists x',
     video_list_files (snd (process_channels api max_pages max_channels w))
       !! channel_id = Some x' /\
     content_le x x') /\
  (exists x',
     video_list_files
       (snd (fetch_youtube_data api max_pages max_channels processVideo w))
       !! channel_id = Some x' /\
     content_le x x').
Proof.
  intros Hx. split.
  - eapply lists_le; [|exact Hx].
    apply process_channels_evolves.
  - eapply lists_le; [|exact Hx].
    apply fetch_youtube_data_evolves.
Qed.

Lemma video_lists_never_lose_progress_witness :
  (exists x',
     video_list_files (snd (process_channels healthy 1 5 world_resumed))
       !! "A" = Some x' /\
     content_le
       (Some [ {| VideoID := "v1"; fetched_video := true |};
               {| VideoID := "v2"; fetched_video := false |};
               {| VideoID := "v3"; fetched_video := false |} ]) x') /\
  (exists x',
     video_list_files (snd (fetch_youtube_data healthy 1 5 true world_resumed))
       !! "A" = Some x' /\
     content_le
       (Some [ {| VideoID := "v1"; fetched_video := true |};
               {| VideoID := "v2"; fetched_video := false |};
               {| VideoID := "v3"; fetched_video := false |} ]) x').
Proof.
  apply (video_lists_never_lose_progress healthy 1 5 true world_resumed "A").
  vm_compute. reflexivity.
Defined.

(** X13: for a channel whose video list file exists before a run, the run
    sends no search request, however it ends. *)
Theorem listed_channels_not_searched_again (api : nat -> request -> response)
    (max_pages : nat) (max_channels : Z) (processVideo : bool) (w : world)
    (channel_id : string) (x : option (list video_record)) :
  video_list_files w !! channel_id = Some x ->
  (exists sent,
     requests (snd (process_channels api max_pages max_channels w)) =
       requests w ++ sent /\
     forall token, ~ In (SearchVideos channel_id token) sent) /\
  (exists sent,
     requests
       (snd (fetch_youtube_data api max_pages max_channels processVideo w)) =
       requests w ++ sent /\
     forall token, ~ In (SearchVideos channel_id token) sent).
Proof.
  intros Hx.
  assert (Hno : forall w', evolves w w' ->
            exists sent, requests w' = requests w ++ sent /\
              forall token, ~ In (SearchVideos channel_id token) sent).
  { intros w' He. destruct (searches_le _ _ He) as (sent & Hsent & Hall).
    exists sent. split; [exact Hsent|]. intros token Hin.
    rewrite List.Forall_forall in Hall.
    specialize (Hall _ Hin channel_id token eq_refl). congruence. }
  split; apply Hno.
  - apply process_channels_evolves.
  - apply fetch_youtube_data_evolves.
Qed.

Lemma listed_channels_not_searched_again_witness :
  (exists sent,
     requests (snd (process_channels healthy 1 5 world_resumed)) =
       requests world_resumed ++ sent /\
     forall token, ~ In (SearchVideos "A" token) sent) /\
  (exists sent,
     requests (snd (fetch_youtube_data healthy 1 5 true world_resumed)) =
       requests world_resumed ++ sent /\
     forall token, ~ In (SearchVideos "A" token) sent).
Proof.
  apply (listed_channels_not_searched_again healthy 1 5 true world_resumed
           "A"
           (Some [ {| VideoID := "v1"; fetched_video := true |};
                   {| VideoID := "v2"; fetched_video := false |};
                   {| VideoID := "v3"; fetched_video := false |} ])).
  vm_compute. reflexivity.
Defined.

(** X14: if every channel whose [fetched_statistics] flag is set has a
    column in the data file before a run, the same holds after it, however
    the run ends. *)
Theorem flagged_channels_keep_a_column (api : nat -> request -> response)
    (max_pages : nat) (max_channels : Z) (processVideo : bool) (w : world) :
  consistent w ->
  consistent (snd (process_channels api max_pages max_channels w)) /\
  consistent
    (snd (fetch_youtube_data api max_pages max_channels processVideo w)).
Proof.
  intros Hk. split.
  - eapply consistent_le; [|exact Hk].
    apply process_channels_evolves.
  - eapply consistent_le; [|exact Hk].
    apply fetch_youtube_data_evolves.
Qed.

Lemma flagged_channels_keep_a_column_witness :
  consistent (snd (process_channels (quota_from 1) 1 5 world_A_statistics)) /\
  consistent
    (snd (fetch_youtube_data (quota_from 1) 1 5 true world_A_statistics)).
Proof.
  apply (flagged_channels_keep_a_column (quota_from 1) 1 5 true
           world_A_statistics).
  intros c Hin Hf. cbn in Hin. destruct Hin as [<- | [<- | []]].
  - eexists. split; [reflexivity|]. vm_compute. eauto.
  - discriminate.
Defined.

(** X15: a column of the data file is never removed: a channel that has
    one before a run has one after it, however the run ends. *)
Theorem columns_never_removed (api : nat -> request -> response)
    (max_pages : nat) (max_channels : Z) (processVideo : bool) (w : world)
    (channel_id : string) :
  has_column w channel_id ->
  has_column (snd (process_channels api max_pages max_channels w)) channel_id
  /\
  has_column
    (snd (fetch_youtube_data api max_pages max_channels processVideo w))
    channel_id.
Proof.
  intros Hc. split.
  - eapply columns_le; [|exact Hc].
    apply process_channels_evolves.
  - eapply columns_le; [|exact Hc].
    apply fetch_youtube_data_evolves.
Qed.

Lemma columns_never_removed_witness :
  has_column (snd (process_channels healthy 1 5 world_A_statistics)) "A" /\
  has_column (snd (fetch_youtube_data healthy 1 5 true world_A_statistics))
    "A".
Proof.
  apply (columns_never_removed healthy 1 5 true world_A_statistics "A").
  eexists. split; [reflexivity|]. vm_compute. eauto.
Defined.

(** X16: a run that returns before the cap is reached has harvested
    everything.  When no list file holds [null] and [process_channels]
    returns a counter below the cap, or [fetch_youtube_data] with
    [processVideo=True] returns a processed count below the cap, every
    channel of the roster file has both flags set. *)
Theorem returning_below_the_cap_completes
    (api : nat -> request -> response) (max_pages : nat) (max_channels : Z)
    (w : world) :
  no_null_list w ->
  match process_channels api max_pages max_channels w with
  | (Returned n, w') =>
      (n < max_channels)%Z -> Forall complete (channels_file_json w')
  | _ => True
  end /\
  match fetch_youtube_data api max_pages max_channels true w with
  | (Returned (processed, _), w') =>
      (processed < max_channels)%Z -> Forall complete (channels_file_json w')
  | _ => True
  end.
Proof.
  intros Hn. split.
  - destruct (triple_process_channels api max_pages True max_channels w
                (fun _ => Hn)) as [_ HQ].
    destruct (process_channels api max_pages max_channels w)
      as [[n|e|] w']; try exact I.
    exact (HQ n eq_refl I).
  - destruct (triple_fetch_youtube_data api max_pages True max_channels true
                w (fun _ => Hn)) as [_ HQ].
    destruct (fetch_youtube_data api max_pages max_channels true w)
      as [[[p l]|e|] w']; try exact I.
    exact (HQ (p, l) eq_refl (conj I eq_refl)).
Qed.

Lemma returning_below_the_cap_completes_witness :
  match
    process_channels paged 2 5
      (fresh_world [channel "A" false false; channel "B" false false])
  with
  | (Returned n, w') => (n < 5)%Z -> Forall complete (channels_file_json w')
  | _ => True
  end /\
  match
    fetch_youtube_data paged 2 5 true
      (fresh_world [channel "A" false false; channel "B" false false])
  with
  | (Returned (processed, _), w') =>
      (processed < 5)%Z -> Forall complete (channels_file_json w')
  | _ => True
  end.
Proof.
  apply (returning_below_the_cap_completes paged 2 5
           (fresh_world [channel "A" false false; channel "B" false false])).
  intros channel_id. cbn. rewrite lookup_empty. discriminate.
Defined.

(** ** Runs against a service that answers *)

Section ServedFacts.
Variable api : nat -> request -> response.
Variable max_pages : nat.

Lemma get_pages_serves (channel_id : string)
    (more : list (string * list search_item)) :
  forall fuel token items video_ids w,
    serves api channel_id (length (requests w)) token items more ->
    (length more < fuel)%nat ->
    get_pages api fuel channel_id token video_ids w =
    (Returned (Some (video_ids ++ listed_ids items more)),
     {| api_data_file := api_data_file w;
        channels_file_json := channels_file_json w;
        video_list_files := video_list_files w;
        requests := requests w ++ listing_requests channel_id token more |}).
Proof.
  induction more as [|[next items'] more IH];
    intros fuel token items video_ids w Hs Hfuel;
    (destruct fuel as [|fuel]; [cbn in Hfuel; lia|]);
    cbn [get_pages]; unfold bind, send; cbn [serves] in Hs;
    destruct Hs as (Hq & Hi & Hn); rewrite Hq, Hi.
  - rewrite Hn. unfold ret, listed_ids, listing_requests. cbn [map concat].
    rewrite app_nil_r. reflexivity.
  - destruct Hn as [Hn Hs]. rewrite Hn.
    erewrite IH;
      [| cbn [requests]; rewrite length_app, Nat.add_1_r; exact Hs
       | cbn [length] in Hfuel; lia].
    cbn [requests api_data_file channels_file_json video_list_files].
    unfold listed_ids, listing_requests. cbn [map concat fst snd].
    rewrite <- !app_assoc. reflexivity.
Qed.

Lemma new_cell_inserted (df : dataset) (channel_id : string)
    (cell : yt_api) :
  (if df_empty df then {[ channel_id := cell ]}
   else <[ channel_id := cell ]> df) = <[ channel_id := cell ]> df.
Proof.
  destruct (df_empty df) eqn:He; [|reflexivity].
  apply df_empty_true in He. subst df. symmetry. apply insert_empty.
Qed.

Lemma fetch_statistics_run (before after : list channel_record)
    (c : channel_record) (df : dataset) (w : world) :
  let df' :=
    <[ channelID c :=
         {| videos := [];
            statistics :=
              api (length (requests w)) (GetChannel (channelID c)) |} ]>
      df in
  fetch_statistics api before after c df w =
  (Returned (df', set_fetched_statistics c),
   {| api_data_file := Some df';
      channels_file_json := before ++ set_fetched_statistics c :: after;
      video_list_files := video_list_files w;
      requests := requests w ++ [GetChannel (channelID c)] |}).
Proof.
  unfold fetch_statistics, get_channel_statistics, bind, send,
    write_api_data, write_channels, ret.
  cbn [requests api_data_file channels_file_json video_list_files].
  rewrite new_cell_inserted. reflexivity.
Qed.

Lemma set_fetched_video_fetched (video : video_record) :
  fetched_video video = true -> set_fetched_video video = video.
Proof. destruct video. cbn. intros ->. reflexivity. Qed.

Lemma world_eta (w : world) :
  {| api_data_file := api_data_file w;
     channels_file_json := channels_file_json w;
     video_list_files := video_list_files w;
     requests := requests w |} = w.
Proof. destruct w. reflexivity. Qed.

Lemma videos_loop_result_nil (channel_id : string)
    (done : list video_record) (df : dataset) (cell : yt_api)
    (all_videos_feched : bool) (w : world) :
  df !! channel_id = Some cell ->
  api_data_file w = Some df ->
  video_list_files w !! channel_id = Some (Some done) ->
  videos_loop_result api channel_id done [] df cell all_videos_feched w =
  (Returned (df, done, all_videos_feched), w).
Proof.
  intros Hcell Hdf Hlist. unfold videos_loop_result, unfetched, video_answers.
  cbn [List.filter map imap]. rewrite !app_nil_r.
  assert (Hc : {| videos := videos cell; statistics := statistics cell |}
               = cell) by (destruct cell; reflexivity).
  rewrite Hc, (insert_id df _ _ Hcell), (insert_id _ _ _ Hlist), <- Hdf.
  rewrite world_eta. reflexivity.
Qed.

Lemma videos_loop_result_fetched (channel_id : string)
    (done todo : list video_record) (video : video_record) (df : dataset)
    (cell : yt_api) (all_videos_feched : bool) (w : world) :
  fetched_video video = true ->
  videos_loop_result api channel_id (done ++ [video]) todo df cell
    all_videos_feched w =
  videos_loop_result api channel_id done (video :: todo) df cell
    all_videos_feched w.
Proof.
  intros Hf. unfold videos_loop_result.
  rewrite unfetched_cons, Hf. cbn [map].
  rewrite (set_fetched_video_fetched _ Hf), <- !app_assoc. reflexivity.
Qed.

Lemma videos_loop_result_stored (channel_id : string)
    (done todo : list video_record) (video : video_record) (df : dataset)
    (cell : yt_api) (all_videos_feched : bool) (w : world) :
  fetched_video video = false ->
  let data := api (length (requests w)) (GetVideo (VideoID video)) in
  let cell' := append_video cell (Some data) in
  let df' := <[ channel_id := cell' ]> df in
  videos_loop_result api channel_id (done ++ [set_fetched_video video]) todo df'
    cell' all_videos_feched
    {| api_data_file := Some df';
       channels_file_json := channels_file_json w;
       video_list_files :=
         <[ channel_id := Some (done ++ set_fetched_video video :: todo) ]>
           (video_list_files w);
       requests := requests w ++ [GetVideo (VideoID video)] |} =
  videos_loop_result api channel_id done (video :: todo) df cell
    all_videos_feched w.
Proof.
  intros Hf data cell' df'. unfold videos_loop_result.
  cbn [requests api_data_file channels_file_json video_list_files].
  rewrite unfetched_cons, Hf. subst df' cell'. unfold append_video.
  cbn [videos statistics map]. unfold video_answers. cbn [imap].
  rewrite !insert_insert_eq, <- !app_assoc, length_app. cbn [app length].
  rewrite Nat.add_0_r.
  assert (Hext :
    imap (fun i video_id =>
            Some (api (length (requests w) + 1 + i)%nat (GetVideo video_id)))
      (unfetched todo) =
    imap ((fun i video_id =>
             Some (api (length (requests w) + i)%nat (GetVideo video_id)))
          ∘ S) (unfetched todo)).
  { apply imap_ext. intros i x _. cbn. do 2 f_equal. lia. }
  rewrite Hext. reflexivity.
Qed.

Lemma videos_loop_pc_run (channel_id : string) (todo : list video_record) :
  (forall n v, quota_exceeded (api n (GetVideo v)) = false) ->
  forall done df cell all_videos_feched w,
    df !! channel_id = Some cell ->
    api_data_file w = Some df ->
    video_list_files w !! channel_id = Some (Some (done ++ todo)) ->
    videos_loop_pc api channel_id done todo df all_videos_feched w =
    videos_loop_result api channel_id done todo df cell all_videos_feched w.
Proof.
  intros Hquota.
  induction todo as [|video todo IH]; intros done df cell all w Hcell Hdf Hl;
    cbn [videos_loop_pc].
  - rewrite app_nil_r in Hl. rewrite videos_loop_result_nil by assumption.
    reflexivity.
  - destruct (fetched_video video) eqn:Hf; cbn [negb].
    + rewrite <- videos_loop_result_fetched by exact Hf.
      apply IH; try assumption. rewrite <- app_assoc. exact Hl.
    + rewrite <- videos_loop_result_stored by exact Hf.
      unfold bind at 1. unfold get_channel_video, bind, send.
      rewrite Hquota. cbn [ret]. unfold store_video.
      rewrite Hcell. unfold bind, write_api_data, write_video_list, ret.
      cbn [requests api_data_file channels_file_json video_list_files].
      apply IH; cbn [api_data_file video_list_files].
      * apply lookup_insert_eq.
      * reflexivity.
      * rewrite lookup_insert_eq, <- app_assoc. reflexivity.
Qed.

Lemma videos_loop_fy_run (channel_id : string) (todo : list video_record) :
  (forall n v, quota_exceeded (api n (GetVideo v)) = false) ->
  forall done df cell all_videos_feched w,
    df !! channel_id = Some cell ->
    api_data_file w = Some df ->
    video_list_files w !! channel_id = Some (Some (done ++ todo)) ->
    videos_loop_fy api channel_id done todo df all_videos_feched w =
    videos_loop_result api channel_id done todo df cell all_videos_feched w.
Proof.
  intros Hquota.
  induction todo as [|video todo IH]; intros done df cell all w Hcell Hdf Hl;
    cbn [videos_loop_fy].
  - rewrite app_nil_r in Hl. rewrite videos_loop_result_nil by assumption.
    reflexivity.
  - destruct (fetched_video video) eqn:Hf; cbn [negb].
    + rewrite <- videos_loop_result_fetched by exact Hf.
      apply IH; try assumption. rewrite <- app_assoc. exact Hl.
    + rewrite <- videos_loop_result_stored by exact Hf.
      unfold bind at 1. unfold get_channel_video, bind, send.
      rewrite Hquota. cbn [ret]. unfold store_video.
      rewrite Hcell. unfold bind, write_api_data, write_video_list, ret.
      cbn [requests api_data_file channels_file_json video_list_files].
      apply IH; cbn [api_data_file video_list_files].
      * apply lookup_insert_eq.
      * reflexivity.
      * rewrite lookup_insert_eq, <- app_assoc. reflexivity.
Qed.

Lemma unfetched_listed (video_ids : list string) :
  unfetched (listed false video_ids) = video_ids.
Proof.
  unfold unfetched, listed.
  induction video_ids as [|v l IH]; cbn; [reflexivity | f_equal; exact IH].
Qed.

Lemma set_fetched_video_listed (video_ids : list string) :
  map set_fetched_video (listed false video_ids) = listed true video_ids.
Proof. unfold listed. rewrite map_map. reflexivity. Qed.

Lemma load_channel_videos_serves (channel_id : string)
    (items : list search_item) (more : list (string * list search_item))
    (w : world) :
  video_list_files w !! channel_id = None ->
  serves api channel_id (length (requests w)) None items more ->
  (length more < max_pages)%nat ->
  load_channel_videos api max_pages channel_id w =
  (Returned (Some (listed false (listed_ids items more))),
   {| api_data_file := api_data_file w;
      channels_file_json := channels_file_json w;
      video_list_files :=
        <[ channel_id := Some (listed false (listed_ids items more)) ]>
          (video_list_files w);
      requests := requests w ++ listing_requests channel_id None more |}).
Proof.
  intros Hfile Hs Hfuel.
  unfold load_channel_videos, bind, video_list_exists,
    get_channel_videos_list.
  rewrite bool_decide_eq_false_2
    by (rewrite Hfile; intros [x Hx]; discriminate).
  cbn [negb]. rewrite (get_pages_serves _ _ _ _ _ _ _ Hs Hfuel).
  cbn [write_channel_video_list_to_file app]. unfold write_video_list, ret,
    read_video_list.
  cbn [requests api_data_file channels_file_json video_list_files].
  rewrite lookup_insert_eq. reflexivity.
Qed.

Lemma fresh_visit_result (before after : list channel_record)
    (c : channel_record) (df : dataset) (items : list search_item)
    (more : list (string * list search_item)) (w : world) :
  let df1 :=
    <[ channelID c :=
         {| videos := [];
            statistics :=
              api (length (requests w)) (GetChannel (channelID c)) |} ]>
      df in
  let cell :=
    {| videos := [];
       statistics :=
         api (length (requests w)) (GetChannel (channelID c)) |} in
  let w3 :=
    {| api_data_file := Some df1;
       channels_file_json := before ++ set_fetched_statistics c :: after;
       video_list_files :=
         <[ channelID c := Some (listed false (listed_ids items more)) ]>
           (video_list_files w);
       requests :=
         (requests w ++ [GetChannel (channelID c)]) ++
         listing_requests (channelID c) None more |} in
  exists df',
    videos_loop_result api (channelID c) []
      (listed false (listed_ids items more)) df1 cell true w3 =
    (Returned (df', listed true (listed_ids items more), true),
     {| api_data_file := api_data_file (harvested api before after (channelID c)
                                          df items more w);
        channels_file_json := before ++ set_fetched_statistics c :: after;
        video_list_files :=
          video_list_files (harvested api before after (channelID c) df items
                              more w);
        requests := requests (harvested api before after (channelID c) df items
                                more w) |}) /\
    api_data_file (harvested api before after (channelID c) df items more w) =
    Some df'.
Proof.
  intros df1 cell w3. eexists. unfold videos_loop_result, harvested.
  subst df1 cell w3.
  cbn [requests api_data_file channels_file_json video_list_files videos
         statistics app].
  rewrite unfetched_listed, set_fetched_video_listed, !insert_insert_eq.
  rewrite !length_app. cbn [length listing_requests]. rewrite length_map.
  rewrite <- !app_assoc. cbn [app]. split; reflexivity.
Qed.

Lemma visit_pc_fresh (before after : list channel_record)
    (c : channel_record) (df : dataset) (items : list search_item)
    (more : list (string * list search_item)) (w : world) :
  fetched_statistics c = false ->
  fetched_videos c = false ->
  video_list_files w !! channelID c = None ->
  serves api (channelID c) (S (length (requests w))) None items more ->
  (length more < max_pages)%nat ->
  (forall n v, quota_exceeded (api n (GetVideo v)) = false) ->
  exists df',
    visit_pc api max_pages before after c df w =
    (Returned (df', channel (channelID c) true true, true),
     harvested api before after (channelID c) df items more w) /\
    api_data_file (harvested api before after (channelID c) df items more w) =
    Some df'.
Proof.
  intros Hs Hv Hfile Hserves Hfuel Hquota.
  destruct (fresh_visit_result before after c df items more w)
    as (df' & Hres & Hdf').
  exists df'. split; [|exact Hdf'].
  unfold visit_pc. rewrite Hs, Hv. cbn [negb].
  unfold bind at 1. rewrite fetch_statistics_run.
  unfold bind at 1. erewrite load_channel_videos_serves;
    [| exact Hfile
     | cbn [requests]; rewrite length_app, Nat.add_1_r; exact Hserves
     | exact Hfuel].
  cbn [requests api_data_file channels_file_json video_list_files].
  unfold bind at 1.
  erewrite videos_loop_pc_run;
    [| exact Hquota | apply lookup_insert_eq | reflexivity
     | cbn [video_list_files app]; apply lookup_insert_eq].
  rewrite Hres. reflexivity.
Qed.

Lemma visit_fy_fresh (before after : list channel_record)
    (c : channel_record) (df : dataset) (items : list search_item)
    (more : list (string * list search_item)) (w : world) :
  fetched_statistics c = false ->
  fetched_videos c = false ->
  video_list_files w !! channelID c = None ->
  serves api (channelID c) (S (length (requests w))) None items more ->
  (length more < max_pages)%nat ->
  (forall n v, quota_exceeded (api n (GetVideo v)) = false) ->
  exists df',
    visit_fy api max_pages true before after c df w =
    (Returned (df', channel (channelID c) true true, true, true),
     harvested api before after (channelID c) df items more w) /\
    api_data_file (harvested api before after (channelID c) df items more w) =
    Some df'.
Proof.
  intros Hs Hv Hfile Hserves Hfuel Hquota.
  destruct (fresh_visit_result before after c df items more w)
    as (df' & Hres & Hdf').
  exists df'. split; [|exact Hdf'].
  unfold visit_fy. rewrite Hs, Hv. cbn [negb].
  unfold bind at 1. rewrite fetch_statistics_run.
  unfold bind at 1. erewrite load_channel_videos_serves;
    [| exact Hfile
     | cbn [requests]; rewrite length_app, Nat.add_1_r; exact Hserves
     | exact Hfuel].
  cbn [requests api_data_file channels_file_json video_list_files].
  unfold bind at 1.
  erewrite videos_loop_fy_run;
    [| exact Hquota | apply lookup_insert_eq | reflexivity
     | cbn [video_list_files app]; apply lookup_insert_eq].
  rewrite Hres. reflexivity.
Qed.

Lemma set_fetched_statistics_fetched (c : channel_record) :
  fetched_statistics c = true -> set_fetched_statistics c = c.
Proof. destruct c. cbn. intros ->. reflexivity. Qed.

Lemma with_statistics_cells (todo : list channel_record) :
  forall n df,
    (forall c, In c todo -> fetched_statistics c = false ->
       exists m,
         with_statistics api n todo df !! channelID c =
         Some {| videos := [];
                 statistics := api m (GetChannel (channelID c)) |}) /\
    (forall k,
       (forall c, In c todo -> fetched_statistics c = false ->
          channelID c <> k) ->
       with_statistics api n todo df !! k = df !! k).
Proof.
  induction todo as [|c after IH]; intros n df; cbn [with_statistics].
  - split; [intros c [] | reflexivity].
  - destruct (fetched_statistics c) eqn:Hf.
    + destruct (IH n df) as [Hin Hout]. split.
      * intros c' [<- | Hc'] Hf'; [congruence | auto].
      * intros k Hk. apply Hout. intros c' Hc'. apply Hk. right. exact Hc'.
    + match goal with
      | |- context [with_statistics api (S n) after ?df1] =>
          destruct (IH (S n) df1) as [Hin Hout]
      end.
      split.
      * intros c' Hc' Hf'.
        destruct (decide (Exists (fun c'' => fetched_statistics c'' = false /\
                                    channelID c'' = channelID c') after))
          as [Hex|Hnex].
        -- apply Exists_exists in Hex.
           destruct Hex as (c'' & Hc'' & Hf'' & Hid).
           rewrite <- Hid. apply Hin; [|exact Hf''].
           apply list_elem_of_In. exact Hc''.
        -- rewrite Hout.
           ++ destruct Hc' as [<- | Hc'].
              ** rewrite lookup_insert_eq. eexists. reflexivity.
              ** destruct Hnex. apply Exists_exists. exists c'.
                 split; [apply list_elem_of_In; exact Hc' | auto].
           ++ intros c'' Hc'' Hf'' Hid. apply Hnex. apply Exists_exists.
              exists c''. split; [apply list_elem_of_In; exact Hc'' | auto].
      * intros k Hk. rewrite Hout.
        -- apply lookup_insert_ne. apply Hk; [left; reflexivity | exact Hf].
        -- intros c' Hc'. apply Hk. right. exact Hc'.
Qed.

(** A pass that does not process videos fetches the statistics of the
    channels that lack them and counts every channel as loaded. *)
Lemma loop_fy_statistics_only (maxChannels : Z)
    (todo : list channel_record) :
  (0 < maxChannels)%Z ->
  forall before df l w,
    api_data_file w = Some df ->
    channels_file_json w = before ++ todo ->
    loop_fy api max_pages maxChannels false before todo df 0 l w =
    (Returned (0, l + Z.of_nat (length todo))%Z,
     {| api_data_file :=
          Some (with_statistics api (length (requests w)) todo df);
        channels_file_json := before ++ map set_fetched_statistics todo;
        video_list_files := video_list_files w;
        requests :=
          requests w ++
          map (fun c => GetChannel (channelID c))
            (List.filter (fun c => negb (fetched_statistics c)) todo) |}).
Proof.
  intros Hcap.
  induction todo as [|c after IH]; intros before df l w Hdf Hroster;
    cbn [loop_fy with_statistics].
  - unfold ret. cbn [length Z.of_nat map List.filter].
    rewrite app_nil_r in Hroster.
    rewrite Z.add_0_r, !app_nil_r, <- Hdf, <- Hroster, world_eta.
    reflexivity.
  - destruct (Z.leb_spec maxChannels 0) as [Hle|_]; [lia|].
    unfold bind at 1, visit_fy. cbn [negb List.filter map].
    destruct (fetched_statistics c) eqn:Hf; cbn [negb].
    + unfold bind at 1, ret. rewrite (IH (before ++ [c]) df (l + 1)%Z w Hdf)
        by (rewrite <- app_assoc; exact Hroster).
      rewrite (set_fetched_statistics_fetched _ Hf), <- !app_assoc.
      cbn [length app]. do 2 f_equal. f_equal. lia.
    + unfold bind at 1. rewrite fetch_statistics_run. unfold ret.
      erewrite IH;
        [| reflexivity
         | cbn [channels_file_json]; rewrite <- app_assoc; reflexivity].
      cbn [requests video_list_files length app].
      rewrite <- !app_assoc, length_app, Nat.add_1_r. cbn [app length].
      do 2 f_equal. f_equal. lia.
Qed.

(** Complete channels, or a cap that is not positive: nothing is done. *)
Lemma loop_pc_nothing_to_do (max_channels : Z)
    (todo : list channel_record) :
  Forall complete todo ->
  forall before df n w,
    loop_pc api max_pages max_channels before todo df n w =
    (Returned (Z.max n (Z.min max_channels (n + Z.of_nat (length todo)))),
     w).
Proof.
  induction 1 as [|c after Hc Hafter IH]; intros before df n w;
    cbn [loop_pc length].
  - unfold ret. do 2 f_equal. lia.
  - destruct (Z.leb_spec max_channels n) as [Hle|Hlt].
    + unfold ret. do 2 f_equal. lia.
    + unfold bind at 1. rewrite (visit_pc_complete _ _ _ _ _ _ _ Hc).
      rewrite IH. do 2 f_equal. lia.
Qed.

Lemma visit_fy_complete_any (processVideo : bool)
    (before after : list channel_record) (c : channel_record)
    (df : dataset) (w : world) :
  complete c ->
  visit_fy api max_pages processVideo before after c df w =
  (Returned (df, c, false, true), w).
Proof.
  intros [Hv Hs]. unfold visit_fy. rewrite Hv, Hs.
  destruct processVideo; reflexivity.
Qed.

Lemma loop_fy_nothing_to_do (maxChannels : Z) (processVideo : bool)
    (todo : list channel_record) :
  Forall complete todo ->
  (0 < maxChannels)%Z ->
  forall before df l w,
    loop_fy api max_pages maxChannels processVideo before todo df 0 l w =
    (Returned (0, l + Z.of_nat (length todo))%Z, w).
Proof.
  intros Hall Hcap.
  induction Hall as [|c after Hc Hafter IH]; intros before df l w;
    cbn [loop_fy length].
  - unfold ret. do 3 f_equal. lia.
  - destruct (Z.leb_spec maxChannels 0) as [Hle|_]; [lia|].
    unfold bind at 1. rewrite (visit_fy_complete_any _ _ _ _ _ _ Hc).
    rewrite IH. do 3 f_equal. lia.
Qed.

Lemma loop_pc_cap_reached (max_channels : Z) (todo : list channel_record)
    (before : list channel_record) (df : dataset) (n : Z) (w : world) :
  (max_channels <= n)%Z ->
  loop_pc api max_pages max_channels before todo df n w = (Returned n, w).
Proof.
  intros Hcap. destruct todo as [|c after]; cbn [loop_pc]; [reflexivity|].
  destruct (Z.leb_spec max_channels n); [reflexivity | lia].
Qed.

Lemma loop_fy_cap_reached (maxChannels : Z) (processVideo : bool)
    (todo : list channel_record) (before : list channel_record)
    (df : dataset) (n l : Z) (w : world) :
  (maxChannels <= n)%Z ->
  loop_fy api max_pages maxChannels processVideo before todo df n l w =
  (Returned (n, l), w).
Proof.
  intros Hcap. destruct todo as [|c after]; cbn [loop_fy]; [reflexivity|].
  destruct (Z.leb_spec maxChannels n); [reflexivity | lia].
Qed.

(** The counters stay within the roster, and the cap bounds the first. *)
Lemma loop_pc_counter (max_channels : Z) (todo : list channel_record) :
  forall before df n w r,
    fst (loop_pc api max_pages max_channels before todo df n w) =
      Returned r ->
    (n <= r <= n + Z.of_nat (length todo))%Z /\
    (r <= Z.max max_channels n)%Z.
Proof.
  induction todo as [|c after IH]; intros before df n w r;
    cbn [loop_pc length].
  - cbn. intros Hr. injection Hr as <-. lia.
  - destruct (Z.leb_spec max_channels n) as [Hle|Hlt].
    + cbn. intros Hr. injection Hr as <-. lia.
    + unfold bind at 1.
      destruct (visit_pc api max_pages before after c df w)
        as [[[[df1 c1] counted]|e|] w1]; [|discriminate|discriminate].
      intros Hr. apply IH in Hr. destruct counted; lia.
Qed.

Lemma loop_fy_counter (maxChannels : Z) (processVideo : bool)
    (todo : list channel_record) :
  forall before df n l w r,
    fst (loop_fy api max_pages maxChannels processVideo before todo df n l
           w) = Returned r ->
    (n <= fst r <= n + (snd r - l))%Z /\
    (snd r <= l + Z.of_nat (length todo))%Z /\
    (fst r <= Z.max maxChannels n)%Z.
Proof.
  induction todo as [|c after IH]; intros before df n l w r;
    cbn [loop_fy length].
  - cbn. intros Hr. injection Hr as <-. cbn. lia.
  - destruct (Z.leb_spec maxChannels n) as [Hle|Hlt].
    + cbn. intros Hr. injection Hr as <-. cbn. lia.
    + unfold bind at 1.
      assert (Hflags :
        forall df1 c1 processed loaded w1,
          visit_fy api max_pages processVideo before after c df w =
            (Returned (df1, c1, processed, loaded), w1) ->
          processed = true -> loaded = true).
      { unfold visit_fy, bind. intros df1 c1 processed loaded w1.
        destruct (if negb (fetched_statistics c)
                  then fetch_statistics api before after c df
                  else ret (df, c)) as [[[df2 c2]|e|] w2] eqn:Hst;
          [|discriminate|discriminate].
        destruct processVideo; cbn [negb]; [|unfold ret; congruence].
        destruct (fetched_videos c); cbn [negb]; [unfold ret; congruence|].
        destruct (load_channel_videos api max_pages (channelID c) w2)
          as [[[vs|]|e|] w3]; try discriminate; [|unfold ret; congruence].
        destruct (videos_loop_fy api (channelID c) [] vs df2 true w3)
          as [[[[df4 vs4] all]|e|] w4]; try discriminate.
        destruct (finish_videos before after c2 all w4)
          as [[c5|e|] w5]; try discriminate.
        unfold ret. congruence. }
      destruct (visit_fy api max_pages processVideo before after c df w)
        as [[[[[df1 c1] processed] loaded]|e|] w1] eqn:Hv;
        [|discriminate|discriminate].
      specialize (Hflags df1 c1 processed loaded w1 eq_refl).
      intros Hr. apply IH in Hr.
      destruct processed; [rewrite Hflags in Hr by reflexivity|];
        destruct loaded; lia.
Qed.

Lemma videos_loop_pc_all_fetched (channel_id : string)
    (todo : list video_record) :
  Forall (fun video => fetched_video video = true) todo ->
  forall done df all_videos_feched w,
    videos_loop_pc api channel_id done todo df all_videos_feched w =
    (Returned (df, done ++ todo, all_videos_feched), w).
Proof.
  induction 1 as [|video todo Hf Htodo IH]; intros done df all w;
    cbn [videos_loop_pc].
  - rewrite app_nil_r. reflexivity.
  - rewrite Hf. cbn [negb]. rewrite IH, <- app_assoc. reflexivity.
Qed.

Lemma videos_loop_fy_all_fetched (channel_id : string)
    (todo : list video_record) :
  Forall (fun video => fetched_video video = true) todo ->
  forall done df all_videos_feched w,
    videos_loop_fy api channel_id done todo df all_videos_feched w =
    (Returned (df, done ++ todo, all_videos_feched), w).
Proof.
  induction 1 as [|video todo Hf Htodo IH]; intros done df all w;
    cbn [videos_loop_fy].
  - rewrite app_nil_r. reflexivity.
  - rewrite Hf. cbn [negb]. rewrite IH, <- app_assoc. reflexivity.
Qed.

(** The visit of a channel without flags whose list file is fully
    flagged: its statistics are fetched into a cell without videos, no
    video is requested and both flags are set. *)
Lemma visit_pc_listed (before after : list channel_record)
    (c : channel_record) (df : dataset) (w : world) :
  fetched_statistics c = false ->
  fetched_videos c = false ->
  fully_listed w (channelID c) ->
  let df' :=
    <[ channelID c :=
         {| videos := [];
            statistics :=
              api (length (requests w)) (GetChannel (channelID c)) |} ]>
      df in
  visit_pc api max_pages before after c df w =
  (Returned (df', channel (channelID c) true true, true),
   {| api_data_file := Some df';
      channels_file_json := before ++ channel (channelID c) true true :: after;
      video_list_files := video_list_files w;
      requests := requests w ++ [GetChannel (channelID c)] |}).
Proof.
  intros Hs Hv (vids & Hfile & Hall) df'.
  unfold visit_pc. rewrite Hs, Hv. cbn [negb].
  unfold bind at 1. rewrite fetch_statistics_run.
  unfold bind at 1.
  rewrite (load_channel_videos_present api max_pages _ (Some vids))
    by exact Hfile.
  unfold bind at 1. rewrite (videos_loop_pc_all_fetched _ _ Hall).
  reflexivity.
Qed.

Lemma visit_fy_listed (before after : list channel_record)
    (c : channel_record) (df : dataset) (w : world) :
  fetched_statistics c = false ->
  fetched_videos c = false ->
  fully_listed w (channelID c) ->
  let df' :=
    <[ channelID c :=
         {| videos := [];
            statistics :=
              api (length (requests w)) (GetChannel (channelID c)) |} ]>
      df in
  visit_fy api max_pages true before after c df w =
  (Returned (df', channel (channelID c) true true, true, true),
   {| api_data_file := Some df';
      channels_file_json := before ++ channel (channelID c) true true :: after;
      video_list_files := video_list_files w;
      requests := requests w ++ [GetChannel (channelID c)] |}).
Proof.
  intros Hs Hv (vids & Hfile & Hall) df'.
  unfold visit_fy. rewrite Hs, Hv. cbn [negb].
  unfold bind at 1. rewrite fetch_statistics_run.
  unfold bind at 1.
  rewrite (load_channel_videos_present api max_pages _ (Some vids))
    by exact Hfile.
  unfold bind at 1. rewrite (videos_loop_fy_all_fetched _ _ Hall).
  reflexivity.
Qed.

Lemma regenerated_all_unfetched (todo : list channel_record) (w : world) :
  Forall (regenerated w) todo ->
  List.filter (fun c => negb (fetched_statistics c)) todo = todo.
Proof.
  induction 1 as [|c after (Hs & _) _ IH]; cbn [List.filter];
    [reflexivity|].
  rewrite Hs. cbn [negb]. f_equal. exact IH.
Qed.

Lemma loop_pc_regenerated (max_channels : Z) (todo : list channel_record) :
  forall before df n w,
    Forall (regenerated w) todo ->
    (n + Z.of_nat (length todo) <= max_channels)%Z ->
    api_data_file w = Some df ->
    channels_file_json w = before ++ todo ->
    loop_pc api max_pages max_channels before todo df n w =
    (Returned (n + Z.of_nat (length todo))%Z,
     {| api_data_file :=
          Some (with_statistics api (length (requests w)) todo df);
        channels_file_json :=
          before ++ map (fun c => channel (channelID c) true true) todo;
        video_list_files := video_list_files w;
        requests :=
          requests w ++ map (fun c => GetChannel (channelID c)) todo |}).
Proof.
  induction todo as [|c after IH]; intros before df n w Hall Hcap Hdf Hroster;
    cbn [loop_pc with_statistics].
  - unfold ret. cbn [length Z.of_nat map].
    rewrite app_nil_r in Hroster.
    rewrite Z.add_0_r, !app_nil_r, <- Hdf, <- Hroster, world_eta.
    reflexivity.
  - cbn [length] in Hcap.
    destruct (Z.leb_spec max_channels n) as [Hle|_]; [lia|].
    inversion Hall as [|c0 l0 (Hs & Hv & Hlisted) Hafter]; subst.
    unfold bind at 1. rewrite (visit_pc_listed _ _ _ _ _ Hs Hv Hlisted).
    rewrite Hs. erewrite IH;
      [| exact Hafter
       | lia
       | reflexivity
       | cbn [channels_file_json]; rewrite <- app_assoc; reflexivity].
    cbn [requests video_list_files length app map].
    rewrite <- !app_assoc, length_app, Nat.add_1_r. cbn [app length].
    do 2 f_equal. lia.
Qed.

Lemma loop_fy_regenerated (maxChannels : Z) (todo : list channel_record) :
  forall before df n l w,
    Forall (regenerated w) todo ->
    (n + Z.of_nat (length todo) <= maxChannels)%Z ->
    api_data_file w = Some df ->
    channels_file_json w = before ++ todo ->
    loop_fy api max_pages maxChannels true before todo df n l w =
    (Returned (n + Z.of_nat (length todo), l + Z.of_nat (length todo))%Z,
     {| api_data_file :=
          Some (with_statistics api (length (requests w)) todo df);
        channels_file_json :=
          before ++ map (fun c => channel (channelID c) true true) todo;
        video_list_files := video_list_files w;
        requests :=
          requests w ++ map (fun c => GetChannel (channelID c)) todo |}).
Proof.
  induction todo as [|c after IH];
    intros before df n l w Hall Hcap Hdf Hroster;
    cbn [loop_fy with_statistics].
  - unfold ret. cbn [length Z.of_nat map].
    rewrite app_nil_r in Hroster.
    rewrite !Z.add_0_r, !app_nil_r, <- Hdf, <- Hroster, world_eta.
    reflexivity.
  - cbn [length] in Hcap.
    destruct (Z.leb_spec maxChannels n) as [Hle|_]; [lia|].
    inversion Hall as [|c0 l0 (Hs & Hv & Hlisted) Hafter]; subst.
    unfold bind at 1. rewrite (visit_fy_listed _ _ _ _ _ Hs Hv Hlisted).
    rewrite Hs. erewrite IH;
      [| exact Hafter
       | lia
       | reflexivity
       | cbn [channels_file_json]; rewrite <- app_assoc; reflexivity].
    cbn [requests video_list_files length app map].
    rewrite <- !app_assoc, length_app, Nat.add_1_r. cbn [app length].
    do 2 f_equal. f_equal; lia.
Qed.

Lemma load_api_data_run (w : world) :
  load_api_data w =
  (Returned (default ∅ (api_data_file w)),
   {| api_data_file := Some (default ∅ (api_data_file w));
      channels_file_json := channels_file_json w;
      video_list_files := video_list_files w;
      requests := requests w |}).
Proof.
  unfold load_api_data. destruct (api_data_file w) as [df|] eqn:Hdf.
  - cbn [from_option id]. rewrite <- Hdf, world_eta. reflexivity.
  - reflexivity.
Qed.

End ServedFacts.

(** X17: when a run returns, the printed counters are within bounds:
    [process_channels] prints a number between 0 and the length of the
    roster that does not exceed the cap (or 0 for a negative cap);
    [fetch_youtube_data] prints a processed count between 0 and the loaded
    count, itself at most the length of the roster, and the processed count
    does not exceed the cap. *)
Theorem counters_within_bounds (api : nat -> request -> response)
    (max_pages : nat) (max_channels : Z) (processVideo : bool) (w : world) :
  match fst (process_channels api max_pages max_channels w) with
  | Returned n =>
      (0 <= n <= Z.of_nat (length (channels_file_json w)))%Z /\
      (n <= Z.max max_channels 0)%Z
  | _ => True
  end /\
  match
    fst (fetch_youtube_data api max_pages max_channels processVideo w)
  with
  | Returned (processed, loaded) =>
      (0 <= processed <= loaded)%Z /\
      (loaded <= Z.of_nat (length (channels_file_json w)))%Z /\
      (processed <= Z.max max_channels 0)%Z
  | _ => True
  end.
Proof.
  split.
  - unfold process_channels. unfold bind at 1. rewrite load_api_data_run.
    unfold bind at 1, load_channels. cbn [channels_file_json].
    match goal with
    | |- match fst ?run with _ => _ end =>
        destruct run as [[n|e|] w1] eqn:Hrun; cbn [fst]; try exact I;
        pose proof (loop_pc_counter api max_pages max_channels _ _ _ _ _ n
                      (f_equal fst Hrun)) as H
    end.
    lia.
  - unfold fetch_youtube_data. unfold bind at 1. rewrite load_api_data_run.
    unfold bind at 1, load_channels. cbn [channels_file_json].
    match goal with
    | |- match fst ?run with _ => _ end =>
        destruct run as [[[p l]|e|] w1] eqn:Hrun; cbn [fst]; try exact I;
        pose proof (loop_fy_counter api max_pages max_channels processVideo
                      _ _ _ _ _ _ (p, l) (f_equal fst Hrun)) as H
    end.
    cbn [fst snd] in H. lia.
Qed.

(** X18: when the search endpoint serves the listing of a channel in pages,
    each but the last carrying the token of the next, and the number of
    pages is within the bound, [get_channel_videos_list] sends one request
    per page, following the tokens, and returns the ids of the items of
    kind [youtube#video] of all pages in order; no file is touched. *)
Theorem listing_reads_every_page (api : nat -> request -> response)
    (max_pages : nat) (channel_id : string) (items : list search_item)
    (more : list (string * list search_item)) (w : world) :
  serves api channel_id (length (requests w)) None items more ->
  (length more < max_pages)%nat ->
  get_channel_videos_list api max_pages channel_id w =
  (Returned (Some (listed_ids items more)),
   {| api_data_file := api_data_file w;
      channels_file_json := channels_file_json w;
      video_list_files := video_list_files w;
      requests := requests w ++ listing_requests channel_id None more |}).
Proof.
  intros Hs Hfuel. unfold get_channel_videos_list.
  rewrite (get_pages_serves api channel_id more _ _ _ _ _ Hs Hfuel).
  reflexivity.
Qed.

Lemma listing_reads_every_page_witness :
  get_channel_videos_list paged 2 "A" (fresh_world []) =
  (Returned (Some ["A-v1"; "A-v2"]),
   {| api_data_file := None;
      channels_file_json := [];
      video_list_files := ∅;
      requests := [SearchVideos "A" None; SearchVideos "A" (Some "p2")] |}).
Proof.
  apply (listing_reads_every_page paged 2 "A"
           [ {| item_kind := "youtube#video"; item_videoId := "A-v1" |};
             {| item_kind := "youtube#channel"; item_videoId := "A" |} ]
           [ ("p2",
              [ {| item_kind := "youtube#video";
                   item_videoId := "A-v2" |} ]) ]
           (fresh_world [])).
  - cbn. repeat split; reflexivity.
  - cbn. lia.
Defined.

(** X19: with [processVideo=False] and a positive cap,
    [fetch_youtube_data] returns: it counts no channel as processed and
    every channel of the roster as loaded, whatever the cap; it requests
    the statistics of exactly the channels whose flag is not set, in roster
    order; it sets the flag of every channel; each of these channels gets a
    cell with the answer and no videos, the other columns are as before;
    no list file is touched. *)
Theorem statistics_only_pass (api : nat -> request -> response)
    (max_pages : nat) (maxChannels : Z) (w : world) :
  (0 < maxChannels)%Z ->
  let roster := channels_file_json w in
  let todo := List.filter (fun c => negb (fetched_statistics c)) roster in
  exists df',
    fetch_youtube_data api max_pages maxChannels false w =
    (Returned (0, Z.of_nat (length roster))%Z,
     {| api_data_file := Some df';
        channels_file_json := map set_fetched_statistics roster;
        video_list_files := video_list_files w;
        requests :=
          requests w ++ map (fun c => GetChannel (channelID c)) todo |}) /\
    (forall c, In c todo ->
       exists n,
         df' !! channelID c =
         Some {| videos := [];
                 statistics := api n (GetChannel (channelID c)) |}) /\
    (forall k,
       (forall c, In c todo -> channelID c <> k) ->
       df' !! k = default ∅ (api_data_file w) !! k).
Proof.
  intros Hcap roster todo.
  exists (with_statistics api (length (requests w)) roster
            (default ∅ (api_data_file w))).
  destruct (with_statistics_cells api roster (length (requests w))
              (default ∅ (api_data_file w))) as [Hin Hout].
  split; [|split].
  - unfold fetch_youtube_data. unfold bind at 1. rewrite load_api_data_run.
    unfold bind at 1, load_channels. cbn [channels_file_json].
    erewrite (loop_fy_statistics_only api max_pages maxChannels roster Hcap
                []); [| reflexivity | reflexivity].
    reflexivity.
  - intros c Hc. subst todo. apply filter_In in Hc. destruct Hc as [Hc Hf].
    apply Hin; [exact Hc|]. destruct (fetched_statistics c);
      [discriminate | reflexivity].
  - intros k Hk. apply Hout. intros c Hc Hf. apply Hk. subst todo.
    apply filter_In. split; [exact Hc|]. rewrite Hf. reflexivity.
Qed.

Lemma statistics_only_pass_witness :
  exists df',
    fetch_youtube_data healthy 1 1 false world_A_statistics =
    (Returned (0, 2)%Z,
     {| api_data_file := Some df';
        channels_file_json := [channel "A" false true; channel "B" false true];
        video_list_files := ∅;
        requests := [GetChannel "B"] |}) /\
    (forall c, In c [channel "B" false false] ->
       exists n,
         df' !! channelID c =
         Some {| videos := [];
                 statistics := healthy n (GetChannel (channelID c)) |}) /\
    (forall k,
       (forall c, In c [channel "B" false false] -> channelID c <> k) ->
       df' !! k =
       default ∅ (api_data_file world_A_statistics) !! k).
Proof.
  apply (statistics_only_pass healthy 1 1 world_A_statistics). lia.
Defined.

(** X20: a run that has nothing to do changes nothing.  When the data file
    exists and either every channel of the roster has both flags set or the
    cap is not positive, both functions return without sending a request or
    writing a file; [process_channels] prints the smaller of the cap and
    the length of the roster (0 for a cap that is not positive), and
    [fetch_youtube_data] prints 0 processed and all channels loaded (none
    for a cap that is not positive). *)
Theorem rerun_changes_nothing (api : nat -> request -> response)
    (max_pages : nat) (max_channels : Z) (processVideo : bool) (w : world)
    (df : dataset) :
  api_data_file w = Some df ->
  Forall complete (channels_file_json w) \/ (max_channels <= 0)%Z ->
  process_channels api max_pages max_channels w =
  (Returned
     (Z.min (Z.max max_channels 0)
        (Z.of_nat (length (channels_file_json w)))), w) /\
  fetch_youtube_data api max_pages max_channels processVideo w =
  (Returned
     (0%Z,
      if (max_channels <=? 0)%Z then 0%Z
      else Z.of_nat (length (channels_file_json w))), w).
Proof.
  intros Hdf Hcase.
  assert (Hload : load_api_data w = (Returned df, w)).
  { unfold load_api_data. rewrite Hdf. reflexivity. }
  unfold process_channels, fetch_youtube_data.
  unfold bind at 1 3. rewrite Hload. unfold bind at 1 2, load_channels.
  destruct (Z.leb_spec max_channels 0) as [Hle|Hlt].
  - rewrite loop_pc_cap_reached, loop_fy_cap_reached by exact Hle.
    split; do 2 f_equal. lia.
  - destruct Hcase as [Hall|Hle]; [|lia].
    rewrite (loop_pc_nothing_to_do api max_pages max_channels _ Hall).
    rewrite (loop_fy_nothing_to_do api max_pages max_channels processVideo
               _ Hall Hlt).
    split; do 2 f_equal. lia.
Qed.

Lemma rerun_changes_nothing_witness :
  process_channels healthy 1 5 world_done = (Returned 2%Z, world_done) /\
  fetch_youtube_data healthy 1 5 true world_done =
  (Returned (0, 2)%Z, world_done).
Proof.
  apply (rerun_changes_nothing healthy 1 5 true world_done
           {[ "A" := {| videos := [Some (plain_response "A-v1")];
                        statistics := plain_response "A" |};
              "B" := {| videos := [Some (plain_response "B-v1")];
                        statistics := plain_response "B" |} ]}).
  - reflexivity.
  - left. repeat constructor.
Defined.

(** X21: the harvest of a channel that has nothing fetched.  When the
    channels before it are complete and fewer than the cap, it is the last
    of the roster, it has no list file, the search endpoint serves its
    listing in pages within the bound and no video request reports an
    exhausted quota, both functions return after one statistics request,
    one search request per page and one request per listed video, in this
    order; the channel's cell holds the statistics answer and the video
    answers in list order, its list file holds every listed video flagged,
    and both flags of the channel are set in the roster file. *)
Theorem fresh_channel_fully_harvested (api : nat -> request -> response)
    (max_pages : nat) (max_channels : Z) (w : world)
    (before : list channel_record) (A : channel_record)
    (items : list search_item) (more : list (string * list search_item)) :
  channels_file_json w = before ++ [A] ->
  Forall complete before ->
  fetched_statistics A = false ->
  fetched_videos A = false ->
  video_list_files w !! channelID A = None ->
  (Z.of_nat (length before) < max_channels)%Z ->
  serves api (channelID A) (S (length (requests w))) None items more ->
  (length more < max_pages)%nat ->
  (forall n v, quota_exceeded (api n (GetVideo v)) = false) ->
  let final :=
    harvested api before [] (channelID A) (default ∅ (api_data_file w))
      items more w in
  process_channels api max_pages max_channels w =
  (Returned (Z.of_nat (length before) + 1)%Z, final) /\
  fetch_youtube_data api max_pages max_channels true w =
  (Returned (1, Z.of_nat (length before) + 1)%Z, final).
Proof.
  intros Hroster Hbefore Hs Hv Hfile Hcap Hserves Hfuel Hquota final.
  unfold process_channels, fetch_youtube_data.
  unfold bind at 1 3. rewrite load_api_data_run.
  unfold bind at 1 2, load_channels. cbn [channels_file_json].
  rewrite Hroster.
  rewrite (loop_pc_skip_complete api max_pages max_channels before Hbefore)
    by lia.
  rewrite (loop_fy_skip_complete api max_pages max_channels before Hbefore)
    by lia.
  cbn [loop_pc loop_fy app].
  destruct (Z.leb_spec max_channels (0 + Z.of_nat (length before)))
    as [Hle|_]; [lia|].
  destruct (Z.leb_spec max_channels 0) as [Hle|_]; [lia|].
  unfold bind at 1 2.
  match goal with
  | |- context [visit_pc _ _ _ _ _ ?df0 ?w0] =>
      destruct (visit_pc_fresh api max_pages before [] A df0 items more w0
                  Hs Hv Hfile Hserves Hfuel Hquota) as (df1 & Hpc & _);
      destruct (visit_fy_fresh api max_pages before [] A df0 items more w0
                  Hs Hv Hfile Hserves Hfuel Hquota) as (df2 & Hfy & _)
  end.
  rewrite Hpc, Hfy. cbn [loop_pc loop_fy]. unfold ret.
  split; reflexivity.
Qed.

Lemma fresh_channel_fully_harvested_witness :
  process_channels paged 2 1 (fresh_world [channel "A" false false]) =
  (Returned 1%Z,
   {| api_data_file :=
        Some {[ "A" := {| videos := [Some (plain_response "A-v1");
                                    Some (plain_response "A-v2")];
                          statistics := plain_response "A" |} ]};
      channels_file_json := [channel "A" true true];
      video_list_files :=
        {[ "A" := Some [ {| VideoID := "A-v1"; fetched_video := true |};
                         {| VideoID := "A-v2"; fetched_video := true |} ] ]};
      requests :=
        [GetChannel "A"; SearchVideos "A" None; SearchVideos "A" (Some "p2");
         GetVideo "A-v1"; GetVideo "A-v2"] |}) /\
  fetch_youtube_data paged 2 1 true (fresh_world [channel "A" false false]) =
  (Returned (1, 1)%Z,
   {| api_data_file :=
        Some {[ "A" := {| videos := [Some (plain_response "A-v1");
                                    Some (plain_response "A-v2")];
                          statistics := plain_response "A" |} ]};
      channels_file_json := [channel "A" true true];
      video_list_files :=
        {[ "A" := Some [ {| VideoID := "A-v1"; fetched_video := true |};
                         {| VideoID := "A-v2"; fetched_video := true |} ] ]};
      requests :=
        [GetChannel "A"; SearchVideos "A" None; SearchVideos "A" (Some "p2");
         GetVideo "A-v1"; GetVideo "A-v2"] |}).
Proof.
  apply (fresh_channel_fully_harvested paged 2 1
           (fresh_world [channel "A" false false]) []
           (channel "A" false false)
           [ {| item_kind := "youtube#video"; item_videoId := "A-v1" |};
             {| item_kind := "youtube#channel"; item_videoId := "A" |} ]
           [ ("p2",
              [ {| item_kind := "youtube#video";
                   item_videoId := "A-v2" |} ]) ]).
  - reflexivity.
  - constructor.
  - reflexivity.
  - reflexivity.
  - reflexivity.
  - cbn. lia.
  - cbn. repeat split; reflexivity.
  - cbn. lia.
  - intros n v. reflexivity.
Defined.

(** X22: regenerating the roster from the channel ids while the list files
    of an earlier harvest are in place loses the stored videos.  When every
    listed channel has a list file in which every video is flagged and the
    cap is at least the number of channels, the next run of either function
    requests the statistics of every channel and nothing else, replaces the
    cell of every channel by one without videos, leaves the list files as
    they are and sets both flags of every channel. *)
Theorem regenerated_roster_drops_stored_videos
    (api : nat -> request -> response) (max_pages : nat) (max_channels : Z)
    (channel_ids : list string) (w : world) :
  Forall (fully_listed w) channel_ids ->
  (Z.of_nat (length channel_ids) <= max_channels)%Z ->
  let w1 := snd (channel_ids_csv_to_json channel_ids w) in
  let count := Z.of_nat (length channel_ids) in
  exists df',
    let final :=
      {| api_data_file := Some df';
         channels_file_json :=
           map (fun channel_id => channel channel_id true true) channel_ids;
         video_list_files := video_list_files w;
         requests := requests w ++ map GetChannel channel_ids |} in
    process_channels api max_pages max_channels w1 =
      (Returned count, final) /\
    fetch_youtube_data api max_pages max_channels true w1 =
      (Returned (count, count), final) /\
    forall channel_id, In channel_id channel_ids ->
      exists n,
        df' !! channel_id =
        Some {| videos := [];
                statistics := api n (GetChannel channel_id) |}.
Proof.
  intros Hlisted Hcap w1 count.
  set (roster := map (fun channel_id => channel channel_id false false)
                   channel_ids).
  assert (Hroster : channels_file_json w1 = roster) by reflexivity.
  assert (Hall : Forall (regenerated w1) roster).
  { subst roster. apply Forall_map. eapply Forall_impl; [exact Hlisted|].
    intros channel_id Hl. repeat split. exact Hl. }
  assert (Hlen : length roster = length channel_ids)
    by apply length_map.
  exists (with_statistics api (length (requests w)) roster
            (default ∅ (api_data_file w))).
  cbn zeta. split; [|split].
  - unfold process_channels. unfold bind at 1. rewrite load_api_data_run.
    unfold bind at 1, load_channels. cbn [channels_file_json].
    rewrite Hroster.
    erewrite (loop_pc_regenerated api max_pages max_channels roster []);
      [| exact Hall | lia | reflexivity | reflexivity].
    subst roster count. rewrite Hlen, !map_map. reflexivity.
  - unfold fetch_youtube_data. unfold bind at 1. rewrite load_api_data_run.
    unfold bind at 1, load_channels. cbn [channels_file_json].
    rewrite Hroster.
    erewrite (loop_fy_regenerated api max_pages max_channels roster []);
      [| exact Hall | lia | reflexivity | reflexivity].
    subst roster count. rewrite Hlen, !map_map. reflexivity.
  - intros channel_id Hin.
    destruct (with_statistics_cells api roster (length (requests w))
                (default ∅ (api_data_file w))) as [Hcells _].
    apply (Hcells (channel channel_id false false)); [|reflexivity].
    subst roster. apply in_map_iff. exists channel_id. auto.
Qed.

Lemma regenerated_roster_drops_stored_videos_witness :
  exists df',
    process_channels healthy 1 5
      (snd (channel_ids_csv_to_json ["A"; "B"] world_done)) =
      (Returned 2%Z,
       {| api_data_file := Some df';
          channels_file_json := [channel "A" true true; channel "B" true true];
          video_list_files := video_list_files world_done;
          requests := [GetChannel "A"; GetChannel "B"] |}) /\
    fetch_youtube_data healthy 1 5 true
      (snd (channel_ids_csv_to_json ["A"; "B"] world_done)) =
      (Returned (2, 2)%Z,
       {| api_data_file := Some df';
          channels_file_json := [channel "A" true true; channel "B" true true];
          video_list_files := video_list_files world_done;
          requests := [GetChannel "A"; GetChannel "B"] |}) /\
    forall channel_id, In channel_id ["A"; "B"] ->
      exists n,
        df' !! channel_id =
        Some {| videos := [];
                statistics := healthy n (GetChannel channel_id) |}.
Proof.
  apply (regenerated_roster_drops_stored_videos healthy 1 5 ["A"; "B"]
           world_done).
  - repeat constructor.
    + eexists. split; [reflexivity | repeat constructor].
    + eexists. split; [reflexivity | repeat constructor].
  - cbn. lia.
Defined.

(** ** The order of the groups *)

Section OrderFacts.

Lemma dict_get_Some_keys (k : option pystr) (d : groups) (g : group) :
  dict_get k d = Some g -> k ∈ map fst d.
Proof.
  induction d as [|[k' g'] d IH]; cbn [dict_get map fst]; [discriminate|].
  destruct (bool_decide (k' = k)) eqn:Hk.
  - apply bool_decide_eq_true in Hk. subst k'. intros _. left.
  - intros Hg. right. exact (IH Hg).
Qed.

Lemma fold_add_hit_keys (results : list hit) :
  forall d,
    map fst (fold_left add_hit results d) =
    map fst d ++ first_occurrences (map fst d) (map h_documentId results).
Proof.
  induction results as [|h results IH]; intros d;
    cbn [fold_left map first_occurrences].
  - symmetry. apply app_nil_r.
  - rewrite IH. unfold add_hit.
    destruct (dict_get (h_documentId h) d) as [g|] eqn:Hget.
    + rewrite append_content_keys.
      rewrite bool_decide_eq_true_2
        by (eapply dict_get_Some_keys; eassumption).
      reflexivity.
    + rewrite bool_decide_eq_false_2.
      * rewrite map_app, <- app_assoc. reflexivity.
      * intros Hin. apply list_elem_of_In in Hin.
        exact (dict_get_None_keys _ _ Hget Hin).
Qed.

End OrderFacts.

(** X23: the groups come in the order in which their document ids first
    occur in the results. *)
Theorem group_by_document_id_order (results : list hit) :
  map fst (group_by_document_id results) =
  first_occurrences [] (map h_documentId results).
Proof. unfold group_by_document_id. apply fold_add_hit_keys. Qed.

(** ** The two harvest loops side by side *)

Section TwinFacts.
Variable api : nat -> request -> response.
Variable max_pages : nat.

Lemma videos_loops_agree (channel_id : string) (todo : list video_record) :
  forall done df all_videos_feched w,
    videos_loop_pc api channel_id done todo df all_videos_feched w =
    videos_loop_fy api channel_id done todo df all_videos_feched w.
Proof.
  induction todo as [|video todo IH]; intros done df all w;
    cbn [videos_loop_pc videos_loop_fy]; [reflexivity|].
  destruct (fetched_video video) eqn:Hf; cbn [negb]; [apply IH|].
  unfold bind at 1 3. unfold get_channel_video, bind, send.
  destruct (quota_exceeded _); [reflexivity|].
  cbn [ret].
  match goal with
  | |- context [store_video ?c ?d ?t ?v ?x ?f ?w1] =>
      destruct (store_video c d t v x f w1) as [[[df' video']|e|] w2]
  end; try reflexivity.
  apply IH.
Qed.

Lemma visits_agree (before after : list channel_record)
    (c : channel_record) (df : dataset) (w : world) :
  fetched_videos c = false ->
  visit_pc api max_pages before after c df w =
  match visit_fy api max_pages true before after c df w with
  | (Returned (df', c', processed, _), w') =>
      (Returned (df', c', processed), w')
  | (Raised e, w') => (Raised e, w')
  | (Diverged, w') => (Diverged, w')
  end.
Proof.
  intros Hv. unfold visit_pc, visit_fy. rewrite Hv. cbn [negb].
  unfold bind at 1 5.
  destruct ((if negb (fetched_statistics c)
             then fetch_statistics api before after c df
             else ret (df, c)) w) as [[[df1 c1]|e|] w1]; try reflexivity.
  unfold bind at 1 4.
  destruct (load_channel_videos api max_pages (channelID c) w1)
    as [[[channel_videos|]|e|] w2]; try reflexivity.
  unfold bind at 1 3. rewrite videos_loops_agree.
  destruct (videos_loop_fy api (channelID c) [] channel_videos df1 true w2)
    as [[[[df2 vs] all]|e|] w3]; try reflexivity.
  unfold bind.
  destruct (finish_videos before after c1 all w3) as [[c2|e|] w4];
    reflexivity.
Qed.

Lemma loops_agree (max_channels : Z) (todo : list channel_record) :
  Forall (fun c => fetched_videos c = false) todo ->
  forall before df n l w,
    loop_pc api max_pages max_channels before todo df n w =
    processed_of
      (loop_fy api max_pages max_channels true before todo df n l w).
Proof.
  induction 1 as [|c after Hv Hafter IH]; intros before df n l w;
    cbn [loop_pc loop_fy]; [reflexivity|].
  destruct (max_channels <=? n)%Z; [reflexivity|].
  unfold bind at 1 2. rewrite (visits_agree _ _ _ _ _ Hv).
  destruct (visit_fy api max_pages true before after c df w)
    as [[[[[df1 c1] processed] loaded]|e|] w1]; try reflexivity.
  apply IH.
Qed.

End TwinFacts.

(** X24: on a roster in which no channel has [fetched_videos] set,
    [process_channels] and [fetch_youtube_data] with [processVideo=True]
    do the same: they end the same way, send the same requests and leave the
    same files, and the counter of the first is the processed count of the
    second.  The loops differ only in how they count the channels whose
    videos are already fetched. *)
Theorem harvest_loops_agree (api : nat -> request -> response)
    (max_pages : nat) (max_channels : Z) (w : world) :
  Forall (fun c => fetched_videos c = false) (channels_file_json w) ->
  process_channels api max_pages max_channels w =
  processed_of (fetch_youtube_data api max_pages max_channels true w).
Proof.
  intros Hv. unfold process_channels, fetch_youtube_data.
  unfold bind at 1 3. rewrite load_api_data_run.
  unfold bind at 1 2, load_channels. cbn [channels_file_json].
  apply loops_agree. exact Hv.
Qed.

Lemma harvest_loops_agree_witness :
  process_channels (quota_from 4) 1 5
    (fresh_world [channel "A" false false; channel "B" false false]) =
  processed_of
    (fetch_youtube_data (quota_from 4) 1 5 true
       (fresh_world [channel "A" false false; channel "B" false false])).
Proof.
  apply (harvest_loops_agree (quota_from 4) 1 5
           (fresh_world [channel "A" false false; channel "B" false false])).
  repeat constructor.
Defined.

(** ** Instances of the general facts about the defects *)

Lemma statistics_never_fetched_again_witness :
  (exists sent,
     requests (snd (process_channels healthy 1 5 world_A_statistics)) =
     requests world_A_statistics ++ sent /\
     ~ In (GetChannel "A") sent) /\
  (exists sent,
     requests (snd (fetch_youtube_data healthy 1 5 true world_A_statistics)) =
     requests world_A_statistics ++ sent /\
     ~ In (GetChannel "A") sent).
Proof.
  apply (statistics_never_fetched_again healthy 1 "A" 5%Z true
           world_A_statistics).
  repeat constructor.
  cbn. discriminate.
Defined.

Lemma process_channels_stuck_witness :
  process_channels healthy 1 1 world_done = (Returned 1%Z, world_done).
Proof.
  apply (process_channels_stuck healthy 1 1%Z world_done
           {[ "A" := {| videos := [Some (plain_response "A-v1")];
                        statistics := plain_response "A" |};
              "B" := {| videos := [Some (plain_response "B-v1")];
                        statistics := plain_response "B" |} ]}
           [channel "A" true true] [channel "B" true true]).
  - repeat constructor.
  - reflexivity.
  - reflexivity.
  - reflexivity.
Defined.

Lemma load_channel_videos_without_items_witness :
  fst (load_channel_videos no_videos_for_A 1 "A" world_A_statistics) =
    Raised TypeError /\
  video_list_files
    (snd (load_channel_videos no_videos_for_A 1 "A" world_A_statistics))
    !! "A" = None.
Proof.
  apply (load_channel_videos_without_items no_videos_for_A "A"
           world_A_statistics 0); reflexivity.
Defined.

(** ** Resuming a channel, exactly *)

Section ResumedFacts.
Variable api : nat -> request -> response.
Variable max_pages : nat.

Lemma loop_fy_complete_rest (maxChannels : Z) (processVideo : bool)
    (todo : list channel_record) :
  Forall complete todo ->
  forall before df n l w,
    exists l',
      loop_fy api max_pages maxChannels processVideo before todo df n l w =
      (Returned (n, l'), w).
Proof.
  induction 1 as [|c after Hc Hafter IH]; intros before df n l w;
    cbn [loop_fy].
  - exists l. reflexivity.
  - destruct (maxChannels <=? n)%Z; [exists l; reflexivity|].
    unfold bind at 1. rewrite (visit_fy_complete_any _ _ _ _ _ _ _ _ Hc).
    apply IH.
Qed.

(** The visit of a channel that has its statistics and a list file, when
    no video request reports an exhausted quota. *)
Lemma visit_pc_resumed (before after : list channel_record)
    (A : channel_record) (df : dataset) (cell : yt_api)
    (channel_videos : list video_record) (w : world) :
  fetched_statistics A = true ->
  fetched_videos A = false ->
  api_data_file w = Some df ->
  df !! channelID A = Some cell ->
  video_list_files w !! channelID A = Some (Some channel_videos) ->
  (forall n v, quota_exceeded (api n (GetVideo v)) = false) ->
  visit_pc api max_pages before after A df w =
  (Returned (resumed_frame api (channelID A) df cell channel_videos w,
             set_fetched_videos A, true),
   resumed api before after A df cell channel_videos w).
Proof.
  intros Hs Hv Hdf Hcell Hlist Hquota.
  unfold visit_pc. rewrite Hs, Hv. cbn [negb].
  unfold bind at 1, ret. unfold bind at 1.
  rewrite (load_channel_videos_present api max_pages _ _ _ Hlist).
  unfold bind at 1.
  rewrite (videos_loop_pc_run api (channelID A) channel_videos Hquota []
             df cell true w Hcell Hdf Hlist).
  reflexivity.
Qed.

Lemma visit_fy_resumed (before after : list channel_record)
    (A : channel_record) (df : dataset) (cell : yt_api)
    (channel_videos : list video_record) (w : world) :
  fetched_statistics A = true ->
  fetched_videos A = false ->
  api_data_file w = Some df ->
  df !! channelID A = Some cell ->
  video_list_files w !! channelID A = Some (Some channel_videos) ->
  (forall n v, quota_exceeded (api n (GetVideo v)) = false) ->
  visit_fy api max_pages true before after A df w =
  (Returned (resumed_frame api (channelID A) df cell channel_videos w,
             set_fetched_videos A, true, true),
   resumed api before after A df cell channel_videos w).
Proof.
  intros Hs Hv Hdf Hcell Hlist Hquota.
  unfold visit_fy. rewrite Hs, Hv. cbn [negb].
  unfold bind at 1, ret. unfold bind at 1.
  rewrite (load_channel_videos_present api max_pages _ _ _ Hlist).
  unfold bind at 1.
  rewrite (videos_loop_fy_run api (channelID A) channel_videos Hquota []
             df cell true w Hcell Hdf Hlist).
  reflexivity.
Qed.

End ResumedFacts.

(** When A is the only channel of the roster with work left, the cap is
    positive and no video request reports an exhausted quota,
    [fetch_youtube_data] returns after requesting exactly the videos of A's
    list whose flag is false, in list order: it sends no other request,
    appends their answers to A's cell, flags every video of the list and
    marks A as done.  [process_channels] does the same when, in addition,
    the complete channels before A are fewer than the cap. *)
Lemma resumed_channel_is_completed (api : nat -> request -> response)
    (max_pages : nat) (max_channels : Z) (w : world)
    (before after : list channel_record) (A : channel_record)
    (df : dataset) (cell : yt_api) (channel_videos : list video_record) :
  channels_file_json w = before ++ A :: after ->
  Forall complete before ->
  Forall complete after ->
  fetched_statistics A = true ->
  fetched_videos A = false ->
  api_data_file w = Some df ->
  df !! channelID A = Some cell ->
  video_list_files w !! channelID A = Some (Some channel_videos) ->
  (forall n v, quota_exceeded (api n (GetVideo v)) = false) ->
  ((0 < max_channels)%Z ->
   exists loaded,
     fetch_youtube_data api max_pages max_channels true w =
     (Returned (1%Z, loaded),
      resumed api before after A df cell channel_videos w)) /\
  ((Z.of_nat (length before) < max_channels)%Z ->
   exists counted,
     process_channels api max_pages max_channels w =
     (Returned counted,
      resumed api before after A df cell channel_videos w)).
Proof.
  intros Hroster Hbefore Hafter Hs Hv Hdf Hcell Hlist Hquota.
  assert (Hload : load_api_data w = (Returned df, w)).
  { unfold load_api_data. rewrite Hdf. reflexivity. }
  split; intros Hcap.
  - unfold fetch_youtube_data. unfold bind at 1. rewrite Hload.
    unfold bind at 1, load_channels. rewrite Hroster.
    rewrite (loop_fy_skip_complete api max_pages max_channels before
               Hbefore) by lia.
    cbn [loop_fy app].
    destruct (Z.leb_spec max_channels 0) as [Hle|_]; [lia|].
    unfold bind at 1.
    rewrite (visit_fy_resumed api max_pages before after A df cell
               channel_videos w Hs Hv Hdf Hcell Hlist Hquota).
    apply loop_fy_complete_rest. exact Hafter.
  - unfold process_channels. unfold bind at 1. rewrite Hload.
    unfold bind at 1, load_channels. rewrite Hroster.
    rewrite (loop_pc_skip_complete api max_pages max_channels before
               Hbefore) by lia.
    cbn [loop_pc app].
    destruct (Z.leb_spec max_channels (0 + Z.of_nat (length before)))
      as [Hle|_]; [lia|].
    unfold bind at 1.
    rewrite (visit_pc_resumed api max_pages before after A df cell
               channel_videos w Hs Hv Hdf Hcell Hlist Hquota).
    rewrite (loop_pc_nothing_to_do api max_pages max_channels after Hafter).
    eexists. reflexivity.
Qed.

(** The scenario of C4 is an instance: [fetch_youtube_data] with a cap of
    one completes channel A behind the complete channel Z. *)
Lemma resumed_channel_is_completed_instance :
  exists loaded,
    fetch_youtube_data healthy 3 1 true world_resumed_behind =
    (Returned (1%Z, loaded),
     resumed healthy [channel "Z" true true] [] (channel "A" false true)
       {[ "Z" := {| videos := [Some (plain_response "Z-v1")];
                    statistics := plain_response "Z" |};
          "A" := {| videos := [Some (plain_response "v1")];
                    statistics := plain_response "A" |} ]}
       {| videos := [Some (plain_response "v1")];
          statistics := plain_response "A" |}
       [ {| VideoID := "v1"; fetched_video := true |};
         {| VideoID := "v2"; fetched_video := false |};
         {| VideoID := "v3"; fetched_video := false |} ]
       world_resumed_behind).
Proof.
  apply (resumed_channel_is_completed healthy 3 1 world_resumed_behind
           [channel "Z" true true] [] (channel "A" false true)).
  - reflexivity.
  - repeat constructor.
  - constructor.
  - reflexivity.
  - reflexivity.
  - reflexivity.
  - vm_compute. reflexivity.
  - vm_compute. reflexivity.
  - intros n v. reflexivity.
  - lia.
Defined.
